(** * GitSafe: the detection pipeline, embedded and verified

    A shallow embedding of the core of the GitSafe pre-commit secret
    scanner: the unified-diff parser ([gitsafe/git/diff_parser.py]), the
    suppression index ([gitsafe/scanner/suppression.py]), the aggregator
    ([gitsafe/findings/aggregator.py]) and the scan engine
    ([gitsafe/scanner/engine.py]).

    Python [str] values are sequences of Unicode code points and are
    modelled as [list N]; Python [int] as [Z]; dictionaries and sets as
    stdpp's [gmap] and [gset], except where insertion order is observable
    (the aggregator's [merged] dictionary), which is an association list. *)

From Stdlib Require Import ZArith NArith String Ascii Lia.
From stdpp Require Import base option list gmap.

Local Open Scope Z_scope.
Local Open Scope list_scope.

(** ** Python strings *)

Abbreviation pystr := (list N).

Definition chr (a : ascii) : N := N_of_ascii a.

(** [py "abc"] is the Python literal ["abc"] (ASCII literals only). *)
Definition py (s : string) : pystr := chr <$> list_ascii_of_string s.

Definition BOM : N := 65279%N.   (* U+FEFF *)
Definition LF : N := 10%N.
Definition CR : N := 13%N.

Fixpoint startswith (s p : pystr) {struct p} : bool :=
  match p with
  | [] => true
  | c :: p' =>
      match s with
      | [] => false
      | d :: s' => (c =? d)%N && startswith s' p'
      end
  end.

Fixpoint contains (s p : pystr) : bool :=
  startswith s p ||
  match s with
  | [] => false
  | _ :: s' => contains s' p
  end.

(** [str.lstrip(chars)]: drops every leading character that is in [chars]. *)
Fixpoint lstrip_chars (chars : pystr) (s : pystr) : pystr :=
  match s with
  | [] => []
  | c :: s' => if bool_decide (c ∈ chars) then lstrip_chars chars s' else s
  end.

(** [str.isspace] on one code point, as CPython's [_PyUnicode_IsWhitespace];
    the regular-expression class [\s] on [str] patterns is the same set. *)
Definition py_isspace (c : N) : bool :=
  ((9 <=? c) && (c <=? 13) || (28 <=? c) && (c <=? 32)
   || (c =? 133) || (c =? 160) || (c =? 5760)
   || (8192 <=? c) && (c <=? 8202)
   || (c =? 8232) || (c =? 8233) || (c =? 8239) || (c =? 8287)
   || (c =? 12288))%N.

Fixpoint lstrip_ws (s : pystr) : pystr :=
  match s with
  | [] => []
  | c :: s' => if py_isspace c then lstrip_ws s' else s
  end.

(** [str.strip()] with no argument. *)
Definition py_strip (s : pystr) : pystr :=
  rev (lstrip_ws (rev (lstrip_ws s))).

(** Line boundaries of [str.splitlines]. *)
Definition is_linebreak (c : N) : bool :=
  ((c =? 10) || (c =? 11) || (c =? 12) || (c =? 13) || (c =? 28)
   || (c =? 29) || (c =? 30) || (c =? 133) || (c =? 8232) || (c =? 8233))%N.

(** [str.splitlines()]: [cur] is the line being read, reversed. *)
Fixpoint splitlines_from (cur : pystr) (s : pystr) : list pystr :=
  match s with
  | [] => match cur with [] => [] | _ => [rev cur] end
  | c :: s' =>
      if (c =? CR)%N then
        match s' with
        | d :: s'' =>
            if (d =? LF)%N then rev cur :: splitlines_from [] s''
            else rev cur :: splitlines_from [] s'
        | [] => rev cur :: splitlines_from [] s'
        end
      else if is_linebreak c then rev cur :: splitlines_from [] s'
      else splitlines_from (c :: cur) s'
  end.

Definition splitlines (s : pystr) : list pystr := splitlines_from [] s.

(** Decimal rendering of a non-negative integer, [str(n)]. *)
Fixpoint dec_digits (fuel : nat) (n : N) (acc : pystr) : pystr :=
  match fuel with
  | O => acc
  | S fuel' =>
      let acc' := (48 + n mod 10)%N :: acc in
      if (n / 10 =? 0)%N then acc' else dec_digits fuel' (n / 10)%N acc'
  end.

Definition str_of_N (n : N) : pystr := dec_digits (S (N.to_nat (N.log2 n))) n [].

Definition str_of_Z (z : Z) : pystr :=
  if (z <? 0)%Z then chr "-" :: str_of_N (Z.to_N (- z)) else str_of_N (Z.to_N z).

(** ** A backtracking matcher for the fixed patterns of the source

    The patterns that the parser and the suppression index compile are
    transcribed as terms of [re]; repetition is only ever applied to a
    character class in them, which keeps the matcher structural. The
    matcher is greedy and backtracks in the order of Python's [re]. *)

Inductive re :=
| Lit (s : pystr)                 (* literal text *)
| Cls (p : N → bool)              (* one character of a class *)
| Star (p : N → bool)             (* p*  *)
| Plus (p : N → bool)             (* p+  *)
| Cat (r1 r2 : re)
| Alt (r1 r2 : re)                (* r1|r2 *)
| Opt (r : re)                    (* (?:r)? *)
| Grp (i : nat) (r : re)          (* capturing group number i *)
| Eos.                            (* $ without MULTILINE *)

Infix "⋅" := Cat (at level 41, right associativity).

Definition captures := list (nat * pystr).

Fixpoint group (m : captures) (i : nat) : option pystr :=
  match m with
  | [] => None
  | (j, s) :: m' => if Nat.eqb i j then Some s else group m' i
  end.

Fixpoint star_k {A} (p : N → bool) (s : pystr) (k : pystr → option A) : option A :=
  match s with
  | c :: s' =>
      if p c then
        match star_k p s' k with
        | Some r => Some r
        | None => k s
        end
      else k s
  | [] => k s
  end.

Fixpoint rmatch {A} (r : re) (s : pystr) (m : captures)
    (k : pystr → captures → option A) : option A :=
  match r with
  | Lit l => if startswith s l then k (drop (length l) s) m else None
  | Cls p => match s with c :: s' => if p c then k s' m else None | [] => None end
  | Star p => star_k p s (λ s', k s' m)
  | Plus p =>
      match s with
      | c :: s' => if p c then star_k p s' (λ s', k s' m) else None
      | [] => None
      end
  | Cat r1 r2 => rmatch r1 s m (λ s' m', rmatch r2 s' m' k)
  | Alt r1 r2 =>
      match rmatch r1 s m k with
      | Some x => Some x
      | None => rmatch r2 s m k
      end
  | Opt r' =>
      match rmatch r' s m k with
      | Some x => Some x
      | None => k s m
      end
  | Grp i r' =>
      rmatch r' s m (λ s' m', k s' ((i, take (length s - length s')%nat s) :: m'))
  | Eos =>
      match s with
      | [] => k s m
      | [c] => if (c =? LF)%N then k s m else None
      | _ => None
      end
  end.

(** [pattern.match(s)]: anchored at the start of [s]. *)
Definition re_match (r : re) (s : pystr) : option captures :=
  rmatch r s [] (λ _ m, Some m).

(** [pattern.search(s)]: the leftmost position at which [r] matches. *)
Fixpoint re_find (r : re) (s : pystr) : option captures :=
  match re_match r s with
  | Some m => Some m
  | None => match s with [] => None | _ :: s' => re_find r s' end
  end.

Definition dot (c : N) : bool := negb (c =? LF)%N.
Definition hex_lower (c : N) : bool :=
  ((48 <=? c) && (c <=? 57) || (97 <=? c) && (c <=? 102))%N.
Definition one_of (chars : pystr) (c : N) : bool := bool_decide (c ∈ chars).

(** ** The Python runtime the scanner runs on

    What the source imports from the standard library and does not define
    itself is an interface: the Unicode database behind [\d] and [int], the
    interpreter's limit on the digits of a string that [int] converts, the
    [re] module applied to the user-supplied rule and allowlist patterns,
    [fnmatch.fnmatch], [pathlib.Path(...).name], and floating point (the
    entropy of a token and the [f"{x:.2f}"] rendering). *)

(** A match object, as far as the engine looks at it: [m.group(0)], and the
    entry of ["secret"] in [m.groupdict()]: absent ([None]), present but not
    taking part in the match ([Some None]), or matched ([Some (Some s)]). *)
Record Match := {
  m_group0 : pystr;
  m_secret : option (option pystr);
}.

Class PyRuntime := {
  py_decimal : N → option Z;                 (* unicodedata.decimal *)
  int_max_str_digits : N;      (* sys.get_int_max_str_digits(): 0 for no limit, else >= 640 *)
  Pattern : Type;                            (* a compiled re.Pattern *)
  re_compile : pystr → bool → Pattern + pystr;
                       (* re.compile(p, IGNORECASE?); inr: the class of what it raises *)
  re_search : Pattern → pystr → option Match; (* pattern.search(text) *)
  fnmatch : pystr → pystr → bool;            (* fnmatch(name, pat) *)
  path_name : pystr → pystr;                 (* Path(p).name *)
  pyfloat : Type;
  shannon_entropy : pystr → pyfloat;         (* entropy.shannon_entropy *)
  float_ge : pyfloat → pyfloat → bool;       (* h >= min_entropy *)
  format_2f : pyfloat → pystr;               (* f"{h:.2f}" *)
}.

(** ** gitsafe/git/models.py *)

Inductive LineType := ADDED | REMOVED | CONTEXT.

Inductive FileStatus :=
  FS_ADDED | FS_MODIFIED | FS_DELETED | FS_RENAMED | FS_MODE_CHANGED.

Record DiffLine := {
  dl_file : pystr;
  dl_line_no : Z;
  dl_content : pystr;
  dl_line_type : LineType;
}.

Record DiffFile := {
  df_path : pystr;
  df_old_path : option pystr;
  df_status : FileStatus;
}.

Record FileSkipped := {
  fs_path : pystr;
  fs_reason : pystr;
}.

(** What [DiffParser.parse] yields. *)
Inductive DiffItem :=
| ItLine (l : DiffLine)
| ItFile (f : DiffFile)
| ItSkipped (f : FileSkipped).

#[global] Instance LineType_eq_dec : EqDecision LineType.
Proof. solve_decision. Defined.
#[global] Instance FileStatus_eq_dec : EqDecision FileStatus.
Proof. solve_decision. Defined.
#[global] Instance DiffLine_eq_dec : EqDecision DiffLine.
Proof. solve_decision. Defined.
#[global] Instance DiffFile_eq_dec : EqDecision DiffFile.
Proof. solve_decision. Defined.
#[global] Instance FileSkipped_eq_dec : EqDecision FileSkipped.
Proof. solve_decision. Defined.
#[global] Instance DiffItem_eq_dec : EqDecision DiffItem.
Proof. solve_decision. Defined.

(** ** gitsafe/git/diff_parser.py *)

Section DiffParser.
Context `{PyRuntime}.

(** [\d] on a [str] pattern: any Unicode decimal digit. *)
Definition digit (c : N) : bool :=
  match py_decimal c with Some _ => true | None => false end.

(** [int(s)] on a run of decimal digits: [None] when it raises
    [ValueError], which it does on more than [int_max_str_digits] digits
    (leading zeros counted) when the limit is set. *)
Definition py_int (s : pystr) : option Z :=
  if (0 <? int_max_str_digits)%N && (int_max_str_digits <? N.of_nat (length s))%N
  then None
  else Some (fold_left (λ acc c, acc * 10 + default 0 (py_decimal c)) s 0).

(** The module's patterns; each is used with [.match], which anchors at
    the start of the line as the leading [^] does. *)
Definition DIFF_HEADER_RE : re :=
  Lit (py "diff --git a/") ⋅ Grp 1 (Star dot) ⋅ Lit (py " b/") ⋅ Grp 2 (Star dot) ⋅ Eos.
Definition HUNK_HEADER_RE : re :=
  Lit (py "@@ -") ⋅ Grp 1 (Plus digit) ⋅ Opt (Lit (py ",") ⋅ Grp 2 (Plus digit))
  ⋅ Lit (py " +") ⋅ Grp 3 (Plus digit) ⋅ Opt (Lit (py ",") ⋅ Grp 4 (Plus digit))
  ⋅ Lit (py " @@").
Definition BINARY_RE : re :=
  Lit (py "Binary files ") ⋅ Star dot ⋅ Lit (py " and ") ⋅ Star dot ⋅ Lit (py " differ") ⋅ Eos.
Definition RENAME_FROM_RE : re := Lit (py "rename from ") ⋅ Grp 1 (Plus dot) ⋅ Eos.
Definition RENAME_TO_RE : re := Lit (py "rename to ") ⋅ Grp 1 (Plus dot) ⋅ Eos.
Definition SUBPROJECT_RE : re :=
  Opt (Cls (one_of (py "+-"))) ⋅ Lit (py "Subproject commit ") ⋅ Plus hex_lower ⋅ Eos.
Definition NO_NEWLINE_RE : re := Lit (py "\ No newline at end of file") ⋅ Eos.
Definition FILE_HEADER_OLD : re := Lit (py "--- ") ⋅ Alt (Lit (py "a/")) (Lit (py "/dev/null")).
Definition FILE_HEADER_NEW : re := Lit (py "+++ ") ⋅ Alt (Lit (py "b/")) (Lit (py "/dev/null")).
Definition SIMILARITY_RE : re := Lit (py "similarity index ") ⋅ Plus digit ⋅ Lit (py "%") ⋅ Eos.
Definition OLD_MODE_RE : re := Lit (py "old mode ") ⋅ Plus digit ⋅ Eos.
Definition NEW_MODE_RE : re := Lit (py "new mode ") ⋅ Plus digit ⋅ Eos.
Definition DELETED_FILE_RE : re := Lit (py "deleted file mode ") ⋅ Plus digit ⋅ Eos.
Definition NEW_FILE_RE : re := Lit (py "new file mode ") ⋅ Plus digit ⋅ Eos.
Definition INDEX_RE : re :=
  Lit (py "index ") ⋅ Plus hex_lower ⋅ Lit (py "..") ⋅ Plus hex_lower.

Definition matches (r : re) (s : pystr) : bool :=
  match re_match r s with Some _ => true | None => false end.

(** [_strip_bom]: [line.lstrip(BOM)], with [BOM] the one-character string U+FEFF. *)
Definition _strip_bom (line : pystr) : pystr := lstrip_chars [BOM] line.

(** The four flags that [parse] resets at every [diff --git] line. *)
Record Flags := {
  is_rename : bool;
  is_mode_only : bool;
  is_deleted : bool;
  is_binary : bool;
}.

Definition no_flags : Flags :=
  {| is_rename := false; is_mode_only := false; is_deleted := false; is_binary := false |}.

(** The local variables of [parse] that live across iterations of its
    outer loop ([hunk_remaining] is written and never read). *)
Record PState := {
  current_file : option pystr;
  old_file : option pystr;
  line_no : Z;
  hunk_buffer : list DiffLine;
}.

Definition parse_init : PState :=
  {| current_file := None; old_file := None; line_no := 0; hunk_buffer := [] |}.

Definition flush (buf : list DiffLine) : list DiffItem := ItLine <$> buf.

(** The inner loop over sub-headers: returns the old and the current path,
    the flags, and the lines from the first one that is not a sub-header. *)
Fixpoint sub_headers (lines : list pystr) (old cur : pystr) (fl : Flags)
    : pystr * pystr * Flags * list pystr :=
  match lines with
  | [] => (old, cur, fl, [])
  | sub :: rest =>
      if matches INDEX_RE sub then sub_headers rest old cur fl
      else if matches SIMILARITY_RE sub then sub_headers rest old cur fl
      else if matches OLD_MODE_RE sub then
        sub_headers rest old cur
          {| is_rename := is_rename fl; is_mode_only := true;
             is_deleted := is_deleted fl; is_binary := is_binary fl |}
      else if matches NEW_MODE_RE sub then sub_headers rest old cur fl
      else if matches DELETED_FILE_RE sub then
        sub_headers rest old cur
          {| is_rename := is_rename fl; is_mode_only := is_mode_only fl;
             is_deleted := true; is_binary := is_binary fl |}
      else if matches NEW_FILE_RE sub then sub_headers rest old cur fl
      else
        match re_match RENAME_FROM_RE sub with
        | Some rm =>
            sub_headers rest (default [] (group rm 1)) cur
              {| is_rename := true; is_mode_only := is_mode_only fl;
                 is_deleted := is_deleted fl; is_binary := is_binary fl |}
        | None =>
            match re_match RENAME_TO_RE sub with
            | Some rt => sub_headers rest old (default [] (group rt 1)) fl
            | None =>
                if matches BINARY_RE sub then
                  sub_headers rest old cur
                    {| is_rename := is_rename fl; is_mode_only := is_mode_only fl;
                       is_deleted := is_deleted fl; is_binary := true |}
                else (old, cur, fl, lines)
            end
        end
  end.

(** [_has_hunks_ahead], on the lines from [idx] on. *)
Fixpoint _has_hunks_ahead (lines : list pystr) : bool :=
  match lines with
  | [] => false
  | line :: rest =>
      if matches DIFF_HEADER_RE line then false
      else if matches HUNK_HEADER_RE line then true
      else _has_hunks_ahead rest
  end.

(** The metadata event of a file block, after its sub-headers. *)
Definition file_event (old cur : pystr) (fl : Flags) (ahead : list pystr) : DiffItem :=
  if is_binary fl then ItSkipped {| fs_path := cur; fs_reason := py "binary" |}
  else if is_mode_only fl && negb (_has_hunks_ahead ahead) then
    ItSkipped {| fs_path := cur; fs_reason := py "mode_only" |}
  else
    ItFile {| df_path := cur;
              df_old_path := if is_rename fl then Some old else None;
              df_status := if is_deleted fl then FS_DELETED
                           else if is_rename fl then FS_RENAMED
                           else FS_MODIFIED |}.

(** One iteration of the outer [while idx < total] loop, on the line at
    [idx] and the lines after it: the items yielded during the iteration,
    the lines from the new [idx] on, and the new values of the locals;
    [None] when the iteration raises, which it does when [int] does. *)
Definition parse_iter (raw_line : pystr) (rest : list pystr) (st : PState)
    : option (list DiffItem * list pystr * PState) :=
  match re_match DIFF_HEADER_RE raw_line with
  | Some m =>
      let '(old, cur, fl, rest') :=
        sub_headers rest (default [] (group m 1)) (default [] (group m 2)) no_flags in
      Some (flush (hunk_buffer st) ++ [file_event old cur fl rest'], rest',
            {| current_file := Some cur; old_file := Some old;
               line_no := line_no st; hunk_buffer := [] |})
  | None =>
      if matches FILE_HEADER_OLD raw_line || matches FILE_HEADER_NEW raw_line
      then Some ([], rest, st)
      else
        match re_match HUNK_HEADER_RE raw_line with
        | Some hm =>
            match py_int (default [] (group hm 3)) with
            | Some new_start =>
                Some (flush (hunk_buffer st), rest,
                      {| current_file := current_file st; old_file := old_file st;
                         line_no := new_start; hunk_buffer := [] |})
            | None => None
            end
        | None =>
            if matches SUBPROJECT_RE raw_line then Some ([], rest, st)
            else if matches NO_NEWLINE_RE raw_line then Some ([], rest, st)
            else
              match current_file st with
              | Some file =>
                  if startswith raw_line (py "+") then
                    let content := _strip_bom (drop 1 raw_line) in
                    let diff_line := {| dl_file := file; dl_line_no := line_no st;
                                        dl_content := content; dl_line_type := ADDED |} in
                    Some ([], rest,
                          {| current_file := current_file st; old_file := old_file st;
                             line_no := line_no st + 1;
                             hunk_buffer := hunk_buffer st ++ [diff_line] |})
                  else if startswith raw_line (py "-") then Some ([], rest, st)
                  else if startswith raw_line (py " ") then
                    Some ([], rest,
                          {| current_file := current_file st; old_file := old_file st;
                             line_no := line_no st + 1;
                             hunk_buffer := hunk_buffer st |})
                  else Some ([], rest, st)
              | None => Some ([], rest, st)
              end
        end
  end.

(** The outer loop and the final flush: the list of the items the generator
    yields, [None] when it raises [ValueError] instead of returning.
    [fuel] bounds the number of iterations; the bound that [parse_from]
    gives is never reached: [parse_from_raises] below shows that
    [parse_from] is [None] only when [int] raises on a hunk header. *)
Fixpoint parse_loop (fuel : nat) (lines : list pystr) (st : PState)
    : option (list DiffItem) :=
  match fuel with
  | O => None
  | S fuel' =>
      match lines with
      | [] => Some (flush (hunk_buffer st))
      | raw_line :: rest =>
          match parse_iter raw_line rest st with
          | Some (evs, lines', st') => (λ tl, evs ++ tl) <$> parse_loop fuel' lines' st'
          | None => None
          end
      end
  end.

Definition parse_from (lines : list pystr) (st : PState) : option (list DiffItem) :=
  parse_loop (S (length lines)) lines st.

(** [list(DiffParser(diff_text).parse())]: the list, or [None] when the
    generator raises [ValueError]. *)
Definition parse (diff_text : pystr) : option (list DiffItem) :=
  parse_from (splitlines diff_text) parse_init.

End DiffParser.

(** ** gitsafe/scanner/suppression.py *)

Definition ascii_alnum (c : N) : bool :=
  ((48 <=? c) && (c <=? 57) || (65 <=? c) && (c <=? 90) || (97 <=? c) && (c <=? 122))%N.

(** The class [[A-Za-z0-9_,\s]] of the bracketed rule list. *)
Definition ids_char (c : N) : bool :=
  ascii_alnum c || (c =? chr "_")%N || (c =? chr ",")%N || py_isspace c.

(** [_SUPPRESS_RE], used with [.search]. *)
Definition SUPPRESS_RE : re :=
  Lit (py "#") ⋅ Star py_isspace ⋅ Alt (Lit (py "gitsafe-ignore")) (Lit (py "nosec"))
  ⋅ Opt (Lit (py "[") ⋅ Grp 1 (Plus ids_char) ⋅ Lit (py "]"))
  ⋅ Star py_isspace ⋅ Eos.

(** [s.split(sep)] for a one-character separator; [cur] is reversed. *)
Fixpoint split_on (sep : N) (cur : pystr) (s : pystr) : list pystr :=
  match s with
  | [] => [rev cur]
  | c :: s' => if (c =? sep)%N then rev cur :: split_on sep [] s'
               else split_on sep (c :: cur) s'
  end.

Record Suppression := {
  sup_rule_id : pystr;
  sup_file : pystr;
  sup_line_no : Z;
  sup_reason : pystr;
  sup_source : pystr;
}.

(** An entry of the per-line map: [(suppress_all, specific_rules)]. *)
Abbreviation sup_entry := (bool * option (gset pystr))%type.

Definition parse_inline_suppression (line_content : pystr) : sup_entry :=
  match re_find SUPPRESS_RE line_content with
  | None => (false, None)
  | Some m =>
      match group m 1 with
      | Some ((_ :: _) as scope) =>
          let ids := filter (λ r, r ≠ []) (py_strip <$> split_on (chr ",") [] scope) in
          (true, Some (list_to_set ids))
      | _ => (true, None)
      end
  end.

Definition is_pure_comment (line_content : pystr) : bool :=
  let stripped := py_strip line_content in
  startswith stripped (py "#") || startswith stripped (py "//")
  || startswith stripped (py "/*").

(** The loop state of [register_lines]: [mapping], [prev_suppress],
    [prev_was_comment]. *)
Record RegState := {
  mapping : gmap Z sup_entry;
  prev_suppress : option sup_entry;
  prev_was_comment : bool;
}.

Definition reg_init : RegState :=
  {| mapping := ∅; prev_suppress := None; prev_was_comment := false |}.

Definition register_line (rs : RegState) (ln : Z * pystr) : RegState :=
  let '(line_no, content) := ln in
  let '(is_suppressed, rule_ids) := parse_inline_suppression content in
  if is_suppressed then
    let mapping' := <[line_no := (true, rule_ids)]> (mapping rs) in
    if is_pure_comment content then
      {| mapping := mapping'; prev_suppress := Some (true, rule_ids);
         prev_was_comment := true |}
    else
      {| mapping := mapping'; prev_suppress := None; prev_was_comment := false |}
  else
    let mapping' :=
      match prev_suppress rs with
      | Some e => if prev_was_comment rs then <[line_no := e]> (mapping rs) else mapping rs
      | None => mapping rs
      end in
    {| mapping := mapping'; prev_suppress := None; prev_was_comment := false |}.

(** The map that [register_lines] builds for one file. *)
Definition line_map (lines : list (Z * pystr)) : gmap Z sup_entry :=
  mapping (fold_left register_line lines reg_init).

(** [SuppressionChecker]: its only field, [_line_suppressions]. *)
Abbreviation SuppressionChecker := (gmap pystr (gmap Z sup_entry)).

Definition register_lines (self : SuppressionChecker) (file : pystr)
    (lines : list (Z * pystr)) : SuppressionChecker :=
  <[file := line_map lines]> self.

Definition is_suppressed (self : SuppressionChecker) (file : pystr) (line_no : Z)
    (rule_id : pystr) : option Suppression :=
  match (self !! file : option (gmap Z sup_entry)) with
  | None => None
  | Some file_map =>
      match (file_map !! line_no : option sup_entry) with
      | None => None
      | Some (suppress_all, specific_ids) =>
          match specific_ids with
          | None =>
              if suppress_all then
                Some {| sup_rule_id := rule_id; sup_file := file; sup_line_no := line_no;
                        sup_reason := py "inline"; sup_source := py "#gitsafe-ignore" |}
              else None
          | Some ids =>
              if bool_decide (rule_id ∈ ids) then
                Some {| sup_rule_id := rule_id; sup_file := file; sup_line_no := line_no;
                        sup_reason := py "inline";
                        sup_source := py "#gitsafe-ignore[" ++ rule_id ++ py "]" |}
              else None
          end
      end
  end.

(** [GitSafeIgnore]: the parsed [.gitsafeignore] file. *)
Record GitSafeIgnore := {
  _global_patterns : list pystr;
  _rule_patterns : gmap pystr (list pystr);
}.

Definition ignore_empty : GitSafeIgnore :=
  {| _global_patterns := []; _rule_patterns := ∅ |}.

(** [line.split(None, 1)] on a stripped, non-empty line: the first word and,
    when there is one, the rest after the white space that follows it. *)
Fixpoint split_first_word (cur : pystr) (s : pystr) : pystr * pystr :=
  match s with
  | [] => (rev cur, [])
  | c :: s' => if py_isspace c then (rev cur, lstrip_ws s')
               else split_first_word (c :: cur) s'
  end.

Definition ignore_add_line (inst : GitSafeIgnore) (raw : pystr) : GitSafeIgnore :=
  let line := py_strip raw in
  if bool_decide (line = []) || startswith line (py "#") then inst
  else if startswith line (py "rule:") then
    match split_first_word [] line with
    | (_, []) => inst
    | (word, pattern) =>
        let rule_id := drop 5 word in
        {| _global_patterns := _global_patterns inst;
           _rule_patterns :=
             <[rule_id := default [] (_rule_patterns inst !! rule_id) ++ [pattern]]>
               (_rule_patterns inst) |}
    end
  else {| _global_patterns := _global_patterns inst ++ [line];
          _rule_patterns := _rule_patterns inst |}.

(** [GitSafeIgnore.from_file], on the lines of the file ([None] when the
    path is not a file). *)
Definition ignore_from_file (file : option (list pystr)) : GitSafeIgnore :=
  match file with
  | None => ignore_empty
  | Some raws => fold_left ignore_add_line raws ignore_empty
  end.

Section Ignore.
Context `{PyRuntime}.

Definition is_ignored (self : GitSafeIgnore) (filepath : pystr)
    (rule_id : option pystr) : bool :=
  existsb (λ pat, fnmatch filepath pat) (_global_patterns self)
  || match rule_id with
     | Some ((_ :: _) as id) =>
         existsb (λ pat, fnmatch filepath pat) (default [] (_rule_patterns self !! id))
     | _ => false
     end.

End Ignore.

(** ** gitsafe/config/schema.py *)

(** [SEVERITY_ORDER.get(sev, 0)]. *)
Definition SEVERITY_ORDER (sev : pystr) : Z :=
  if bool_decide (sev = py "low") then 0
  else if bool_decide (sev = py "medium") then 1
  else if bool_decide (sev = py "high") then 2
  else if bool_decide (sev = py "critical") then 3
  else 0.

Definition severity_at_or_above (finding_sev threshold : pystr) : bool :=
  SEVERITY_ORDER threshold <=? SEVERITY_ORDER finding_sev.

(** ** gitsafe/findings/models.py and gitsafe/findings/aggregator.py *)

(** The deduplication key [(rule_id, file, line_no)]. *)
Abbreviation dedup_key := (pystr * pystr * Z)%type.

Section Findings.
Context `{PyRuntime}.

Record RawFinding := {
  rf_rule_id : pystr;
  rf_rule_name : pystr;
  rf_severity : pystr;
  rf_category : pystr;
  rf_file : pystr;
  rf_line_no : Z;
  rf_matched_value : option pystr;      (* [None]: the group [secret] did not take part *)
  rf_description : pystr;
  rf_detection_method : pystr;
  rf_entropy_value : option pyfloat;
  rf_commit : option pystr;
}.

Record Finding := {
  f_id : pystr;
  f_rule_id : pystr;
  f_rule_name : pystr;
  f_severity : pystr;
  f_category : pystr;
  f_file : pystr;
  f_line_no : Z;
  f_matched_value : option pystr;
  f_description : pystr;
  f_detection_methods : list pystr;
  f_entropy_value : option pyfloat;
  f_commit : option pystr;
  f_is_blocking : bool;
}.

Record ScanResult := {
  findings : list Finding;
  suppressed : list Suppression;
  skipped_files : list pystr;
  scanned_files : nat;
  blocked : bool;
}.

Definition raw_key (raw : RawFinding) : dedup_key :=
  (rf_rule_id raw, rf_file raw, rf_line_no raw).

Definition finding_key (f : Finding) : dedup_key :=
  (f_rule_id f, f_file f, f_line_no f).

(** [f"FINDING-{counter:03d}"]. *)
Definition finding_id (counter : Z) : pystr :=
  let d := str_of_Z counter in
  py "FINDING-" ++ replicate (3 - length d) (chr "0") ++ d.

(** The body of the [if key in merged] branch: the update of [existing]. *)
Definition merge_raw (existing : Finding) (raw : RawFinding) : Finding :=
  {| f_id := f_id existing;
     f_rule_id := f_rule_id existing;
     f_rule_name := f_rule_name existing;
     f_severity :=
       if SEVERITY_ORDER (f_severity existing) <? SEVERITY_ORDER (rf_severity raw)
       then rf_severity raw else f_severity existing;
     f_category := f_category existing;
     f_file := f_file existing;
     f_line_no := f_line_no existing;
     f_matched_value := f_matched_value existing;
     f_description := f_description existing;
     f_detection_methods :=
       if bool_decide (rf_detection_method raw ∈ f_detection_methods existing)
       then f_detection_methods existing
       else f_detection_methods existing ++ [rf_detection_method raw];
     f_entropy_value :=
       match rf_entropy_value raw with
       | Some v => Some v
       | None => f_entropy_value existing
       end;
     f_commit := f_commit existing;
     f_is_blocking := f_is_blocking existing |}.

(** The [else] branch: the finding created at the first occurrence. *)
Definition new_finding (counter : Z) (raw : RawFinding) (fail_on : pystr) : Finding :=
  {| f_id := finding_id counter;
     f_rule_id := rf_rule_id raw;
     f_rule_name := rf_rule_name raw;
     f_severity := rf_severity raw;
     f_category := rf_category raw;
     f_file := rf_file raw;
     f_line_no := rf_line_no raw;
     f_matched_value := rf_matched_value raw;
     f_description := rf_description raw;
     f_detection_methods := [rf_detection_method raw];
     f_entropy_value := rf_entropy_value raw;
     f_commit := rf_commit raw;
     f_is_blocking := severity_at_or_above (rf_severity raw) fail_on |}.

(** [merged]: a dictionary in insertion order, as an association list. *)
Fixpoint merged_update (merged : list (dedup_key * Finding)) (key : dedup_key)
    (raw : RawFinding) : option (list (dedup_key * Finding)) :=
  match merged with
  | [] => None
  | (k, existing) :: rest =>
      if bool_decide (k = key) then Some ((k, merge_raw existing raw) :: rest)
      else (λ rest', (k, existing) :: rest') <$> merged_update rest key raw
  end.

(** One iteration of [for raw in raw_findings], on [(merged, counter)]. *)
Definition dedup_step (fail_on : pystr) (acc : list (dedup_key * Finding) * Z)
    (raw : RawFinding) : list (dedup_key * Finding) * Z :=
  let '(merged, counter) := acc in
  let key := raw_key raw in
  match merged_update merged key raw with
  | Some merged' => (merged', counter)
  | None =>
      let counter' := counter + 1 in
      (merged ++ [(key, new_finding counter' raw fail_on)], counter')
  end.

Definition deduplicate (raw_findings : list RawFinding) (fail_on : pystr) : list Finding :=
  (fold_left (dedup_step fail_on) raw_findings ([], 0)).1.*2.

End Findings.

(** ** gitsafe/scanner/entropy.py *)

(** The complement of the class of [_TOKEN_RE]: white space, the two quote
    characters (39 and 34) and the punctuation [= : ; , < > ( ) { }] and the
    two square brackets. *)
Definition token_char (c : N) : bool :=
  negb (py_isspace c || one_of (39%N :: 34%N :: py "=:;,<>(){}[]") c).

(** [_TOKEN_RE.findall(line)]: the maximal runs of token characters. *)
Fixpoint findall_tokens (cur : pystr) (s : pystr) : list pystr :=
  match s with
  | [] => match cur with [] => [] | _ => [rev cur] end
  | c :: s' =>
      if token_char c then findall_tokens (c :: cur) s'
      else match cur with
           | [] => findall_tokens [] s'
           | _ => rev cur :: findall_tokens [] s'
           end
  end.

(** [tok.strip(chars)]. *)
Definition strip_chars (chars : pystr) (s : pystr) : pystr :=
  rev (lstrip_chars chars (rev (lstrip_chars chars s))).

Definition extract_candidates (line : pystr) (min_length : Z) : list pystr :=
  filter (λ tok, min_length ≤ Z.of_nat (length tok))
         (strip_chars [39%N; 34%N] <$> findall_tokens [] line).

Section Entropy.
Context `{PyRuntime}.

Definition find_high_entropy (line : pystr) (min_entropy : pyfloat) (min_length : Z)
    : list (pystr * pyfloat) :=
  omap (λ candidate,
          let h := shannon_entropy candidate in
          if float_ge h min_entropy then Some (candidate, h) else None)
       (extract_candidates line min_length).

End Entropy.

(** ** gitsafe/rules/models.py, gitsafe/rules/registry.py, the configuration *)

(** What Python raises: [ScanError], or any other [Exception], of which the
    model keeps the class name. *)
Inductive exn :=
| ScanError (msg : pystr)
| PyException (name : pystr).

Inductive res (A : Type) :=
| Ok (a : A)
| Err (e : exn).
Arguments Ok {A} a.
Arguments Err {A} e.

Section Rules.
Context `{PyRuntime}.

Record Rule := {
  id : pystr;
  name : pystr;
  description : pystr;
  category : pystr;
  severity : pystr;
  pattern : option pystr;
  file_patterns : option (list pystr);
  min_entropy : option pyfloat;
  min_length : option Z;
  allowlist_patterns : option (list pystr);
  enabled : bool;
}.

(** [re.compile] over a list, in order; the first failure raises. *)
Fixpoint compile_all (ps : list pystr) (ignorecase : bool) : res (list Pattern) :=
  match ps with
  | [] => Ok []
  | p :: ps' =>
      match re_compile p ignorecase with
      | inr name => Err (PyException name)
      | inl cp =>
          match compile_all ps' ignorecase with
          | Ok cps => Ok (cp :: cps)
          | Err e => Err e
          end
      end
  end.

(** The property [compiled_pattern]; the cache it fills is not observable,
    a pattern that fails to compile fails again at every access. *)
Definition compiled_pattern (rule : Rule) : res (option Pattern) :=
  match pattern rule with
  | None => Ok None
  | Some p =>
      match re_compile p false with
      | inl cp => Ok (Some cp)
      | inr name => Err (PyException name)
      end
  end.

Definition compiled_allowlist (rule : Rule) : res (list Pattern) :=
  match allowlist_patterns rule with
  | Some ((_ :: _) as ps) => compile_all ps true
  | _ => Ok []
  end.

Definition is_file_rule (rule : Rule) : bool :=
  match file_patterns rule, pattern rule with
  | Some _, None => true
  | _, _ => false
  end.

Definition is_entropy_rule (rule : Rule) : bool :=
  match min_entropy rule with Some _ => true | None => false end.

(** A [RuleRegistry] is the list of the values of [_rules], in insertion
    order. *)
Definition enabled_rules (registry : list Rule) : list Rule :=
  filter (λ r, enabled r = true) registry.

Definition content_rules (registry : list Rule) : list Rule :=
  filter (λ r, is_file_rule r = false) (enabled_rules registry).

Definition file_rules (registry : list Rule) : list Rule :=
  filter (λ r, is_file_rule r = true) (enabled_rules registry).

(** The sections of [GitSafeConfig] that the engine reads. *)
Record ScanConfig := { fail_on : pystr; early_exit : bool }.
Record EntropyConfig := { ent_enabled : bool; ent_min_entropy : pyfloat; ent_min_length : Z }.
Record IgnoreConfig := { ig_files : list pystr; ig_rules : list pystr; ig_paths : list pystr }.
Record AllowlistConfig := { patterns : list pystr }.
Record CIConfig := { max_findings : option Z }.

Record GitSafeConfig := {
  cfg_scan : ScanConfig;
  cfg_entropy : EntropyConfig;
  cfg_ignore : IgnoreConfig;
  cfg_allowlist : AllowlistConfig;
  cfg_ci : CIConfig;
}.

End Rules.

(** ** gitsafe/scanner/engine.py *)

Section Engine.
Context `{PyRuntime}.

(** [any(p.search(text) for p in patterns)]. The text is the matched value,
    which is [None] when the group [secret] took no part in the match:
    [p.search(None)] raises [TypeError]. *)
Fixpoint search_any (text : option pystr) (patterns : list Pattern) : res bool :=
  match patterns with
  | [] => Ok false
  | p :: ps =>
      match text with
      | None => Err (PyException (py "TypeError"))
      | Some t =>
          match re_search p t with
          | Some _ => Ok true
          | None => search_any text ps
          end
      end
  end.

Definition _match_global_allowlist (text : option pystr) (patterns : list Pattern)
    : res bool :=
  search_any text patterns.

Definition _match_rule_allowlist (text : option pystr) (rule : Rule) : res bool :=
  match compiled_allowlist rule with
  | Err e => Err e
  | Ok ps => search_any text ps
  end.

(** The mutable locals of [scan]. *)
Record ScanState := {
  raw_findings : list RawFinding;
  suppressions : list Suppression;
  skipped : list pystr;
  scanned_files_set : gset pystr;
  ignored_files_set : gset pystr;
}.

Definition scan_init : ScanState :=
  {| raw_findings := []; suppressions := []; skipped := [];
     scanned_files_set := ∅; ignored_files_set := ∅ |}.

Definition add_raw (st : ScanState) (raw : RawFinding) : ScanState :=
  {| raw_findings := raw_findings st ++ [raw]; suppressions := suppressions st;
     skipped := skipped st; scanned_files_set := scanned_files_set st;
     ignored_files_set := ignored_files_set st |}.

Definition add_suppression (st : ScanState) (sup : Suppression) : ScanState :=
  {| raw_findings := raw_findings st; suppressions := suppressions st ++ [sup];
     skipped := skipped st; scanned_files_set := scanned_files_set st;
     ignored_files_set := ignored_files_set st |}.

Definition add_skipped (st : ScanState) (entry : pystr) : ScanState :=
  {| raw_findings := raw_findings st; suppressions := suppressions st;
     skipped := skipped st ++ [entry]; scanned_files_set := scanned_files_set st;
     ignored_files_set := ignored_files_set st |}.

Definition add_scanned (st : ScanState) (file : pystr) : ScanState :=
  {| raw_findings := raw_findings st; suppressions := suppressions st;
     skipped := skipped st; scanned_files_set := {[file]} ∪ scanned_files_set st;
     ignored_files_set := ignored_files_set st |}.

Definition add_ignored (st : ScanState) (file : pystr) : ScanState :=
  {| raw_findings := raw_findings st; suppressions := suppressions st;
     skipped := skipped st; scanned_files_set := scanned_files_set st;
     ignored_files_set := {[file]} ∪ ignored_files_set st |}.

(** How an iteration of a loop ends: it falls through or [continue]s,
    [break]s, or raises. *)
Inductive ctl :=
| Next
| Break
| Raise (e : exn).

(** [file_lines.setdefault(file, []).append(entry)], on a dictionary kept in
    insertion order. *)
Fixpoint bucket_append (file_lines : list (pystr * list (Z * pystr)))
    (file : pystr) (entry : Z * pystr) : list (pystr * list (Z * pystr)) :=
  match file_lines with
  | [] => [(file, [entry])]
  | (f, lines) :: rest =>
      if bool_decide (f = file) then (f, lines ++ [entry]) :: rest
      else (f, lines) :: bucket_append rest file entry
  end.

Definition build_file_lines (diff_items : list DiffItem)
    : list (pystr * list (Z * pystr)) :=
  fold_left
    (λ file_lines item,
       match item with
       | ItLine l =>
           if bool_decide (dl_line_type l = ADDED)
           then bucket_append file_lines (dl_file l) (dl_line_no l, dl_content l)
           else file_lines
       | _ => file_lines
       end)
    diff_items [].

Definition build_checker (file_lines : list (pystr * list (Z * pystr)))
    : SuppressionChecker :=
  fold_left (λ checker '(file, lines), register_lines checker file lines) file_lines ∅.

Section MainPass.
Variable config : GitSafeConfig.
Variable global_allowlist : list Pattern.
Variable ignorefile : GitSafeIgnore.
Variable suppression_checker : SuppressionChecker.
Variable the_content_rules : list Rule.
Variable the_file_rules : list Rule.

Definition ignore_globs : list pystr :=
  ig_files (cfg_ignore config) ++ ig_paths (cfg_ignore config).

(** The body of [for rule in file_rules]. *)
Definition scan_file_rule (filepath : pystr) (st : ScanState) (rule : Rule)
    : ScanState * ctl :=
  match file_patterns rule with
  | None => (st, Raise (PyException (py "AssertionError")))
  | Some pats =>
      let basename := path_name filepath in
      if existsb (λ pat, fnmatch basename pat || fnmatch filepath pat) pats then
        match _match_rule_allowlist (Some basename) rule with
        | Err e => (st, Raise e)
        | Ok true => (st, Next)
        | Ok false =>
            (add_raw st
               {| rf_rule_id := id rule; rf_rule_name := name rule;
                  rf_severity := severity rule; rf_category := category rule;
                  rf_file := filepath; rf_line_no := 0;
                  rf_matched_value := Some basename;
                  rf_description := description rule;
                  rf_detection_method := py "file_pattern";
                  rf_entropy_value := None; rf_commit := None |}, Next)
        end
      else (st, Next)
  end.

(** A [for] loop whose body may [break] or raise. *)
Fixpoint for_each {A} (body : ScanState → A → ScanState * ctl) (xs : list A)
    (st : ScanState) : ScanState * option exn :=
  match xs with
  | [] => (st, None)
  | x :: xs' =>
      match body st x with
      | (st', Next) => for_each body xs' st'
      | (st', Break) => (st', None)
      | (st', Raise e) => (st', Some e)
      end
  end.

(** The body of [for rule in content_rules]. *)
Definition scan_content_rule (filepath : pystr) (line_no : Z) (line_content : pystr)
    (st : ScanState) (rule : Rule) : ScanState * ctl :=
  if is_entropy_rule rule then (st, Next)
  else
    match compiled_pattern rule with
    | Err e => (st, Raise e)
    | Ok None => (st, Next)
    | Ok (Some cp) =>
        match re_search cp line_content with
        | None => (st, Next)
        | Some m =>
            let matched :=
              match m_secret m with
              | Some v => v
              | None => Some (m_group0 m)
              end in
            match _match_rule_allowlist matched rule with
            | Err e => (st, Raise e)
            | Ok true => (st, Next)
            | Ok false =>
                match _match_global_allowlist matched global_allowlist with
                | Err e => (st, Raise e)
                | Ok true => (st, Next)
                | Ok false =>
                    if is_ignored ignorefile filepath (Some (id rule)) then (st, Next)
                    else
                      match is_suppressed suppression_checker filepath line_no (id rule) with
                      | Some sup => (add_suppression st sup, Next)
                      | None =>
                          (add_raw st
                             {| rf_rule_id := id rule; rf_rule_name := name rule;
                                rf_severity := severity rule;
                                rf_category := category rule;
                                rf_file := filepath; rf_line_no := line_no;
                                rf_matched_value := matched;
                                rf_description := description rule;
                                rf_detection_method := py "regex";
                                rf_entropy_value := None; rf_commit := None |},
                           if early_exit (cfg_scan config)
                              && bool_decide (severity rule = py "critical")
                           then Break else Next)
                      end
                end
            end
        end
    end.

Definition HIGH_ENTROPY_STRING : pystr := py "HIGH_ENTROPY_STRING".

(** The body of [for candidate, entropy_val in hits]. *)
Definition scan_entropy_hit (filepath : pystr) (line_no : Z) (st : ScanState)
    (hit : pystr * pyfloat) : ScanState * ctl :=
  let '(candidate, entropy_val) := hit in
  match _match_global_allowlist (Some candidate) global_allowlist with
  | Err e => (st, Raise e)
  | Ok true => (st, Next)
  | Ok false =>
      if is_ignored ignorefile filepath (Some HIGH_ENTROPY_STRING) then (st, Next)
      else
        match is_suppressed suppression_checker filepath line_no HIGH_ENTROPY_STRING with
        | Some sup => (add_suppression st sup, Next)
        | None =>
            (add_raw st
               {| rf_rule_id := HIGH_ENTROPY_STRING;
                  rf_rule_name := py "High-Entropy String";
                  rf_severity := py "medium"; rf_category := py "sensitive";
                  rf_file := filepath; rf_line_no := line_no;
                  rf_matched_value := Some candidate;
                  rf_description :=
                    py "Shannon entropy " ++ format_2f entropy_val ++ py " bits";
                  rf_detection_method := py "entropy";
                  rf_entropy_value := Some entropy_val; rf_commit := None |}, Next)
        end
  end.

(** The circuit breaker that ends the body for an added line. *)
Definition circuit_breaker (st : ScanState) : ctl :=
  match max_findings (cfg_ci config) with
  | Some mx => if mx <=? Z.of_nat (length (raw_findings st)) then Break else Next
  | None => Next
  end.

(** The body of the main loop, [for item in diff_items]. *)
Definition scan_item (st : ScanState) (item : DiffItem) : ScanState * ctl :=
  match item with
  | ItSkipped sk =>
      (add_skipped st (fs_path sk ++ py " (" ++ fs_reason sk ++ py ")"), Next)
  | ItFile df =>
      let filepath := df_path df in
      if existsb (λ g, fnmatch filepath g) ignore_globs then
        (add_ignored (add_skipped st (filepath ++ py " (ignored)")) filepath, Next)
      else if is_ignored ignorefile filepath None then
        (add_ignored (add_skipped st (filepath ++ py " (gitsafeignore)")) filepath, Next)
      else
        match for_each (scan_file_rule filepath) the_file_rules (add_scanned st filepath) with
        | (st', Some e) => (st', Raise e)
        | (st', None) => (st', Next)
        end
  | ItLine dl =>
      if negb (bool_decide (dl_line_type dl = ADDED)) then (st, Next)
      else
        let line_content := dl_content dl in
        let filepath := dl_file dl in
        let line_no := dl_line_no dl in
        if bool_decide (filepath ∈ ignored_files_set st) then (st, Next)
        else
          match for_each (scan_content_rule filepath line_no line_content)
                  the_content_rules (add_scanned st filepath) with
          | (st1, Some e) => (st1, Raise e)
          | (st1, None) =>
              let hits :=
                if ent_enabled (cfg_entropy config) then
                  find_high_entropy line_content (ent_min_entropy (cfg_entropy config))
                    (ent_min_length (cfg_entropy config))
                else [] in
              match for_each (scan_entropy_hit filepath line_no) hits st1 with
              | (st2, Some e) => (st2, Raise e)
              | (st2, None) => (st2, circuit_breaker st2)
              end
          end
  end.

(** The [try] block: the main loop over the materialised items. *)
Definition main_pass (diff_items : list DiffItem) (st : ScanState)
    : ScanState * option exn :=
  for_each scan_item diff_items st.

End MainPass.

(** The message of the [ScanError] that the handler raises. *)
Definition scan_error_message (raw_findings_count : nat) : pystr :=
  py "Internal scanner error after " ++ str_of_Z (Z.of_nat raw_findings_count)
  ++ py " findings. " ++ py "Secrets have been scrubbed from this error.".

(** What a call of [scan] leaves behind: the contents of the list object
    [raw_findings] when the call ends, and the value returned or the
    exception raised. *)
Record ScanRun := {
  run_raw_findings : list RawFinding;
  run_outcome : res ScanResult;
}.

(** The [except] clauses and the code after the [try]. *)
Definition scan_finish (config : GitSafeConfig) (r : ScanState * option exn) : ScanRun :=
  match r with
  | (st, Some (ScanError msg)) =>
      {| run_raw_findings := raw_findings st; run_outcome := Err (ScanError msg) |}
  | (st, Some (PyException _)) =>
      let raw_findings_count := length (raw_findings st) in
      {| run_raw_findings := [];
         run_outcome := Err (ScanError (scan_error_message raw_findings_count)) |}
  | (st, None) =>
      let fs := deduplicate (raw_findings st) (fail_on (cfg_scan config)) in
      {| run_raw_findings := raw_findings st;
         run_outcome :=
           Ok {| findings := fs;
                 suppressed := suppressions st;
                 skipped_files := skipped st;
                 scanned_files := size (scanned_files_set st);
                 blocked := existsb f_is_blocking fs |} |}
  end.

(** The main pass of [scan] on already parsed items, with the allowlist
    compiled. *)
Definition scan_pass (diff_items : list DiffItem) (config : GitSafeConfig)
    (global_allowlist : list Pattern) (registry : list Rule)
    (ignorefile : GitSafeIgnore) : ScanState * option exn :=
  let suppression_checker := build_checker (build_file_lines diff_items) in
  main_pass config global_allowlist ignorefile suppression_checker
    (content_rules registry) (file_rules registry) diff_items scan_init.

(** [scan(diff_text, config, registry, repo_root)]. The file system is
    outside the model: [ignorefile] is what [GitSafeIgnore.from_file] loads
    from [repo_root / ".gitsafeignore"]. The wall-clock fields are left out.
    The allowlist is compiled and the diff is parsed before the [try]:
    what they raise leaves [scan] as it is. *)
Definition scan_run (diff_text : pystr) (config : GitSafeConfig)
    (registry : list Rule) (ignorefile : GitSafeIgnore) : ScanRun :=
  match compile_all (patterns (cfg_allowlist config)) true with
  | Err e => {| run_raw_findings := []; run_outcome := Err e |}
  | Ok global_allowlist =>
      match parse diff_text with
      | None =>
          {| run_raw_findings := [];
             run_outcome := Err (PyException (py "ValueError")) |}
      | Some diff_items =>
          scan_finish config
            (scan_pass diff_items config global_allowlist registry ignorefile)
      end
  end.

Definition scan (diff_text : pystr) (config : GitSafeConfig)
    (registry : list Rule) (ignorefile : GitSafeIgnore) : res ScanResult :=
  run_outcome (scan_run diff_text config registry ignorefile).

End Engine.

(** ** gitsafe/git/diff_parser.py: [_normalise] *)

(** [s.rstrip(chars)] and [s.rstrip()]. *)
Definition rstrip_chars (chars : pystr) (s : pystr) : pystr :=
  rev (lstrip_chars chars (rev s)).

Definition rstrip_ws (s : pystr) : pystr := rev (lstrip_ws (rev s)).

(** [_normalise]: [line.rstrip(CR).rstrip()]. *)
Definition _normalise (line : pystr) : pystr := rstrip_ws (rstrip_chars [CR] line).

(** ** gitsafe/findings/models.py: the properties of [ScanResult] *)

Section ScanResultProperties.
Context `{PyRuntime}.

Definition total_findings (self : ScanResult) : nat := length (findings self).

Definition blocking_findings (self : ScanResult) : list Finding :=
  filter (λ f, f_is_blocking f = true) (findings self).

Definition informational_findings (self : ScanResult) : list Finding :=
  filter (λ f, f_is_blocking f = false) (findings self).

End ScanResultProperties.

(** ** gitsafe/findings/redactor.py *)

(** [redact_local]: [value[:4]], three dots, [value[-2:]]. *)
Definition redact_local (value : pystr) : pystr :=
  if (length value <=? 6)%nat then py "[REDACTED]"
  else take 4 value ++ py "..." ++ drop (length value - 2) value.

Definition redact_ci (_value : pystr) : pystr := py "[REDACTED]".

Definition redact (value : pystr) (ci_mode : bool) : pystr :=
  if ci_mode then redact_ci value else redact_local value.

(** ** gitsafe/rules/registry.py: registration, configuration, file patterns *)

Section Registry.
Context `{PyRuntime}.

(** [RuleRegistry.register]: [self._rules[rule.id] = rule]. The dictionary
    [_rules] is kept as the list of its values in insertion order; an
    assignment to a key that is present replaces the value in place. *)
Fixpoint register (registry : list Rule) (rule : Rule) : list Rule :=
  match registry with
  | [] => [rule]
  | r :: rest =>
      if bool_decide (id r = id rule) then rule :: rest else r :: register rest rule
  end.

Definition register_many (registry : list Rule) (rules : list Rule) : list Rule :=
  fold_left register rules registry.

Definition all_rules (registry : list Rule) : list Rule := registry.

(** [RuleRegistry.get]: [self._rules.get(rule_id)]. *)
Definition get (registry : list Rule) (rule_id : pystr) : option Rule :=
  find (λ r, bool_decide (id r = rule_id)) registry.

(** [RulesConfig], the section [rules] of the configuration. *)
Record RulesConfig := { enable : list pystr; disable : list pystr }.

(** The assignment [rule.enabled = b]. *)
Definition set_enabled (rule : Rule) (b : bool) : Rule :=
  {| id := id rule; name := name rule; description := description rule;
     category := category rule; severity := severity rule; pattern := pattern rule;
     file_patterns := file_patterns rule; min_entropy := min_entropy rule;
     min_length := min_length rule; allowlist_patterns := allowlist_patterns rule;
     enabled := b |}.

(** [RuleRegistry.apply_config]. It reads [config.rules] and
    [config.ignore.rules]; the former is passed as [rules], the record
    [GitSafeConfig] above holding the sections that the engine reads. *)
Definition apply_config (registry : list Rule) (rules : RulesConfig)
    (config : GitSafeConfig) : list Rule :=
  (λ rule,
     let rule1 :=
       match enable rules with
       | [] => rule
       | _ => set_enabled rule (bool_decide (id rule ∈ enable rules))
       end in
     if bool_decide (id rule ∈ disable rules)
        || bool_decide (id rule ∈ ig_rules (cfg_ignore config))
     then set_enabled rule1 false else rule1) <$> registry.

(** [RuleRegistry.match_file_patterns]. *)
Definition match_file_patterns (registry : list Rule) (filepath : pystr)
    : res (list Rule) :=
  let basename := path_name filepath in
  fold_left
    (λ acc rule,
       match acc with
       | Err e => Err e
       | Ok hits =>
           match file_patterns rule with
           | None => Err (PyException (py "AssertionError"))
           | Some pats =>
               if existsb (λ pat, fnmatch basename pat || fnmatch filepath pat) pats
               then Ok (hits ++ [rule]) else Ok hits
           end
       end)
    (file_rules registry) (Ok []).



End Registry.

(** ** gitsafe/git/adapter.py: reading the output of git *)

Definition TAB : N := 9%N.

(** [s.split(sep, maxsplit)] for a separator of one character; [cur] is the
    piece being read, reversed. *)
Fixpoint split_max (sep : N) (maxsplit : nat) (cur : pystr) (s : pystr)
    {struct s} : list pystr :=
  match s with
  | [] => [rev cur]
  | c :: s' =>
      match maxsplit with
      | O => [rev cur ++ s]
      | S n =>
          if (c =? sep)%N then rev cur :: split_max sep n [] s'
          else split_max sep maxsplit (c :: cur) s'
      end
  end.

(** [get_binary_files], from the output of [git diff --numstat]: the loop
    over [output.splitlines()]; an index out of range raises. *)
Definition binary_step (acc : res (gset pystr)) (line : pystr) : res (gset pystr) :=
  match acc with
  | Err e => Err e
  | Ok binaries =>
      if startswith line [45; TAB; 45; TAB]%N then
        match split_max TAB 2 [] line !! 2%nat with
        | Some name => Ok ({[ name ]} ∪ binaries)
        | None => Err (PyException (py "IndexError"))
        end
      else Ok binaries
  end.

Definition get_binary_files (output : pystr) : res (gset pystr) :=
  fold_left binary_step (splitlines output) (Ok ∅).

(** [get_staged_files], from the output of [git diff --cached --name-only]. *)
Definition get_staged_files (output : pystr) : list pystr :=
  filter (λ line, py_strip line ≠ []) (splitlines output).

(** ** gitsafe/hooks/installer.py *)

Definition _HOOK_MARKER : pystr := py "# gitsafe-hook".

Definition _HOOK_SCRIPT : pystr :=
  py "#!/bin/sh" ++ [LF]
  ++ _HOOK_MARKER ++ [LF]
  ++ py "# Installed by gitsafe " ++ [8212%N] ++ py " https://github.com/gitsafe/gitsafe" ++ [LF]
  ++ py "# To uninstall: gitsafe uninstall" ++ [LF]
  ++ [LF]
  ++ py "exec gitsafe scan" ++ [LF].

(** What the installer reads and writes of the repository: whether [.git]
    is a directory, whether [.git/hooks] exists, and the file
    [.git/hooks/pre-commit]: its text when it exists, and whether it is
    executable. *)
Record HookDir := {
  git_dir : bool;
  hooks_dir : bool;
  pre_commit : option pystr;
  executable : bool;
}.

Section Installer.
(** [str(repo_root)] and [str(hook_path)], and whether [chmod] raises
    [OSError] on this system. *)
Variables (repo_root hook_path : pystr) (chmod_fails : bool).

Definition install_hook (fs : HookDir) (force : bool) : HookDir * (bool * pystr) :=
  if negb (git_dir fs) then
    (fs, (false, py "Not a git repository: " ++ repo_root))
  else
    let made := {| git_dir := true; hooks_dir := true;
                   pre_commit := pre_commit fs; executable := executable fs |} in
    let written :=
      ({| git_dir := true; hooks_dir := true;
          pre_commit := Some _HOOK_SCRIPT;
          executable :=
            if chmod_fails then
              match pre_commit fs with Some _ => executable fs | None => false end
            else true |},
       (true, py "Installed gitsafe pre-commit hook at " ++ hook_path)) in
    match pre_commit fs with
    | Some content =>
        if contains content _HOOK_MARKER then
          (made, (true, py "gitsafe hook is already installed."))
        else if negb force then
          (made, (false,
                  py "A pre-commit hook already exists at " ++ hook_path
                  ++ py ". Use --force to overwrite, or manually add 'gitsafe scan' to it."))
        else written
    | None => written
    end.

Definition uninstall_hook (fs : HookDir) : HookDir * (bool * pystr) :=
  match pre_commit fs with
  | None =>
      (fs, (true, py "No pre-commit hook found " ++ [8212%N] ++ py " nothing to remove."))
  | Some content =>
      if negb (contains content _HOOK_MARKER) then
        (fs, (false, py "Pre-commit hook exists but was not installed by gitsafe."))
      else
        ({| git_dir := git_dir fs; hooks_dir := hooks_dir fs;
            pre_commit := None; executable := false |},
         (true, py "Removed gitsafe pre-commit hook from " ++ hook_path))
  end.
End Installer.

(** ** A runtime to run the model on

    ASCII digits only; an [re] that knows literal patterns: a pattern of
    ASCII letters, digits, spaces, [_] and [-] compiles to the substring
    search it is in Python (ASCII case folding under [IGNORECASE]), the
    pattern ["("] is rejected as Python rejects it, with [re.error], the
    pattern ["a{4294967296}"] with [OverflowError], and every other pattern
    is outside of this runtime and rejected too; [int] with the limit of
    4300 digits that the interpreter starts with; an [fnmatch] for patterns
    of literal characters, [*] and [?]; the last component of a relative
    path without a trailing slash for [Path(p).name]. Entropy arithmetic
    is not modelled: a token is scored by the number of its distinct
    characters, and the inputs below run with entropy detection disabled. *)

Definition ascii_decimal (c : N) : option Z :=
  if ((48 <=? c) && (c <=? 57))%N then Some (Z.of_N c - 48) else None.

Definition ascii_lower (c : N) : N :=
  if ((65 <=? c) && (c <=? 90))%N then (c + 32)%N else c.

Definition literal_char (c : N) : bool :=
  ascii_alnum c || (c =? 32)%N || (c =? chr "_")%N || (c =? chr "-")%N.

Definition literal_compile (p : pystr) (ignorecase : bool) : pystr * bool + pystr :=
  if forallb literal_char p then inl (p, ignorecase)
  else if bool_decide (p = py "a{4294967296}") then inr (py "OverflowError")
  else inr (py "re.error").

Fixpoint literal_find (fold : N → N) (p : pystr) (s : pystr) : option pystr :=
  if startswith (fold <$> s) (fold <$> p) then Some (take (length p) s)
  else match s with
       | [] => None
       | _ :: s' => literal_find fold p s'
       end.

Definition literal_search (cp : pystr * bool) (s : pystr) : option Match :=
  (λ g, {| m_group0 := g; m_secret := None |})
    <$> literal_find (if cp.2 then ascii_lower else (λ c, c)) cp.1 s.

Fixpoint glob_star (k : pystr → bool) (s : pystr) : bool :=
  k s || match s with [] => false | _ :: s' => glob_star k s' end.

Fixpoint glob (pat : pystr) (s : pystr) : bool :=
  match pat with
  | [] => bool_decide (s = [])
  | c :: pat' =>
      if (c =? chr "*")%N then glob_star (glob pat') s
      else match s with
           | [] => false
           | d :: s' => ((c =? chr "?") || (c =? d))%N && glob pat' s'
           end
  end.

Fixpoint last_component (cur : pystr) (p : pystr) : pystr :=
  match p with
  | [] => rev cur
  | c :: p' => if (c =? chr "/")%N then last_component [] p'
               else last_component (c :: cur) p'
  end.

Definition literal_runtime : PyRuntime := {|
  py_decimal := ascii_decimal;
  int_max_str_digits := 4300;
  Pattern := pystr * bool;
  re_compile := literal_compile;
  re_search := literal_search;
  fnmatch name pat := glob pat name;
  path_name := last_component [];
  pyfloat := Z;
  shannon_entropy s := Z.of_nat (length (remove_dups s));
  float_ge a b := b <=? a;
  format_2f := str_of_Z;
|}.

(** A diff text from its lines, each ended by a line feed. *)
Definition text (ls : list pystr) : pystr :=
  concat ((λ l, l ++ [LF]) <$> ls).

(** ** Vocabulary of the properties

    Definitions that the statements below use and the source does not
    contain: classifications of diff lines, and the readings of the
    specification that the code is compared with. *)

(** The first character of every match of a pattern that begins with a
    literal. *)
Definition first_char (r : re) : option N :=
  match r with
  | Lit (a :: _) => Some a
  | Cat (Lit (a :: _)) _ => Some a
  | _ => None
  end.

Section ParserVocabulary.
Context `{PyRuntime}.

(** [newStart] of a hunk header, as [parse] reads it: the value that
    [int] returns for it. *)
Definition hunk_start (raw_line : pystr) : option Z :=
  re_match HUNK_HEADER_RE raw_line ≫= λ hm, py_int (default [] (group hm 3)).

(** The items that [list(parser.parse())] returns, and no item when it
    raises. *)
Definition parse_items (diff_text : pystr) : list DiffItem :=
  default [] (parse diff_text).

(** A hunk header on whose [newStart] [int] raises [ValueError]. *)
Definition hunk_overflow (raw_line : pystr) : bool :=
  match re_match HUNK_HEADER_RE raw_line with
  | Some hm =>
      match py_int (default [] (group hm 3)) with Some _ => false | None => true end
  | None => false
  end.

(** A line that the sub-header loop consumes. *)
Definition is_sub_header (sub : pystr) : bool :=
  matches INDEX_RE sub || matches SIMILARITY_RE sub || matches OLD_MODE_RE sub
  || matches NEW_MODE_RE sub || matches DELETED_FILE_RE sub || matches NEW_FILE_RE sub
  || matches RENAME_FROM_RE sub || matches RENAME_TO_RE sub || matches BINARY_RE sub.

(** A [+] content line: it starts with [+] and is neither a [+++] file
    header nor a submodule pointer. *)
Definition is_added (raw_line : pystr) : bool :=
  startswith raw_line (py "+") && negb (matches FILE_HEADER_NEW raw_line)
  && negb (matches SUBPROJECT_RE raw_line).

(** A context line. *)
Definition is_context (raw_line : pystr) : bool := startswith raw_line (py " ").

(** Neither a [diff --git] line nor a hunk header. *)
Definition is_plain (raw_line : pystr) : bool :=
  negb (matches DIFF_HEADER_RE raw_line) && negb (matches HUNK_HEADER_RE raw_line).

(** The numbering of the lines of a hunk as the specification words it:
    from the counter [n] on, each [+] content line is emitted with the
    counter, which then moves on by one; a context line moves it on by one;
    no other line moves it. *)
Fixpoint number_lines (file : pystr) (n : Z) (lines : list pystr) : list DiffItem :=
  match lines with
  | [] => []
  | raw_line :: rest =>
      if is_added raw_line then
        ItLine {| dl_file := file; dl_line_no := n;
                  dl_content := _strip_bom (drop 1 raw_line); dl_line_type := ADDED |}
        :: number_lines file (n + 1) rest
      else if is_context raw_line then number_lines file (n + 1) rest
      else number_lines file n rest
  end.

(** The value of the counter after those lines. *)
Definition counter_after (n : Z) (lines : list pystr) : Z :=
  n + Z.of_nat (length (filter (λ l, is_added l || is_context l = true) lines)).

(** Every hunk header of [lines] has [newStart >= 1], and no [+] content
    line of [lines] comes before the first hunk header ([started]: a hunk
    header has been seen). *)
Fixpoint numbered (started : bool) (lines : list pystr) : bool :=
  match lines with
  | [] => true
  | raw_line :: rest =>
      match hunk_start raw_line with
      | Some c => (1 <=? c) && numbered true rest
      | None => (started || negb (is_added raw_line)) && numbered started rest
      end
  end.

(** The specification's BOM rule, read literally: one leading U+FEFF is
    removed, once. *)
Definition strip_one_bom (content : pystr) : pystr :=
  match content with
  | c :: content' => if (c =? BOM)%N then content' else content
  | [] => []
  end.

(** The state with the hunk buffer emptied. *)
Definition flushed (st : PState) : PState :=
  {| current_file := current_file st; old_file := old_file st;
     line_no := line_no st; hunk_buffer := [] |}.

End ParserVocabulary.

Section AggregatorVocabulary.
Context `{PyRuntime}.

(** The loop of [deduplicate], from any state of [(merged, counter)]. *)
Definition dedup_loop (fail_on : pystr) (raws : list RawFinding)
    (acc : list (dedup_key * Finding) * Z) : list (dedup_key * Finding) * Z :=
  fold_left (dedup_step fail_on) raws acc.

(** The largest ordinal among the severities of the raw findings of key
    [k] (0 when there is none). *)
Fixpoint max_severity_order (k : dedup_key) (raws : list RawFinding) : Z :=
  match raws with
  | [] => 0
  | raw :: rest =>
      if bool_decide (raw_key raw = k)
      then Z.max (SEVERITY_ORDER (rf_severity raw)) (max_severity_order k rest)
      else max_severity_order k rest
  end.

(** The first raw finding of key [k]. *)
Fixpoint first_of_key (k : dedup_key) (raws : list RawFinding) : option RawFinding :=
  match raws with
  | [] => None
  | raw :: rest => if bool_decide (raw_key raw = k) then Some raw else first_of_key k rest
  end.

End AggregatorVocabulary.

Section EngineVocabulary.
Context `{PyRuntime}.

(** The message of the specification, read literally. *)
Definition spec_scan_error_message (n : nat) : pystr :=
  py "Internal scanner error after " ++ str_of_Z (Z.of_nat n)
  ++ py " findings; secrets scrubbed.".

(** The value that a string of ASCII digits denotes, read after [a]. *)
Definition read_decimal (a : N) (s : pystr) : N :=
  fold_left (λ a c, a * 10 + (c - 48))%N s a.

(** [config] with another global allowlist. *)
Definition with_allowlist (config : GitSafeConfig) (ps : list pystr) : GitSafeConfig :=
  {| cfg_scan := cfg_scan config; cfg_entropy := cfg_entropy config;
     cfg_ignore := cfg_ignore config; cfg_allowlist := {| patterns := ps |};
     cfg_ci := cfg_ci config |}.

(** The path is ignored by the configuration or by the ignore file. *)
Definition ignored_path (config : GitSafeConfig) (ignorefile : GitSafeIgnore)
    (path : pystr) : bool :=
  existsb (λ g, fnmatch path g) (ignore_globs config)
  || is_ignored ignorefile path None.

(** The first item of the stream that concerns [path] is its [FileEnter]:
    no line of [path] comes before it. *)
Fixpoint entered_first (path : pystr) (items : list DiffItem) : bool :=
  match items with
  | [] => true
  | ItFile df :: rest => bool_decide (df_path df = path) || entered_first path rest
  | ItLine dl :: rest => negb (bool_decide (dl_file dl = path)) && entered_first path rest
  | ItSkipped _ :: rest => entered_first path rest
  end.

(** Nothing in the state is about [path]. *)
Definition clean (path : pystr) (st : ScanState) : Prop :=
  (∀ raw, raw ∈ raw_findings st → rf_file raw ≠ path)
  ∧ (∀ sup, sup ∈ suppressions st → sup_file sup ≠ path)
  ∧ path ∉ scanned_files_set st.

(** The rules and the entropy analyser see the same on the two contents. *)
Definition same_matches (config : GitSafeConfig) (registry : list Rule)
    (content content' : pystr) : Prop :=
  (∀ rule cp, rule ∈ content_rules registry → compiled_pattern rule = Ok (Some cp) →
              re_search cp content' = re_search cp content)
  ∧ (ent_enabled (cfg_entropy config) = true →
     find_high_entropy content' (ent_min_entropy (cfg_entropy config))
       (ent_min_length (cfg_entropy config))
     = find_high_entropy content (ent_min_entropy (cfg_entropy config))
         (ent_min_length (cfg_entropy config))).

(** Two items of two parsed diffs that differ at most in the content of an
    added line, the rules seeing the same on both contents (as when an
    inline suppression marker is appended to the line). *)
Definition same_matches_item (config : GitSafeConfig) (registry : list Rule)
    (item item' : DiffItem) : Prop :=
  item' = item
  ∨ ∃ dl dl', item = ItLine dl ∧ item' = ItLine dl'
              ∧ dl_file dl' = dl_file dl ∧ dl_line_no dl' = dl_line_no dl
              ∧ dl_line_type dl' = dl_line_type dl
              ∧ same_matches config registry (dl_content dl) (dl_content dl').

(** From [st] to [st'] raw findings and suppressions were added for [file]
    only, and the two sets of files are as they were. *)
Definition grows_on (file : pystr) (st st' : ScanState) : Prop :=
  (∀ raw, raw ∈ raw_findings st' → raw ∈ raw_findings st ∨ rf_file raw = file)
  ∧ (∀ sup, sup ∈ suppressions st' → sup ∈ suppressions st ∨ sup_file sup = file)
  ∧ scanned_files_set st' = scanned_files_set st
  ∧ ignored_files_set st' = ignored_files_set st.

(** The state [st] of one run covers the state [st'] of another: the same
    files, and every raw finding and suppression of [st'] is one of [st]. *)
Definition covers (st st' : ScanState) : Prop :=
  raw_findings st' ⊆ raw_findings st
  ∧ suppressions st' ⊆ suppressions st
  ∧ skipped st' = skipped st
  ∧ scanned_files_set st' = scanned_files_set st
  ∧ ignored_files_set st' = ignored_files_set st.

(** The two states hold as many raw findings and suppressions together,
    and the same files. *)
Definition same_total (st st' : ScanState) : Prop :=
  (length (raw_findings st) + length (suppressions st)
   = length (raw_findings st') + length (suppressions st'))%nat
  ∧ skipped st' = skipped st
  ∧ scanned_files_set st' = scanned_files_set st
  ∧ ignored_files_set st' = ignored_files_set st.

End EngineVocabulary.

(** Rules and configurations to run the model with, on [literal_runtime]. *)
Section RunInputs.
#[local] Existing Instance literal_runtime.

(** A content rule with a literal pattern. *)
Definition literal_rule (rule_id sev pat : string) : Rule :=
  {| id := py rule_id; name := py rule_id; description := py "";
     category := py "secret"; severity := py sev;
     pattern := Some (py pat); file_patterns := None;
     min_entropy := None; min_length := None;
     allowlist_patterns := None; enabled := true |}.

(** A configuration with [fail_on = "high"], entropy detection off and no
    circuit breaker. *)
Definition plain_config (exit_early : bool) (allow : list pystr)
    (ignore_files : list pystr) : GitSafeConfig :=
  {| cfg_scan := {| fail_on := py "high"; early_exit := exit_early |};
     cfg_entropy := {| ent_enabled := false; ent_min_entropy := 4; ent_min_length := 16 |};
     cfg_ignore := {| ig_files := ignore_files; ig_rules := []; ig_paths := [] |};
     cfg_allowlist := {| patterns := allow |};
     cfg_ci := {| max_findings := None |} |}.

(** A raw finding of rule [R] at line 1 of file [f]. *)
Definition raw_of_severity (sev : string) : RawFinding :=
  {| rf_rule_id := py "R"; rf_rule_name := py "R"; rf_severity := py sev;
     rf_category := py "secret"; rf_file := py "f"; rf_line_no := 1;
     rf_matched_value := Some (py "value"); rf_description := py "";
     rf_detection_method := py "regex"; rf_entropy_value := None;
     rf_commit := None |}.

End RunInputs.

(** ** Vocabulary of the further properties *)

(** Every line of the stream comes after a [DiffFile] or [FileSkipped] of
    its own path, with no item of another file in between; [cur] is the
    path of the latest such item. *)
Fixpoint attributed (cur : option pystr) (items : list DiffItem) : bool :=
  match items with
  | [] => true
  | ItLine dl :: rest => bool_decide (cur = Some (dl_file dl)) && attributed cur rest
  | ItFile df :: rest => attributed (Some (df_path df)) rest
  | ItSkipped sk :: rest => attributed (Some (fs_path sk)) rest
  end.

(** A [DiffFile] or a [FileSkipped]. *)
Definition is_file_item (item : DiffItem) : bool :=
  match item with ItLine _ => false | _ => true end.

(** No character of the line is a line boundary. *)
Definition no_linebreak (l : pystr) : bool := forallb (λ c, negb (is_linebreak c)) l.

(** A text from its lines, each ended by a line feed or by a carriage
    return and a line feed. *)
Definition join_lines (ls : list (pystr * bool)) : pystr :=
  concat ((λ l : pystr * bool, l.1 ++ (if l.2 then [CR; LF] else [LF])) <$> ls).

(** The line [diff --git a/X b/Y]. *)
Definition diff_header (X Y : pystr) : pystr :=
  py "diff --git a/" ++ X ++ py " b/" ++ Y.

(** A character of a rule identifier: an ASCII letter, a digit or [_]. *)
Definition ident_char (c : N) : bool := ascii_alnum c || (c =? chr "_")%N.

(** [sep.join(parts)] for a one-character separator. *)
Fixpoint join_on (sep : N) (parts : list pystr) : pystr :=
  match parts with
  | [] => []
  | [p] => p
  | p :: rest => p ++ sep :: join_on sep rest
  end.

(** The record that [is_suppressed] returns for an entry [(True, ids)]. *)
Definition inline_record (file : pystr) (line_no : Z) (rule_id : pystr)
    (ids : option (gset pystr)) : option Suppression :=
  match ids with
  | None =>
      Some {| sup_rule_id := rule_id; sup_file := file; sup_line_no := line_no;
              sup_reason := py "inline"; sup_source := py "#gitsafe-ignore" |}
  | Some s =>
      if bool_decide (rule_id ∈ s) then
        Some {| sup_rule_id := rule_id; sup_file := file; sup_line_no := line_no;
                sup_reason := py "inline";
                sup_source := py "#gitsafe-ignore[" ++ rule_id ++ py "]" |}
      else None
  end.

(** The two keywords of a marker. *)
Definition marker_keyword (kw : pystr) : Prop :=
  kw = py "gitsafe-ignore" ∨ kw = py "nosec".

Section AggregatorOrder.
Context `{PyRuntime}.

(** The raw findings of key [k], in order. *)
Definition of_key (k : dedup_key) (raws : list RawFinding) : list RawFinding :=
  filter (λ raw, raw_key raw = k) raws.

(** The keys of a list, each at its first occurrence. *)
Fixpoint first_occurrences (seen : list dedup_key) (ks : list dedup_key) : list dedup_key :=
  match ks with
  | [] => []
  | k :: rest =>
      if bool_decide (k ∈ seen) then first_occurrences seen rest
      else k :: first_occurrences (seen ++ [k]) rest
  end.

(** The last entropy value that a list of raw findings carries, [v] when
    there is none. *)
Definition last_entropy (v : option pyfloat) (raws : list RawFinding) : option pyfloat :=
  fold_left (λ v raw, match rf_entropy_value raw with Some e => Some e | None => v end) raws v.

End AggregatorOrder.



Section EngineProvenance.
Context `{PyRuntime}.

(** What can stand behind a finding of rule [rule_id] at line [line_no]:
    an enabled file rule (line 0), an enabled rule with a pattern that is
    neither a file rule nor an entropy rule, or the entropy detector. *)
Definition reported_by (config : GitSafeConfig) (registry : list Rule)
    (rule_id : pystr) (line_no : Z) : Prop :=
  (∃ rule, rule ∈ registry ∧ enabled rule = true ∧ id rule = rule_id
           ∧ ((is_file_rule rule = true ∧ line_no = 0)
              ∨ (is_file_rule rule = false ∧ is_entropy_rule rule = false
                 ∧ pattern rule ≠ None)))
  ∨ (ent_enabled (cfg_entropy config) = true ∧ rule_id = HIGH_ENTROPY_STRING).

(** Every raw finding of a state has such a source. *)
Definition sourced (config : GitSafeConfig) (registry : list Rule) (st : ScanState) : Prop :=
  ∀ raw, raw ∈ raw_findings st →
         reported_by config registry (rf_rule_id raw) (rf_line_no raw).

End EngineProvenance.

Section RegistryVocabulary.
Context `{PyRuntime}.

(** A pattern of the rule matches the path or its last component. *)
Definition matches_file (rule : Rule) (filepath : pystr) : bool :=
  existsb (λ pat, fnmatch (path_name filepath) pat || fnmatch filepath pat)
    (default [] (file_patterns rule)).

(** The raw finding that the engine records for a file rule. *)
Definition file_finding (filepath : pystr) (rule : Rule) : RawFinding :=
  {| rf_rule_id := id rule; rf_rule_name := name rule; rf_severity := severity rule;
     rf_category := category rule; rf_file := filepath; rf_line_no := 0;
     rf_matched_value := Some (path_name filepath); rf_description := description rule;
     rf_detection_method := py "file_pattern"; rf_entropy_value := None;
     rf_commit := None |}.

(** The rule's own allowlist matches the last component of the path. *)
Definition allowlisted (rule : Rule) (filepath : pystr) : bool :=
  match _match_rule_allowlist (Some (path_name filepath)) rule with
  | Ok b => b
  | Err _ => false
  end.

End RegistryVocabulary.

(** A line [-<TAB>-<TAB>name] of [git diff --numstat]. *)
Definition numstat_binary (name : pystr) : pystr := [45; TAB; 45; TAB]%N ++ name.

(** Rules of the two other kinds, to run the model with. *)
Section RunRules.
#[local] Existing Instance literal_runtime.

(** A file rule for [*.pem] files. *)
Definition pem_rule : Rule :=
  {| id := py "PEM_FILE"; name := py "Private key file"; description := [];
     category := py "file"; severity := py "high";
     pattern := None; file_patterns := Some [py "*.pem"];
     min_entropy := None; min_length := None;
     allowlist_patterns := None; enabled := true |}.

(** A rule with [min_entropy] set, as the built-in [HIGH_ENTROPY_STRING]. *)
Definition entropy_rule : Rule :=
  {| id := py "HIGH_ENTROPY_STRING"; name := py "High entropy string";
     description := []; category := py "secret"; severity := py "medium";
     pattern := Some (py "error"); file_patterns := None;
     min_entropy := Some 4; min_length := Some 16;
     allowlist_patterns := None; enabled := true |}.

End RunRules.

(** * Properties of the pipeline *)

(** ** The parser: termination and unfolding *)

Section ParserFacts.
Context `{PyRuntime}.

Lemma sub_headers_length lines old cur fl :
  (length (sub_headers lines old cur fl).2 ≤ length lines)%nat.
Proof.
  revert old cur fl. induction lines as [|sub rest IH]; intros old cur fl; simpl; [lia|].
  repeat case_match; simpl; try lia;
    match goal with |- (length (sub_headers rest ?o ?c ?f).2 ≤ _)%nat =>
      specialize (IH o c f); lia end.
Qed.

Lemma parse_iter_length raw_line rest st r :
  parse_iter raw_line rest st = Some r → (length r.1.2 ≤ length rest)%nat.
Proof.
  unfold parse_iter. intros Hr. repeat case_match; simplify_eq/=; try lia.
  match goal with Hs : sub_headers rest ?o ?c ?f = _ |- _ =>
    pose proof (sub_headers_length rest o c f) as Hl; rewrite Hs in Hl; simpl in Hl; lia end.
Qed.

(** Any fuel above the number of lines gives the same result. *)
Lemma parse_loop_fuel f1 : ∀ f2 lines st,
  (length lines < f1)%nat → (length lines < f2)%nat →
  parse_loop f1 lines st = parse_loop f2 lines st.
Proof.
  induction f1 as [|f1 IH]; intros f2 lines st H1 H2; [lia|].
  destruct f2 as [|f2]; [lia|]. simpl.
  destruct lines as [|raw_line rest]; [done|].
  destruct (parse_iter raw_line rest st) as [[[evs lines'] st']|] eqn:E; [|done].
  pose proof (parse_iter_length _ _ _ _ E) as Hl. simpl in *.
  rewrite (IH f2); [done|lia|lia].
Qed.

Lemma parse_from_nil st : parse_from [] st = Some (flush (hunk_buffer st)).
Proof. reflexivity. Qed.

Lemma parse_loop_S_cons f raw_line rest st :
  parse_loop (S f) (raw_line :: rest) st =
  match parse_iter raw_line rest st with
  | Some r => (λ tl, r.1.1 ++ tl) <$> parse_loop f r.1.2 r.2
  | None => None
  end.
Proof. simpl. by destruct (parse_iter raw_line rest st) as [[[evs lines'] st']|]. Qed.

(** One unfolding of the loop, free of fuel. *)
Lemma parse_from_cons raw_line rest st :
  parse_from (raw_line :: rest) st =
  match parse_iter raw_line rest st with
  | Some r => (λ tl, r.1.1 ++ tl) <$> parse_from r.1.2 r.2
  | None => None
  end.
Proof.
  unfold parse_from. change (S (length (raw_line :: rest))) with (S (S (length rest))).
  rewrite parse_loop_S_cons.
  destruct (parse_iter raw_line rest st) as [r|] eqn:E; [|done].
  pose proof (parse_iter_length _ _ _ _ E) as Hl.
  rewrite (parse_loop_fuel (S (length rest)) (S (length r.1.2))); [done|lia|lia].
Qed.

(** [parse_items] is what [list(parser.parse())] returns, when it returns. *)
Lemma parse_items_Some diff_text items :
  parse diff_text = Some items → parse_items diff_text = items.
Proof. unfold parse_items. by intros ->. Qed.

Lemma parse_items_None diff_text : parse diff_text = None → parse_items diff_text = [].
Proof. unfold parse_items. by intros ->. Qed.

Lemma parse_iter_flushed raw_line rest st :
  match parse_iter raw_line rest st, parse_iter raw_line rest (flushed st) with
  | Some r, Some r0 =>
      r.1.2 = r0.1.2 ∧ flushed r.2 = flushed r0.2 ∧
      r.1.1 ++ flush (hunk_buffer r.2)
      = flush (hunk_buffer st) ++ r0.1.1 ++ flush (hunk_buffer r0.2)
  | None, None => True
  | _, _ => False
  end.
Proof.
  destruct st as [cf od ln buf]. unfold parse_iter, flushed, flush. simpl.
  repeat case_match; simplify_eq/=; rewrite ?fmap_app, ?app_nil_r; done.
Qed.

(** Buffering does not change what is yielded: the buffered lines come
    out first. *)
Lemma parse_loop_buffer f : ∀ lines st,
  parse_loop f lines st =
  (λ tl, flush (hunk_buffer st) ++ tl) <$> parse_loop f lines (flushed st).
Proof.
  induction f as [|f IH]; intros lines st; [done|]. simpl.
  destruct lines as [|raw_line rest]; [simpl; by rewrite app_nil_r|].
  pose proof (parse_iter_flushed raw_line rest st) as Hfl.
  destruct (parse_iter raw_line rest st) as [[[evs lines'] st']|];
    destruct (parse_iter raw_line rest (flushed st)) as [[[evs0 lines0] st0]|];
    try done.
  destruct Hfl as (Hl & Hst & Hev). simpl in *. subst lines0.
  rewrite (IH lines' st'), (IH lines' st0), Hst.
  destruct (parse_loop f lines' (flushed st0)) as [tl|]; simpl; [|done].
  f_equal. rewrite !app_assoc. f_equal. rewrite Hev. by rewrite !app_assoc.
Qed.

Lemma parse_from_buffer lines st :
  parse_from lines st =
  (λ tl, flush (hunk_buffer st) ++ tl) <$> parse_from lines (flushed st).
Proof. apply parse_loop_buffer. Qed.

End ParserFacts.

(** ** The parser: one iteration, line by line *)

Lemma rmatch_first_char {A} r s m (k : pystr → captures → option A) x a :
  first_char r = Some a → rmatch r s m k = Some x → ∃ s', s = a :: s'.
Proof.
  intros Hf Hm.
  assert (∀ l, startswith s (a :: l) = true → ∃ s', s = a :: s') as Hs.
  { intros l. destruct s as [|d s']; simpl; [done|].
    destruct (N.eqb_spec a d); [subst; eauto|done]. }
  destruct r as [[|b l]| | | |r1 r2| | | |]; simpl in Hf; try done.
  - simplify_eq. cbn [rmatch] in Hm.
    destruct (startswith s (a :: l)) eqn:E; [eauto|done].
  - destruct r1 as [[|b l]| | | | | | | |]; try done. simplify_eq.
    cbn [rmatch] in Hm. destruct (startswith s (a :: l)) eqn:E; [eauto|done].
Qed.

(** Settles the pattern tests that the first character of the line decides. *)
Ltac head_decides :=
  repeat match goal with
    | |- context [re_match ?r (?c :: ?s)] =>
        progress change (re_match r (c :: s)) with (@None captures)
    | |- context [matches ?r (?c :: ?s)] =>
        progress change (matches r (c :: s)) with false
    | |- context [startswith (?c :: ?s) (py ?l)] =>
        first [ progress change (startswith (c :: s) (py l)) with false
              | progress change (startswith (c :: s) (py l)) with true ]
    end.

Section ParserSteps.
Context `{PyRuntime}.

Lemma matches_first_char r raw_line a :
  first_char r = Some a → matches r raw_line = true → ∃ s', raw_line = a :: s'.
Proof.
  unfold matches, re_match. intros Hf Hm.
  destruct (rmatch r raw_line [] _) eqn:E; [|done].
  eapply rmatch_first_char; eauto.
Qed.

Lemma matches_None r raw_line :
  matches r raw_line = false ↔ re_match r raw_line = None.
Proof. unfold matches. by destruct (re_match r raw_line). Qed.

Lemma startswith_cons raw_line a :
  startswith raw_line [a] = true → ∃ s', raw_line = a :: s'.
Proof.
  destruct raw_line as [|d s']; simpl; [done|].
  destruct (N.eqb_spec a d); [subst; eauto|done].
Qed.

(** A sub-header is neither a hunk header nor a [+] line. *)
Lemma sub_header_not_hunk sub :
  is_sub_header sub = true → hunk_start sub = None ∧ startswith sub (py "+") = false.
Proof.
  unfold is_sub_header, hunk_start. intros Hs.
  repeat (apply orb_true_iff in Hs as [Hs|Hs]);
    (eapply matches_first_char in Hs as [s' ->]; [|reflexivity]);
    split; reflexivity.
Qed.

Lemma sub_header_no_overflow sub : is_sub_header sub = true → hunk_overflow sub = false.
Proof.
  unfold is_sub_header, hunk_overflow. intros Hs.
  repeat (apply orb_true_iff in Hs as [Hs|Hs]);
    (eapply matches_first_char in Hs as [s' ->]; [|reflexivity]); reflexivity.
Qed.

(** The three kinds of lines, as to hunk headers: a hunk header whose
    [newStart] [int] converts, one on which [int] raises, and the lines
    that are no hunk headers. *)
Lemma hunk_cases raw_line :
  (∃ c, hunk_start raw_line = Some c ∧ hunk_overflow raw_line = false)
  ∨ (hunk_start raw_line = None ∧ hunk_overflow raw_line = true)
  ∨ (re_match HUNK_HEADER_RE raw_line = None ∧ hunk_start raw_line = None
     ∧ hunk_overflow raw_line = false).
Proof.
  unfold hunk_start, hunk_overflow.
  destruct (re_match HUNK_HEADER_RE raw_line) as [hm|]; [|by right; right].
  cbn [mbind option_bind].
  destruct (py_int _) as [c|]; [left; by exists c|right; by left].
Qed.

(** A hunk header sets the counter and flushes the buffer. *)
Lemma parse_iter_hunk raw_line c rest st :
  hunk_start raw_line = Some c →
  parse_iter raw_line rest st =
  Some (flush (hunk_buffer st), rest,
        {| current_file := current_file st; old_file := old_file st;
           line_no := c; hunk_buffer := [] |}).
Proof.
  unfold hunk_start. intros Hh.
  destruct (re_match HUNK_HEADER_RE raw_line) as [hm|] eqn:E; [|done].
  cbn [mbind option_bind] in Hh.
  assert (∃ s', raw_line = 64%N :: s') as [s' ->].
  { eapply (matches_first_char HUNK_HEADER_RE); [done|]. unfold matches. by rewrite E. }
  unfold parse_iter. rewrite E, Hh. done.
Qed.

(** A hunk header on whose [newStart] [int] raises ends the parse: the
    iteration raises, and only such a line makes it raise. *)
Lemma parse_iter_raises raw_line rest st :
  parse_iter raw_line rest st = None ↔ hunk_overflow raw_line = true.
Proof.
  unfold hunk_overflow. split.
  - unfold parse_iter. intros Hp. repeat case_match; simplify_eq/=; done.
  - intros Ho.
    destruct (re_match HUNK_HEADER_RE raw_line) as [hm|] eqn:E; [|done].
    destruct (py_int (default [] (group hm 3))) as [c|] eqn:Ei; [done|].
    assert (∃ s', raw_line = 64%N :: s') as [s' ->].
    { eapply (matches_first_char HUNK_HEADER_RE); [done|]. unfold matches. by rewrite E. }
    unfold parse_iter. rewrite E, Ei. done.
Qed.

(** A [+] content line is buffered under the counter, which moves on. *)
Lemma parse_iter_added raw_line file rest st :
  current_file st = Some file → is_added raw_line = true →
  parse_iter raw_line rest st =
  Some ([], rest,
        {| current_file := Some file; old_file := old_file st; line_no := line_no st + 1;
           hunk_buffer := hunk_buffer st ++
             [{| dl_file := file; dl_line_no := line_no st;
                 dl_content := _strip_bom (drop 1 raw_line); dl_line_type := ADDED |}] |}).
Proof.
  unfold is_added. intros Hf Ha.
  apply andb_true_iff in Ha as [Ha Hsub]. apply andb_true_iff in Ha as [Hp Hnew].
  apply negb_true_iff in Hsub, Hnew.
  apply (startswith_cons _ 43%N) in Hp as [s' ->].
  unfold parse_iter. rewrite Hnew, Hsub, Hf. head_decides. done.
Qed.

(** Any other line that is neither a [diff --git] line nor a hunk header
    yields nothing and moves the counter only if it is a context line. *)
Lemma parse_iter_other raw_line file rest st :
  current_file st = Some file → is_plain raw_line = true → is_added raw_line = false →
  parse_iter raw_line rest st =
  Some ([], rest,
        {| current_file := Some file; old_file := old_file st;
           line_no := if is_context raw_line then line_no st + 1 else line_no st;
           hunk_buffer := hunk_buffer st |}).
Proof.
  unfold is_plain, is_added, is_context. intros Hf Hpl Ha.
  apply andb_true_iff in Hpl as [Hd Hh].
  apply negb_true_iff in Hd, Hh. apply matches_None in Hd, Hh.
  destruct st as [cf od ln buf]. cbn [current_file old_file line_no hunk_buffer] in *.
  subst cf. unfold parse_iter. rewrite Hd, Hh.
  cbn [current_file old_file line_no hunk_buffer].
  destruct (matches FILE_HEADER_OLD raw_line) eqn:Eo.
  { eapply matches_first_char in Eo as [s' ->]; [|reflexivity]. by head_decides. }
  destruct (matches FILE_HEADER_NEW raw_line) eqn:En.
  { eapply matches_first_char in En as [s' ->]; [|reflexivity]. by head_decides. }
  cbn [orb].
  destruct (startswith raw_line (py " ")) eqn:Ec.
  { apply (startswith_cons _ 32%N) in Ec as [s' ->]. by head_decides. }
  destruct (matches SUBPROJECT_RE raw_line) eqn:Es; [done|].
  destruct (matches NO_NEWLINE_RE raw_line) eqn:Enn; [done|].
  cbn [negb] in Ha. rewrite !andb_true_r in Ha. rewrite Ha.
  by destruct (startswith raw_line (py "-")).
Qed.

(** A [diff --git] line opens a block: the buffer is flushed, the
    sub-headers are consumed and the block's metadata item is yielded. *)
Lemma parse_iter_header raw_line m rest st :
  re_match DIFF_HEADER_RE raw_line = Some m →
  parse_iter raw_line rest st =
  let r := sub_headers rest (default [] (group m 1)) (default [] (group m 2)) no_flags in
  Some (flush (hunk_buffer st) ++ [file_event r.1.1.1 r.1.1.2 r.1.2 r.2], r.2,
        {| current_file := Some r.1.1.2; old_file := Some r.1.1.1;
           line_no := line_no st; hunk_buffer := [] |}).
Proof.
  intros Hm. unfold parse_iter. rewrite Hm.
  by destruct (sub_headers rest _ _ no_flags) as [[[old cur] fl] rest'].
Qed.

End ParserSteps.

(** ** The parser: hunks, added lines and the BOM *)

Section ParserHunks.
Context `{PyRuntime}.

Lemma counter_after_cons n raw_line lines :
  counter_after n (raw_line :: lines) =
  counter_after (if is_added raw_line || is_context raw_line then n + 1 else n) lines.
Proof.
  unfold counter_after. rewrite filter_cons.
  destruct (is_added raw_line || is_context raw_line) eqn:E.
  - rewrite decide_True by done. simpl length. lia.
  - rewrite decide_False by done. lia.
Qed.

Lemma is_added_not_context raw_line : is_added raw_line = true → is_context raw_line = false.
Proof.
  unfold is_added, is_context. intros Ha.
  apply andb_true_iff in Ha as [Ha _]. apply andb_true_iff in Ha as [Hp _].
  apply (startswith_cons _ 43%N) in Hp as [s' ->]. done.
Qed.

(** The lines of a hunk, from a state with an empty buffer: what is yielded
    is the numbering [number_lines], and the counter ends at
    [counter_after]. *)
Lemma parse_from_hunk_lines mid : ∀ file st rest,
  current_file st = Some file → hunk_buffer st = [] →
  Forall (λ l, is_plain l = true) mid →
  parse_from (mid ++ rest) st =
  (λ tl, number_lines file (line_no st) mid ++ tl)
    <$> parse_from rest {| current_file := Some file; old_file := old_file st;
                           line_no := counter_after (line_no st) mid;
                           hunk_buffer := [] |}.
Proof.
  induction mid as [|raw_line mid IH]; intros file st rest Hf Hb Hmid.
  - destruct st as [cf od ln buf]. simpl in *. subst.
    unfold counter_after. simpl. rewrite Z.add_0_r.
    by destruct (parse_from rest _).
  - inversion_clear Hmid as [|? ? Hpl Hmid'].
    rewrite <- app_comm_cons, parse_from_cons, counter_after_cons.
    cbn [number_lines].
    destruct (is_added raw_line) eqn:Ea.
    + rewrite (parse_iter_added _ file) by done. cbn [fst snd orb].
      rewrite parse_from_buffer. cbn [hunk_buffer flushed current_file old_file line_no].
      rewrite Hb. rewrite (IH file) by done.
      cbn [hunk_buffer flushed current_file old_file line_no].
      destruct (parse_from rest _); [|done]. simpl. done.
    + rewrite (parse_iter_other _ file) by done. cbn [fst snd orb].
      rewrite (IH file) by done.
      cbn [hunk_buffer flushed current_file old_file line_no].
      destruct (is_context raw_line); destruct (parse_from rest _); done.
Qed.

Lemma number_lines_app file n l1 l2 :
  number_lines file n (l1 ++ l2) =
  number_lines file n l1 ++ number_lines file (counter_after n l1) l2.
Proof.
  revert n. induction l1 as [|raw_line l1 IH]; intros n.
  - unfold counter_after. simpl. by rewrite Z.add_0_r.
  - rewrite counter_after_cons. simpl.
    destruct (is_added raw_line) eqn:Ea; simpl; [by rewrite IH|].
    destruct (is_context raw_line); by rewrite IH.
Qed.

Lemma number_lines_no_added file n lines :
  Forall (λ l, is_added l = false) lines → number_lines file n lines = [].
Proof.
  revert n. induction lines as [|raw_line lines IH]; intros n Hl; [done|].
  inversion_clear Hl as [|? ? Ha Hl']. simpl. rewrite Ha.
  destruct (is_context raw_line); by apply IH.
Qed.

Lemma counter_after_no_added n lines :
  Forall (λ l, is_added l = false) lines →
  counter_after n lines = n + Z.of_nat (length (filter (λ l, is_context l = true) lines)).
Proof.
  unfold counter_after. intros Hl. do 3 f_equal.
  induction Hl as [|raw_line lines Ha Hl IH]; [done|].
  rewrite !filter_cons, Ha. simpl.
  destruct (is_context raw_line); simpl; by rewrite IH.
Qed.

(** (C7, as amended) Line numbering within a hunk. In a file block, after a
    hunk header with [newStart = c], the lines up to the next [diff --git]
    line or hunk header are numbered from [c]: every [+] content line is
    yielded with the current value of the counter, and the counter moves on
    by one exactly on [+] content lines and on context lines, never on [-]
    lines. So the first [+] content line after the header carries
    [c] plus the number of context lines between the header and it. *)
Theorem hunk_line_numbers st file hh c mid rest :
  current_file st = Some file →
  hunk_start hh = Some c →
  Forall (λ l, is_plain l = true) mid →
  parse_from (hh :: mid ++ rest) st =
    (λ tl, flush (hunk_buffer st) ++ number_lines file c mid ++ tl)
      <$> parse_from rest {| current_file := Some file; old_file := old_file st;
                             line_no := counter_after c mid; hunk_buffer := [] |}
  ∧ (∀ before raw_line after,
       mid = before ++ raw_line :: after →
       Forall (λ l, is_added l = false) before → is_added raw_line = true →
       head (number_lines file c mid) =
       Some (ItLine {| dl_file := file;
                       dl_line_no := c + Z.of_nat (length (filter (λ l, is_context l = true) before));
                       dl_content := _strip_bom (drop 1 raw_line);
                       dl_line_type := ADDED |}))
  ∧ (∀ l, startswith l (py "-") = true → is_added l || is_context l = false).
Proof.
  intros Hf Hh Hmid. split; [|split].
  - rewrite parse_from_cons, (parse_iter_hunk _ c) by done. cbn [fst snd].
    rewrite (parse_from_hunk_lines mid file) by done.
    cbn [hunk_buffer current_file old_file line_no].
    destruct (parse_from rest _); [|done]. simpl. done.
  - intros before raw_line after -> Hb Ha.
    rewrite number_lines_app, (number_lines_no_added _ _ before) by done.
    simpl. rewrite Ha. simpl. by rewrite counter_after_no_added.
  - intros l Hl. apply (startswith_cons _ 45%N) in Hl as [s' ->].
    unfold is_added, is_context. by head_decides.
Qed.

(** [lstrip] removes a run of the character and nothing else. *)
Lemma strip_bom_spec X :
  ∃ k, X = replicate k BOM ++ _strip_bom X ∧ head (_strip_bom X) ≠ Some BOM.
Proof.
  unfold _strip_bom. induction X as [|c X (k & HX & Hh)].
  - by exists 0%nat.
  - simpl. case_bool_decide as Hc.
    + apply list_elem_of_singleton in Hc. subst c.
      exists (S k). simpl. split; [by f_equal|done].
    + exists 0%nat. simpl. split; [done|].
      intros [= ->]. apply Hc. by apply list_elem_of_singleton.
Qed.

(** (C6, as amended) The content of an added line. A [+] content line [+X]
    of a file block is yielded as an [AddedLine] whose content is [X]
    without its leading run of U+FEFF characters: all of them are removed,
    not only one, and every other character of [X] is kept as it is. *)
Theorem added_line_content st file X rest :
  current_file st = Some file →
  is_added (chr "+" :: X) = true →
  parse_from ((chr "+" :: X) :: rest) st =
    (λ tl, flush (hunk_buffer st)
           ++ ItLine {| dl_file := file; dl_line_no := line_no st;
                        dl_content := _strip_bom X; dl_line_type := ADDED |} :: tl)
      <$> parse_from rest {| current_file := Some file; old_file := old_file st;
                             line_no := line_no st + 1; hunk_buffer := [] |}
  ∧ ∃ k, X = replicate k BOM ++ _strip_bom X ∧ head (_strip_bom X) ≠ Some BOM.
Proof.
  intros Hf Ha. split; [|apply strip_bom_spec].
  rewrite parse_from_cons, (parse_iter_added _ file) by done. cbn [fst snd].
  rewrite parse_from_buffer. cbn [hunk_buffer flushed current_file old_file line_no].
  destruct (parse_from rest _); [|done]. simpl. f_equal.
  unfold flush. rewrite fmap_app, <- app_assoc. done.
Qed.

End ParserHunks.

(** ** The parser: file blocks and sub-headers *)

Section ParserBlocks.
Context `{PyRuntime}.

Lemma sub_headers_stop sub rest old cur fl :
  is_sub_header sub = false → sub_headers (sub :: rest) old cur fl = (old, cur, fl, sub :: rest).
Proof.
  unfold is_sub_header. intros Hs.
  repeat (apply orb_false_iff in Hs as [Hs ?]).
  cbn [sub_headers].
  repeat match goal with Hm : matches _ sub = false |- _ => rewrite Hm; clear Hm end.
  repeat match goal with Hm : matches _ sub = false |- _ =>
    apply matches_None in Hm; rewrite Hm; clear Hm end.
  done.
Qed.

Lemma sub_headers_step sub old cur fl :
  is_sub_header sub = true →
  ∃ old' cur' fl',
    (∀ rest, sub_headers (sub :: rest) old cur fl = sub_headers rest old' cur' fl')
    ∧ (is_binary fl = true ∨ matches BINARY_RE sub = true → is_binary fl' = true).
Proof.
  intros Hs.
  assert (∀ r a, first_char r = Some a → a ≠ 66%N → matches r sub = true →
                 matches BINARY_RE sub = true → False) as Hno.
  { intros r a Hf Ha Hr Hb.
    eapply matches_first_char in Hr as [s1 Hs1]; [|done].
    eapply (matches_first_char _ _ 66%N) in Hb as [s2 Hs2]; [|done]. congruence. }
  assert (∀ r x, re_match r sub = Some x → matches r sub = true) as Hsome.
  { intros r x Hx. unfold matches. by rewrite Hx. }
  destruct (matches INDEX_RE sub) eqn:E1.
  { exists old, cur, fl. split; [intros rest; cbn [sub_headers]; by rewrite E1|].
    intros [?|Hb]; [done|]. by destruct (Hno INDEX_RE _ eq_refl ltac:(done) E1 Hb). }
  destruct (matches SIMILARITY_RE sub) eqn:E2.
  { exists old, cur, fl. split; [intros rest; cbn [sub_headers]; by rewrite E1, E2|].
    intros [?|Hb]; [done|]. by destruct (Hno SIMILARITY_RE _ eq_refl ltac:(done) E2 Hb). }
  destruct (matches OLD_MODE_RE sub) eqn:E3.
  { eexists old, cur, _. split; [intros rest; cbn [sub_headers]; by rewrite E1, E2, E3|].
    intros [?|Hb]; [done|]. by destruct (Hno OLD_MODE_RE _ eq_refl ltac:(done) E3 Hb). }
  destruct (matches NEW_MODE_RE sub) eqn:E4.
  { exists old, cur, fl. split; [intros rest; cbn [sub_headers]; by rewrite E1, E2, E3, E4|].
    intros [?|Hb]; [done|]. by destruct (Hno NEW_MODE_RE _ eq_refl ltac:(done) E4 Hb). }
  destruct (matches DELETED_FILE_RE sub) eqn:E5.
  { eexists old, cur, _.
    split; [intros rest; cbn [sub_headers]; by rewrite E1, E2, E3, E4, E5|].
    intros [?|Hb]; [done|]. by destruct (Hno DELETED_FILE_RE _ eq_refl ltac:(done) E5 Hb). }
  destruct (matches NEW_FILE_RE sub) eqn:E6.
  { exists old, cur, fl.
    split; [intros rest; cbn [sub_headers]; by rewrite E1, E2, E3, E4, E5, E6|].
    intros [?|Hb]; [done|]. by destruct (Hno NEW_FILE_RE _ eq_refl ltac:(done) E6 Hb). }
  destruct (re_match RENAME_FROM_RE sub) as [rm|] eqn:E7.
  { eexists _, cur, _.
    split; [intros rest; cbn [sub_headers]; by rewrite E1, E2, E3, E4, E5, E6, E7|].
    intros [?|Hb]; [done|].
    by destruct (Hno RENAME_FROM_RE _ eq_refl ltac:(done) (Hsome _ _ E7) Hb). }
  destruct (re_match RENAME_TO_RE sub) as [rt|] eqn:E8.
  { eexists old, _, fl.
    split; [intros rest; cbn [sub_headers]; by rewrite E1, E2, E3, E4, E5, E6, E7, E8|].
    intros [?|Hb]; [done|].
    by destruct (Hno RENAME_TO_RE _ eq_refl ltac:(done) (Hsome _ _ E8) Hb). }
  destruct (matches BINARY_RE sub) eqn:E9.
  { eexists old, cur, _.
    split; [intros rest; cbn [sub_headers]; by rewrite E1, E2, E3, E4, E5, E6, E7, E8, E9|].
    done. }
  exfalso. unfold is_sub_header in Hs. unfold matches in Hs at 7 8.
  by rewrite E1, E2, E3, E4, E5, E6, E7, E8, E9 in Hs.
Qed.

Lemma sub_headers_binary_keeps lines : ∀ old cur fl,
  is_binary fl = true → is_binary (sub_headers lines old cur fl).1.2 = true.
Proof.
  induction lines as [|sub rest IH]; intros old cur fl Hb; [done|].
  destruct (is_sub_header sub) eqn:Es.
  - destruct (sub_headers_step sub old cur fl Es) as (old' & cur' & fl' & Heq & Hbin).
    rewrite Heq. apply IH. apply Hbin. by left.
  - by rewrite sub_headers_stop.
Qed.

(** The sub-header loop consumes a run of sub-headers and stops at the
    first line that is not one. *)
Lemma sub_headers_app subs : ∀ tail old cur fl,
  Forall (λ l, is_sub_header l = true) subs →
  (∀ l, head tail = Some l → is_sub_header l = false) →
  sub_headers (subs ++ tail) old cur fl =
  ((sub_headers subs old cur fl).1, tail).
Proof.
  induction subs as [|sub subs IH]; intros tail old cur fl Hsubs Htail.
  - simpl. destruct tail as [|l tail]; [done|]. by rewrite sub_headers_stop by auto.
  - inversion_clear Hsubs as [|? ? Hs Hsubs'].
    destruct (sub_headers_step sub old cur fl Hs) as (old' & cur' & fl' & Heq & _).
    rewrite <- app_comm_cons, !Heq. by apply IH.
Qed.

Lemma sub_headers_binary subs : ∀ old cur fl,
  Forall (λ l, is_sub_header l = true) subs →
  Exists (λ l, matches BINARY_RE l = true) subs →
  is_binary (sub_headers subs old cur fl).1.2 = true.
Proof.
  induction subs as [|sub subs IH]; intros old cur fl Hsubs Hex; [by inversion Hex|].
  inversion_clear Hsubs as [|? ? Hs Hsubs'].
  destruct (sub_headers_step sub old cur fl Hs) as (old' & cur' & fl' & Heq & Hbin).
  rewrite Heq. inversion_clear Hex as [? ? Hb|? ? Hex'].
  - apply sub_headers_binary_keeps. apply Hbin. by right.
  - by apply IH.
Qed.

(** The sub-header loop skips no line on which [int] would raise. *)
Lemma sub_headers_overflow lines : ∀ old cur fl,
  Exists (λ l, hunk_overflow l = true) (sub_headers lines old cur fl).2
  ↔ Exists (λ l, hunk_overflow l = true) lines.
Proof.
  induction lines as [|sub rest IH]; intros old cur fl; [done|].
  destruct (is_sub_header sub) eqn:Es.
  - destruct (sub_headers_step sub old cur fl Es) as (old' & cur' & fl' & Heq & _).
    rewrite Heq, IH, Exists_cons.
    pose proof (sub_header_no_overflow sub Es) as Hno. split; [by right|].
    intros [Ho|Hr]; [congruence|done].
  - by rewrite sub_headers_stop.
Qed.

Lemma parse_iter_rest raw_line rest st r :
  parse_iter raw_line rest st = Some r →
  r.1.2 = rest ∨ ∃ old cur fl, r.1.2 = (sub_headers rest old cur fl).2.
Proof.
  unfold parse_iter. intros Hr. repeat case_match; simplify_eq/=; try (by left).
  right. match goal with Hs : sub_headers rest ?o ?c ?f = _ |- _ =>
    exists o, c, f; by rewrite Hs end.
Qed.

Lemma parse_loop_raises f : ∀ lines st,
  (length lines < f)%nat →
  parse_loop f lines st = None ↔ Exists (λ l, hunk_overflow l = true) lines.
Proof.
  induction f as [|f IH]; intros lines st Hf; [lia|].
  destruct lines as [|raw_line rest].
  { simpl. split; [done|]. by intros ?%Exists_nil. }
  rewrite parse_loop_S_cons, Exists_cons.
  destruct (parse_iter raw_line rest st) as [r|] eqn:E.
  - assert (hunk_overflow raw_line = false) as Hno.
    { destruct (hunk_overflow raw_line) eqn:Eo; [|done].
      apply (parse_iter_raises raw_line rest st) in Eo. congruence. }
    pose proof (parse_iter_length _ _ _ _ E) as Hl. simpl in Hf.
    rewrite fmap_None, IH by lia.
    destruct (parse_iter_rest _ _ _ _ E) as [->|(old & cur & fl & ->)].
    + split; [by right|]. intros [?|?]; [congruence|done].
    + rewrite sub_headers_overflow. split; [by right|]. intros [?|?]; [congruence|done].
  - apply parse_iter_raises in E. split; [by left|done].
Qed.

(** The parser raises exactly when the text has a hunk header on whose
    [newStart] [int] raises: the fuel of [parse_from] is never used up. *)
Lemma parse_from_raises lines st :
  parse_from lines st = None ↔ Exists (λ l, hunk_overflow l = true) lines.
Proof. apply parse_loop_raises. lia. Qed.

(** Lines that yield nothing: no [diff --git] line and no [+] content line
    among them. *)
Lemma parse_from_quiet body : ∀ file st post,
  current_file st = Some file → hunk_buffer st = [] →
  Forall (λ l, matches DIFF_HEADER_RE l = false ∧ is_added l = false) body →
  Forall (λ l, hunk_overflow l = false) body →
  ∃ n, parse_from (body ++ post) st =
       parse_from post {| current_file := Some file; old_file := old_file st;
                          line_no := n; hunk_buffer := [] |}.
Proof.
  induction body as [|raw_line body IH]; intros file st post Hf Hb Hbody Hover.
  - exists (line_no st). destruct st as [cf od ln buf]. simpl in *. by subst.
  - inversion_clear Hbody as [|? ? [Hd Ha] Hbody'].
    inversion_clear Hover as [|? ? Ho Hover'].
    rewrite <- app_comm_cons, parse_from_cons.
    destruct (hunk_cases raw_line) as [(c & Eh & _)|[[_ Eo]|(Eh & _ & _)]];
      [| congruence |].
    + rewrite (parse_iter_hunk _ c) by done. cbn [fst snd]. rewrite Hb, Hf.
      destruct (IH file {| current_file := Some file; old_file := old_file st;
                           line_no := c; hunk_buffer := [] |} post)
        as [n Hn]; [done..|].
      exists n. rewrite Hn. cbn [old_file flush fmap list_fmap app].
      by destruct (parse_from post _).
    + rewrite (parse_iter_other _ file); [|done| |done].
      2:{ unfold is_plain. rewrite Hd. unfold matches. by rewrite Eh. }
      cbn [fst snd]. rewrite Hb.
      destruct (IH file {| current_file := Some file; old_file := old_file st;
                           line_no := if is_context raw_line then line_no st + 1
                                      else line_no st;
                           hunk_buffer := [] |} post)
        as [n Hn]; [done..|].
      exists n. rewrite Hn. cbn [old_file app].
      by destruct (parse_from post _).
Qed.

(** (C8, as amended) Binary file blocks. When the run of sub-headers that
    follows a [diff --git] line contains a [Binary files ... differ] line,
    the parser yields for the block exactly one [FileSkipped] with reason
    [binary] and no [FileEnter]; and it yields no [AddedLine] for the block
    provided no [+] content line follows in it: the rest of the block is
    not skipped, it is read like any other block. That is so when [int]
    converts the [newStart] of every hunk header of the block; when it
    raises on one of them, the parser raises [ValueError]. *)
Theorem binary_block st hdr m subs body post :
  re_match DIFF_HEADER_RE hdr = Some m →
  Forall (λ l, is_sub_header l = true) subs →
  Exists (λ l, matches BINARY_RE l = true) subs →
  Forall (λ l, matches DIFF_HEADER_RE l = false ∧ is_added l = false) body →
  (∀ l, head (body ++ post) = Some l → is_sub_header l = false) →
  let r := sub_headers subs (default [] (group m 1)) (default [] (group m 2)) no_flags in
  (Forall (λ l, hunk_overflow l = false) body →
   ∃ n,
     parse_from (hdr :: subs ++ body ++ post) st =
     (λ tl, flush (hunk_buffer st)
            ++ ItSkipped {| fs_path := r.1.1.2; fs_reason := py "binary" |} :: tl)
       <$> parse_from post {| current_file := Some r.1.1.2; old_file := Some r.1.1.1;
                              line_no := n; hunk_buffer := [] |})
  ∧ (Exists (λ l, hunk_overflow l = true) body →
     parse_from (hdr :: subs ++ body ++ post) st = None).
Proof.
  intros Hm Hsubs Hbin Hbody Hhead r. split.
  - intros Hover.
    rewrite parse_from_cons, (parse_iter_header _ m) by done.
    rewrite sub_headers_app by done. fold r. cbn [fst snd].
    destruct (parse_from_quiet body r.1.1.2
                {| current_file := Some r.1.1.2; old_file := Some r.1.1.1;
                   line_no := line_no st; hunk_buffer := [] |} post)
      as [n Hn]; [done..|].
    exists n. rewrite Hn. cbn [old_file].
    assert (is_binary r.1.2 = true) as Hb by (by apply sub_headers_binary).
    unfold file_event. rewrite Hb.
    destruct (parse_from post _); [|done]. simpl. f_equal.
    by rewrite <- app_assoc.
  - intros Hover. apply parse_from_raises.
    apply Exists_cons. right. apply Exists_app. right. apply Exists_app. by left.
Qed.

End ParserBlocks.

(** ** The parser: when it returns, and line numbers *)

Section ParserTotality.
Context `{PyRuntime}.

(** What an iteration on a line that is neither a [diff --git] line nor a
    hunk header can do. *)
Lemma parse_iter_plain_cases raw_line rest st :
  re_match DIFF_HEADER_RE raw_line = None → re_match HUNK_HEADER_RE raw_line = None →
  ∃ r, parse_iter raw_line rest st = Some r ∧
  r.1.1 = [] ∧ r.1.2 = rest ∧
  ((hunk_buffer r.2 = hunk_buffer st)
   ∨ (is_added raw_line = true ∧ line_no r.2 = line_no st + 1
      ∧ ∃ dl, hunk_buffer r.2 = hunk_buffer st ++ [dl] ∧ dl_line_no dl = line_no st))
  ∧ (line_no r.2 = line_no st ∨ line_no r.2 = line_no st + 1).
Proof.
  intros Hd Eh.
  unfold parse_iter. rewrite Hd, Eh.
  destruct (matches FILE_HEADER_OLD raw_line) eqn:Eo; [eexists; cbn; tauto|].
  destruct (matches FILE_HEADER_NEW raw_line) eqn:En; [eexists; cbn; tauto|].
  cbn [orb].
  destruct (matches SUBPROJECT_RE raw_line) eqn:Es; [eexists; cbn; tauto|].
  destruct (matches NO_NEWLINE_RE raw_line) eqn:Enn; [eexists; cbn; tauto|].
  destruct (current_file st) as [file|]; [|eexists; cbn; tauto].
  destruct (startswith raw_line (py "+")) eqn:Ep.
  { eexists. split; [done|].
    cbn [fst snd hunk_buffer line_no]. split; [done|]. split; [done|].
    split; [|tauto]. right. unfold is_added. rewrite Ep, En, Es.
    split; [done|]. split; [done|]. by eexists. }
  destruct (startswith raw_line (py "-")); [eexists; cbn; tauto|].
  destruct (startswith raw_line (py " ")); eexists; cbn; tauto.
Qed.

Lemma diff_header_not_hunk raw_line m :
  re_match DIFF_HEADER_RE raw_line = Some m →
  hunk_start raw_line = None ∧ is_added raw_line = false.
Proof.
  intros Hm.
  assert (matches DIFF_HEADER_RE raw_line = true) as Hd by (unfold matches; by rewrite Hm).
  eapply matches_first_char in Hd as [s' ->]; [|reflexivity].
  split; reflexivity.
Qed.

Lemma numbered_sub_headers started lines : ∀ old cur fl,
  numbered started lines = true →
  numbered started (sub_headers lines old cur fl).2 = true.
Proof.
  induction lines as [|sub rest IH]; intros old cur fl Hn; [done|].
  destruct (is_sub_header sub) eqn:Es.
  - destruct (sub_headers_step sub old cur fl Es) as (old' & cur' & fl' & Heq & _).
    rewrite Heq. apply IH.
    destruct (sub_header_not_hunk sub Es) as [Hh _].
    cbn [numbered] in Hn. rewrite Hh in Hn. by apply andb_true_iff in Hn as [_ ?].
  - by rewrite sub_headers_stop.
Qed.

(** The invariant of the outer loop: once a hunk header has been seen the
    counter is at least 1, and so is every buffered line number. *)
Lemma parse_loop_line_numbers f : ∀ lines st started evs,
  parse_loop f lines st = Some evs →
  numbered started lines = true →
  (started = true → 1 ≤ line_no st) →
  Forall (λ l, 1 ≤ dl_line_no l) (hunk_buffer st) →
  ∀ l, ItLine l ∈ evs → 1 ≤ dl_line_no l.
Proof.
  induction f as [|f IH]; intros lines st started evs Hp Hn Hst Hbuf l Hl; [done|].
  destruct lines as [|raw_line rest].
  { simpl in Hp. simplify_eq. unfold flush in Hl.
    apply list_elem_of_fmap in Hl as (l' & [= <-] & Hl').
    by eapply (proj1 (Forall_forall _ _)) in Hbuf. }
  rewrite parse_loop_S_cons in Hp.
  destruct (parse_iter raw_line rest st) as [r|] eqn:Er; [|done].
  destruct (parse_loop f _ _) as [tl|] eqn:Etl; [|done]. simpl in Hp. simplify_eq.
  assert (∀ l', ItLine l' ∈ flush (hunk_buffer st) → 1 ≤ dl_line_no l') as Hflush.
  { intros l' Hl'. unfold flush in Hl'.
    apply list_elem_of_fmap in Hl' as (l'' & [= <-] & Hl'').
    by eapply (proj1 (Forall_forall _ _)) in Hbuf. }
  apply elem_of_app in Hl.
  destruct (re_match DIFF_HEADER_RE raw_line) as [m|] eqn:Ed.
  - (* a [diff --git] line *)
    destruct (diff_header_not_hunk _ _ Ed) as [Hh Ha].
    cbn [numbered] in Hn. rewrite Hh in Hn. apply andb_true_iff in Hn as [_ Hn].
    rewrite (parse_iter_header _ m) in Er by done. cbn zeta in Er. simplify_eq.
    cbn [fst snd] in Hl, Etl.
    destruct Hl as [Hl|Hl].
    + apply elem_of_app in Hl as [Hl|Hl]; [by apply Hflush|].
      apply list_elem_of_singleton in Hl. unfold file_event in Hl.
      repeat case_match; done.
    + eapply (IH _ _ started); [exact Etl| |done|by constructor|done].
      by apply numbered_sub_headers.
  - destruct (hunk_cases raw_line) as [(c & Eh & _)|[[_ Eo]|(Em & Eh & _)]].
    + (* a hunk header *)
      cbn [numbered] in Hn. rewrite Eh in Hn. apply andb_true_iff in Hn as [Hc Hn].
      rewrite (parse_iter_hunk _ c) in Er by done. simplify_eq.
      cbn [fst snd] in Hl, Etl.
      destruct Hl as [Hl|Hl]; [by apply Hflush|].
      eapply (IH _ _ true); [exact Etl|done| |by constructor|done].
      intros _. cbn. lia.
    + apply (parse_iter_raises raw_line rest st) in Eo. congruence.
    + (* any other line *)
      cbn [numbered] in Hn. rewrite Eh in Hn. apply andb_true_iff in Hn as [Hs Hn].
      destruct (parse_iter_plain_cases raw_line rest st Ed Em)
        as (r' & Er' & He & Hr & Hb & Hln).
      assert (r' = r) as -> by congruence.
      rewrite He in Hl. rewrite Hr in Etl. destruct Hl as [Hl|Hl]; [by apply elem_of_nil in Hl|].
      eapply (IH _ _ started); [exact Etl|done| | |done].
      * intros ->. specialize (Hst eq_refl). lia.
      * destruct Hb as [->|(Ha & _ & dl & -> & Hdl)]; [done|].
        apply Forall_app. split; [done|]. constructor; [|done].
        rewrite Ha in Hs. destruct started; [|done]. rewrite Hdl. by apply Hst.
Qed.

(** When the parser returns, and when it raises. It raises [ValueError]
    exactly when a line of the text is a hunk header on whose [newStart]
    [int] raises, and returns a list of items otherwise. An [AddedLine]
    may carry line number 0: the counter starts at 0 and a hunk header may
    set it to 0. Every [AddedLine] has [line_no >= 1] when every hunk
    header of the text has [newStart >= 1] and no [+] content line comes
    before the first hunk header. *)
Lemma parse_returns diff_text :
  (parse diff_text = None
   ↔ Exists (λ l, hunk_overflow l = true) (splitlines diff_text))
  ∧ ∀ evs, parse diff_text = Some evs →
           numbered false (splitlines diff_text) = true →
           ∀ l, ItLine l ∈ evs → 1 ≤ dl_line_no l.
Proof.
  split; [apply parse_from_raises|]. intros evs Hevs Hn l Hl.
  eapply (parse_loop_line_numbers _ _ _ false); [exact Hevs|done|done|by constructor|done].
Qed.


End ParserTotality.

(** ** The parser on concrete diffs *)

Section ParserExamples.
#[local] Existing Instance literal_runtime.

(** The parser on the two-hunk diff of the test suite. *)
Example parse_consecutive_hunks :
  parse (text [py "diff --git a/f.py b/f.py"; py "index abc..def 100644";
               py "--- a/f.py"; py "+++ b/f.py";
               py "@@ -5,0 +5,1 @@"; py "+line at 5";
               py "@@ -20,0 +21,1 @@"; py "+line at 21"])
  = Some [ItFile {| df_path := py "f.py"; df_old_path := None; df_status := FS_MODIFIED |};
          ItLine {| dl_file := py "f.py"; dl_line_no := 5;
                    dl_content := py "line at 5"; dl_line_type := ADDED |};
          ItLine {| dl_file := py "f.py"; dl_line_no := 21;
                    dl_content := py "line at 21"; dl_line_type := ADDED |}].
Proof. vm_compute. reflexivity. Qed.

(** A [+] line that follows a [diff --git] line with no hunk header in
    between is yielded with line number 0. *)
Lemma parse_line_no_zero :
  parse (text [py "diff --git a/f b/f"; py "+x"])
  = Some [ItFile {| df_path := py "f"; df_old_path := None; df_status := FS_MODIFIED |};
          ItLine {| dl_file := py "f"; dl_line_no := 0;
                    dl_content := py "x"; dl_line_type := ADDED |}]
  ∧ ¬ (∀ evs l, parse (text [py "diff --git a/f b/f"; py "+x"]) = Some evs →
                ItLine l ∈ evs → 1 ≤ dl_line_no l).
Proof.
  split; [vm_compute; reflexivity|].
  intros Hc.
  specialize (Hc _ {| dl_file := py "f"; dl_line_no := 0;
                      dl_content := py "x"; dl_line_type := ADDED |} eq_refl).
  assert (1 ≤ 0) as Habs; [|lia].
  apply Hc. apply list_elem_of_further, list_elem_of_here.
Qed.

(** (C5) The parser raises on a hunk header that [int] does not convert.
    The [newStart] of the hunk header below has 4301 digits, one more than
    [int] converts under the interpreter's default limit: [int] raises
    [ValueError], so the generator raises instead of returning, and
    [scan], which parses the diff before its [try], raises [ValueError]
    as well. With 4300 digits the parser returns. *)
Theorem parse_raises_ValueError :
  let hh := py "@@ -1 +" ++ replicate 4301 (chr "1") ++ py " @@" in
  matches HUNK_HEADER_RE hh = true
  ∧ parse (text [hh]) = None
  ∧ scan (text [hh]) (plain_config false [] []) [] ignore_empty
    = Err (PyException (py "ValueError"))
  ∧ parse (text [py "@@ -1 +" ++ replicate 4300 (chr "1") ++ py " @@"]) = Some [].
Proof. vm_compute. repeat split. Qed.

(** (C6, counterexample) Two leading U+FEFF characters are both removed,
    where the specification removes one. *)
Lemma bom_stripped_twice :
  parse (text [py "diff --git a/f b/f"; py "@@ -0,0 +1 @@"; py "+" ++ [BOM; BOM] ++ py "a"])
  = Some [ItFile {| df_path := py "f"; df_old_path := None; df_status := FS_MODIFIED |};
          ItLine {| dl_file := py "f"; dl_line_no := 1;
                    dl_content := py "a"; dl_line_type := ADDED |}]
  ∧ strip_one_bom ([BOM; BOM] ++ py "a") = BOM :: py "a"
  ∧ py "a" ≠ strip_one_bom ([BOM; BOM] ++ py "a").
Proof. split; [vm_compute; reflexivity|]. split; [reflexivity|]. vm_compute. congruence. Qed.

Lemma added_line_content_witness :
  let st := {| current_file := Some (py "f"); old_file := None;
               line_no := 7; hunk_buffer := [] |} in
  current_file st = Some (py "f")
  ∧ is_added (chr "+" :: BOM :: py "hello") = true
  ∧ parse_from [chr "+" :: BOM :: py "hello"] st =
    (λ tl, flush (hunk_buffer st)
           ++ ItLine {| dl_file := py "f"; dl_line_no := line_no st;
                        dl_content := _strip_bom (BOM :: py "hello");
                        dl_line_type := ADDED |} :: tl)
      <$> parse_from [] {| current_file := Some (py "f"); old_file := old_file st;
                           line_no := line_no st + 1; hunk_buffer := [] |}.
Proof.
  intros st. split; [reflexivity|]. split; [vm_compute; reflexivity|].
  apply (added_line_content st (py "f") (BOM :: py "hello") []);
    [reflexivity | vm_compute; reflexivity].
Defined.

(** (C7, counterexample) With one context line between the hunk header
    [+5,3] and the first [+] line, that line is numbered 6, not 5. *)
Lemma first_added_line_after_context :
  parse (text [py "diff --git a/f b/f"; py "@@ -5,2 +5,3 @@"; py " ctx"; py "+added"])
  = Some [ItFile {| df_path := py "f"; df_old_path := None; df_status := FS_MODIFIED |};
          ItLine {| dl_file := py "f"; dl_line_no := 6;
                    dl_content := py "added"; dl_line_type := ADDED |}]
  ∧ hunk_start (py "@@ -5,2 +5,3 @@") = Some 5.
Proof. split; vm_compute; reflexivity. Qed.

Lemma hunk_line_numbers_witness :
  let st := {| current_file := Some (py "f"); old_file := None;
               line_no := 0; hunk_buffer := [] |} in
  let mid := [py " ctx"; py "-gone"; py "+added"; py "+more"] in
  current_file st = Some (py "f")
  ∧ hunk_start (py "@@ -5,2 +5,3 @@") = Some 5
  ∧ Forall (λ l, is_plain l = true) mid
  ∧ parse_from (py "@@ -5,2 +5,3 @@" :: mid ++ []) st =
    (λ tl, flush (hunk_buffer st) ++ number_lines (py "f") 5 mid ++ tl)
      <$> parse_from [] {| current_file := Some (py "f"); old_file := old_file st;
                           line_no := counter_after 5 mid; hunk_buffer := [] |}.
Proof.
  intros st mid.
  assert (Forall (λ l, is_plain l = true) mid) as Hmid.
  { repeat constructor. }
  split; [reflexivity|]. split; [vm_compute; reflexivity|]. split; [exact Hmid|].
  apply (hunk_line_numbers st (py "f") (py "@@ -5,2 +5,3 @@") 5 mid []);
    [reflexivity | vm_compute; reflexivity | exact Hmid].
Defined.

(** (C8, counterexample) A [+] line that follows the [Binary files] line in
    the same block is yielded as an [AddedLine] of the skipped file. *)
Lemma binary_block_added_line :
  parse (text [py "diff --git a/image.png b/image.png";
               py "Binary files /dev/null and b/image.png differ"; py "+secret"])
  = Some [ItSkipped {| fs_path := py "image.png"; fs_reason := py "binary" |};
          ItLine {| dl_file := py "image.png"; dl_line_no := 0;
                    dl_content := py "secret"; dl_line_type := ADDED |}].
Proof. vm_compute. reflexivity. Qed.

Lemma binary_block_witness :
  let hdr := py "diff --git a/image.png b/image.png" in
  let m := [(2%nat, py "image.png"); (1%nat, py "image.png")] in
  let subs := [py "new file mode 100644"; py "index 0000000..abc1234";
               py "Binary files /dev/null and b/image.png differ"] in
  let body := [py "-old"; py " kept"] in
  let post := [py "diff --git a/g b/g"] in
  re_match DIFF_HEADER_RE hdr = Some m
  ∧ Forall (λ l, is_sub_header l = true) subs
  ∧ Exists (λ l, matches BINARY_RE l = true) subs
  ∧ Forall (λ l, matches DIFF_HEADER_RE l = false ∧ is_added l = false) body
  ∧ (∀ l, head (body ++ post) = Some l → is_sub_header l = false)
  ∧ Forall (λ l, hunk_overflow l = false) body
  ∧ ∃ n,
      parse_from (hdr :: subs ++ body ++ post) parse_init =
      (λ tl, ItSkipped {| fs_path := py "image.png"; fs_reason := py "binary" |} :: tl)
        <$> parse_from post {| current_file := Some (py "image.png");
                               old_file := Some (py "image.png");
                               line_no := n; hunk_buffer := [] |}.
Proof.
  intros hdr m subs body post.
  assert (re_match DIFF_HEADER_RE hdr = Some m) as H1 by (vm_compute; reflexivity).
  assert (Forall (λ l, is_sub_header l = true) subs) as H2 by (repeat constructor).
  assert (Exists (λ l, matches BINARY_RE l = true) subs) as H3.
  { do 2 apply Exists_cons_tl. apply Exists_cons_hd. vm_compute. reflexivity. }
  assert (Forall (λ l, matches DIFF_HEADER_RE l = false ∧ is_added l = false) body) as H4.
  { repeat constructor. }
  assert (∀ l, head (body ++ post) = Some l → is_sub_header l = false) as H5.
  { intros l [= <-]. vm_compute. reflexivity. }
  assert (Forall (λ l, hunk_overflow l = false) body) as H6 by (repeat constructor).
  do 6 (split; [assumption|]).
  destruct (proj1 (binary_block parse_init hdr m subs body post H1 H2 H3 H4 H5) H6)
    as [n Hn].
  exists n. exact Hn.
Defined.

End ParserExamples.

(** ** The suppression index *)

Section SuppressionFacts.

Lemma register_line_other rs ln k :
  k ≠ ln.1 → mapping (register_line rs ln) !! k = mapping rs !! k.
Proof.
  intros Hk. destruct ln as [line_no content]. simpl in Hk. unfold register_line.
  destruct (parse_inline_suppression content) as [[] rule_ids].
  - destruct (is_pure_comment content); simpl; by rewrite lookup_insert_ne.
  - destruct (prev_suppress rs) as [e|]; [|done].
    destruct (prev_was_comment rs); simpl; [by rewrite lookup_insert_ne|done].
Qed.

(** Lines leave the other line numbers alone. *)
Lemma register_lines_other lines : ∀ rs k,
  k ∉ lines.*1 → mapping (fold_left register_line lines rs) !! k = mapping rs !! k.
Proof.
  induction lines as [|ln lines IH]; intros rs k Hk; [done|].
  simpl in *. apply not_elem_of_cons in Hk as [Hk1 Hk2].
  rewrite IH by done. by apply register_line_other.
Qed.

Lemma register_line_agree rs rs' ln k :
  prev_suppress rs = prev_suppress rs' → prev_was_comment rs = prev_was_comment rs' →
  mapping rs !! k = mapping rs' !! k →
  prev_suppress (register_line rs ln) = prev_suppress (register_line rs' ln)
  ∧ prev_was_comment (register_line rs ln) = prev_was_comment (register_line rs' ln)
  ∧ mapping (register_line rs ln) !! k = mapping (register_line rs' ln) !! k.
Proof.
  intros Hp Hc Hm. destruct ln as [line_no content]. unfold register_line.
  rewrite <- Hp, <- Hc.
  destruct (parse_inline_suppression content) as [[] rule_ids].
  - destruct (is_pure_comment content); simpl; (split; [done|split; [done|]]);
      (destruct (decide (line_no = k)) as [->|];
       [by rewrite !lookup_insert_eq|by rewrite !lookup_insert_ne]).
  - simpl. split; [done|split; [done|]].
    destruct (prev_suppress rs) as [e|]; [|done].
    destruct (prev_was_comment rs); [|done].
    destruct (decide (line_no = k)) as [->|];
      [by rewrite !lookup_insert_eq|by rewrite !lookup_insert_ne].
Qed.

(** What the index holds for a line number depends on the loop state only
    through the previous line's marker and the entry of that number. *)
Lemma register_lines_agree lines : ∀ rs rs' k,
  prev_suppress rs = prev_suppress rs' → prev_was_comment rs = prev_was_comment rs' →
  mapping rs !! k = mapping rs' !! k →
  mapping (fold_left register_line lines rs) !! k
  = mapping (fold_left register_line lines rs') !! k.
Proof.
  induction lines as [|ln lines IH]; intros rs rs' k Hp Hc Hm; [done|].
  simpl. destruct (register_line_agree rs rs' ln k Hp Hc Hm) as (Hp' & Hc' & Hm').
  by apply IH.
Qed.

(** What [register_lines] does with a marker on a pure comment. In a
    per-file list of added lines whose line numbers are pairwise distinct,
    the line is suppressed itself, and its suppression is also what the
    index holds for the entry that follows it in the list, unless that
    entry carries a marker of its own, which then alone governs it. No
    later entry is reached: for the entries after the following one the
    index holds what it would hold if the list began at the following
    entry. *)
Lemma next_line_suppression pre n c n' c' post ids :
  NoDup (pre ++ (n, c) :: (n', c') :: post).*1 →
  parse_inline_suppression c = (true, ids) →
  is_pure_comment c = true →
  let m := line_map (pre ++ (n, c) :: (n', c') :: post) in
  m !! n = Some (true, ids)
  ∧ m !! n' = Some (if (parse_inline_suppression c').1
                    then (true, (parse_inline_suppression c').2)
                    else (true, ids))
  ∧ ∀ k, k ∈ post.*1 → m !! k = line_map ((n', c') :: post) !! k.
Proof.
  intros Hnd Hc Hpc m. subst m. unfold line_map.
  rewrite fmap_app, !fmap_cons in Hnd. simpl in Hnd.
  apply NoDup_app in Hnd as (_ & Hpre & Hnd).
  apply NoDup_cons in Hnd as [Hn Hnd]. apply NoDup_cons in Hnd as [Hn' Hpost].
  rewrite fold_left_app. cbn [fold_left].
  set (rs0 := fold_left register_line pre reg_init).
  assert (register_line rs0 (n, c) =
          {| mapping := <[n := (true, ids)]> (mapping rs0);
             prev_suppress := Some (true, ids); prev_was_comment := true |}) as Hrs1.
  { unfold register_line. by rewrite Hc, Hpc. }
  rewrite Hrs1. set (rs1 := {| mapping := _ |}).
  split; [|split].
  - rewrite register_lines_other by (by apply not_elem_of_cons in Hn as [_ ?]).
    rewrite register_line_other by (simpl; apply not_elem_of_cons in Hn as [? _]; done).
    subst rs1. simpl. by rewrite lookup_insert_eq.
  - rewrite register_lines_other by done.
    unfold register_line. subst rs1. simpl.
    destruct (parse_inline_suppression c') as [[] ids']; simpl.
    + destruct (is_pure_comment c'); simpl; by rewrite lookup_insert_eq.
    + by rewrite lookup_insert_eq.
  - intros k Hk. apply register_lines_agree.
    + unfold register_line. subst rs1. simpl.
      destruct (parse_inline_suppression c') as [[] ids']; [|done].
      by destruct (is_pure_comment c').
    + unfold register_line. subst rs1. simpl.
      destruct (parse_inline_suppression c') as [[] ids']; [|done].
      by destruct (is_pure_comment c').
    + assert (k ≠ n') as Hkn' by (intros ->; done).
      assert (k ≠ n) as Hkn.
      { intros ->. apply Hn. by apply list_elem_of_further. }
      assert (k ∉ pre.*1) as Hkpre.
      { intros Hin. apply (Hpre k Hin). by do 2 apply list_elem_of_further. }
      rewrite !register_line_other by done.
      subst rs1. simpl. rewrite lookup_insert_ne by done.
      subst rs0. rewrite register_lines_other by done. done.
Qed.

(** The comment's suppression on the entry that follows it. *)
Example next_line_suppression_run :
  let pre := [(10, py "import os")] in
  let post := [(13, py "x = 1")] in
  let c := py "# gitsafe-ignore" in
  let c' := py "key = AKIAIOSFODNN7REAL123" in
  let m := line_map (pre ++ (11, c) :: (12, c') :: post) in
  NoDup (pre ++ (11, c) :: (12, c') :: post).*1
  ∧ parse_inline_suppression c = (true, None)
  ∧ is_pure_comment c = true
  ∧ m !! 11 = Some (true, None)
  ∧ m !! 12 = Some (true, None)
  ∧ m !! 13 = None.
Proof.
  intros pre post c c' m.
  assert (NoDup (pre ++ (11, c) :: (12, c') :: post).*1) as Hnd.
  { apply (bool_decide_unpack _). vm_compute. reflexivity. }
  assert (parse_inline_suppression c = (true, None)) as Hc by (vm_compute; reflexivity).
  assert (is_pure_comment c = true) as Hpc by reflexivity.
  destruct (next_line_suppression pre 11 c 12 c' post None Hnd Hc Hpc) as (H1 & H2 & H3).
  do 3 (split; [assumption|]). split; [exact H1|]. split; [exact H2|].
  fold m in H3. rewrite (H3 13); [vm_compute; reflexivity|].
  apply list_elem_of_here.
Qed.

End SuppressionFacts.

(** ** The aggregator *)

Section AggregatorFacts.
Context `{PyRuntime}.

Lemma merge_raw_key existing raw : finding_key (merge_raw existing raw) = finding_key existing.
Proof. done. Qed.

Lemma merged_update_None merged key raw :
  merged_update merged key raw = None ↔ key ∉ merged.*1.
Proof.
  induction merged as [|[k f] merged IH]; simpl.
  - split; [intros _; apply not_elem_of_nil|done].
  - case_bool_decide as Hk.
    + subst. split; [done|]. intros Hn. exfalso. apply Hn, list_elem_of_here.
    + destruct (merged_update merged key raw) as [merged'|] eqn:E; simpl.
      * split; [done|]. intros Hn. apply not_elem_of_cons in Hn as [_ Hn].
        by apply IH in Hn.
      * split; [|done]. intros _. apply not_elem_of_cons. split; [done|]. by apply IH.
Qed.

Lemma merged_update_Some merged key raw merged' :
  merged_update merged key raw = Some merged' →
  merged'.*1 = merged.*1
  ∧ finding_key <$> merged'.*2 = finding_key <$> merged.*2
  ∧ length merged' = length merged.
Proof.
  revert merged'. induction merged as [|[k f] merged IH]; intros merged' Hu; simpl in *; [done|].
  case_bool_decide as Hk.
  - by simplify_eq.
  - destruct (merged_update merged key raw) as [m1|] eqn:E; simpl in Hu; [|done].
    simplify_eq. destruct (IH m1 eq_refl) as (H1 & H2 & H3).
    rewrite !fmap_cons. cbn [fst snd length]. by rewrite H1, H2, H3.
Qed.

(** Every key of the dictionary is the key of its finding. *)
Lemma dedup_loop_consistent fail_on raws : ∀ acc,
  acc.1.*1 = finding_key <$> acc.1.*2 →
  (dedup_loop fail_on raws acc).1.*1 = finding_key <$> (dedup_loop fail_on raws acc).1.*2.
Proof.
  unfold dedup_loop.
  induction raws as [|raw raws IH]; intros [merged counter] Hc; [done|].
  simpl. apply IH. simpl in *.
  destruct (merged_update merged (raw_key raw) raw) as [merged'|] eqn:E; simpl.
  - destruct (merged_update_Some _ _ _ _ E) as (H1 & H2 & _). by rewrite H1, H2.
  - rewrite !fmap_app. simpl. by rewrite Hc.
Qed.

(** The keys of the dictionary are the keys seen so far. *)
Lemma dedup_loop_keys fail_on raws : ∀ acc k,
  k ∈ (dedup_loop fail_on raws acc).1.*1 ↔ k ∈ acc.1.*1 ∨ k ∈ raw_key <$> raws.
Proof.
  unfold dedup_loop.
  induction raws as [|raw raws IH]; intros [merged counter] k.
  - simpl. split; [by left|]. intros [?|Hk]; [done|]. by apply elem_of_nil in Hk.
  - simpl. rewrite IH. simpl.
    destruct (merged_update merged (raw_key raw) raw) as [merged'|] eqn:E; simpl.
    + destruct (merged_update_Some _ _ _ _ E) as (H1 & _). rewrite H1.
      assert (raw_key raw ∈ merged.*1) as Hin.
      { destruct (decide (raw_key raw ∈ merged.*1)) as [|Hn]; [done|].
        apply merged_update_None with (raw := raw) in Hn. congruence. }
      rewrite elem_of_cons. split; [tauto|].
      intros [?|[->|?]]; tauto.
    + rewrite fmap_app, elem_of_app. simpl.
      rewrite list_elem_of_singleton, elem_of_cons. tauto.
Qed.

(** When no two raw findings share a key nothing is merged. *)
Lemma dedup_loop_length fail_on raws : ∀ acc,
  NoDup (acc.1.*1 ++ (raw_key <$> raws)) →
  length (dedup_loop fail_on raws acc).1 = (length acc.1 + length raws)%nat.
Proof.
  unfold dedup_loop.
  induction raws as [|raw raws IH]; intros [merged counter] Hnd; [simpl; lia|].
  simpl in *.
  assert (raw_key raw ∉ merged.*1) as Hn.
  { apply NoDup_app in Hnd as (_ & Hd & _). intros Hin. apply (Hd _ Hin), list_elem_of_here. }
  apply merged_update_None with (raw := raw) in Hn. rewrite Hn.
  rewrite IH; simpl.
  - rewrite length_app. simpl. lia.
  - rewrite fmap_app. simpl. rewrite <- app_assoc. done.
Qed.

(** The findings of the output have exactly the keys of the raw findings. *)
Lemma deduplicate_keys raws fail_on k :
  k ∈ finding_key <$> deduplicate raws fail_on ↔ k ∈ raw_key <$> raws.
Proof.
  unfold deduplicate. fold (dedup_loop fail_on raws ([], 0)).
  rewrite <- dedup_loop_consistent by done.
  rewrite dedup_loop_keys. simpl. split; [|by right].
  intros [Hk|?]; [|done]. by apply elem_of_nil in Hk.
Qed.

Lemma deduplicate_length raws fail_on :
  NoDup (raw_key <$> raws) → length (deduplicate raws fail_on) = length raws.
Proof.
  intros Hnd. unfold deduplicate. fold (dedup_loop fail_on raws ([], 0)).
  rewrite length_fmap, dedup_loop_length; [done|]. done.
Qed.

Lemma deduplicate_file raws fail_on f :
  f ∈ deduplicate raws fail_on → ∃ raw, raw ∈ raws ∧ raw_key raw = finding_key f.
Proof.
  intros Hf.
  assert (finding_key f ∈ raw_key <$> raws) as Hk.
  { apply (deduplicate_keys raws fail_on). by apply list_elem_of_fmap_2. }
  apply list_elem_of_fmap in Hk as (raw & Hk & Hin). eauto.
Qed.

End AggregatorFacts.

(** ** The aggregator: severities and the gate *)

Section AggregatorSeverity.
Context `{PyRuntime}.

Lemma SEVERITY_ORDER_nonneg sev : 0 ≤ SEVERITY_ORDER sev.
Proof. unfold SEVERITY_ORDER. repeat case_bool_decide; lia. Qed.

Lemma max_severity_order_nonneg k raws : 0 ≤ max_severity_order k raws.
Proof.
  induction raws as [|raw raws IH]; simpl; [lia|].
  case_bool_decide; [|done]. pose proof (SEVERITY_ORDER_nonneg (rf_severity raw)). lia.
Qed.

Lemma merge_raw_order existing raw :
  SEVERITY_ORDER (f_severity (merge_raw existing raw))
  = Z.max (SEVERITY_ORDER (f_severity existing)) (SEVERITY_ORDER (rf_severity raw)).
Proof.
  unfold merge_raw. simpl.
  destruct (Z.ltb_spec (SEVERITY_ORDER (f_severity existing))
              (SEVERITY_ORDER (rf_severity raw))); lia.
Qed.

(** The entries of the dictionary after an update. *)
Lemma merged_update_elem merged key raw merged' k f1 :
  NoDup merged.*1 →
  merged_update merged key raw = Some merged' →
  (k, f1) ∈ merged' →
  (k ≠ key ∧ (k, f1) ∈ merged)
  ∨ (k = key ∧ ∃ f, (k, f) ∈ merged ∧ f1 = merge_raw f raw).
Proof.
  revert merged'. induction merged as [|[k0 f0] merged IH]; intros merged' Hnd Hu Hin;
    simpl in *; [done|].
  apply NoDup_cons in Hnd as [Hk0 Hnd].
  case_bool_decide as Hk.
  - simplify_eq. apply elem_of_cons in Hin as [Hin|Hin].
    + simplify_eq. right. split; [done|]. exists f0. split; [apply list_elem_of_here|done].
    + left. split; [|by apply list_elem_of_further].
      intros ->. apply Hk0. by apply (list_elem_of_fmap_2 fst) in Hin.
  - destruct (merged_update merged key raw) as [m1|] eqn:E; simpl in Hu; [|done].
    simplify_eq. apply elem_of_cons in Hin as [Hin|Hin].
    + simplify_eq. left. split; [done|apply list_elem_of_here].
    + destruct (IH m1 Hnd eq_refl Hin) as [[Hne Hm]|[-> (f & Hm & ->)]].
      * left. split; [done|by apply list_elem_of_further].
      * right. split; [done|]. exists f. split; [by apply list_elem_of_further|done].
Qed.

(** The invariant of the loop of [deduplicate]. *)
Lemma dedup_loop_severity fail_on raws : ∀ merged counter k f',
  NoDup merged.*1 →
  (k, f') ∈ (dedup_loop fail_on raws (merged, counter)).1 →
  (∃ f, (k, f) ∈ merged
        ∧ SEVERITY_ORDER (f_severity f')
          = Z.max (SEVERITY_ORDER (f_severity f)) (max_severity_order k raws)
        ∧ f_is_blocking f' = f_is_blocking f)
  ∨ ((k ∉ merged.*1)
     ∧ SEVERITY_ORDER (f_severity f') = max_severity_order k raws
     ∧ ∃ first, first_of_key k raws = Some first
                ∧ f_is_blocking f' = severity_at_or_above (rf_severity first) fail_on).
Proof.
  unfold dedup_loop.
  induction raws as [|raw raws IH]; intros merged counter k f' Hnd Hin.
  { left. exists f'. simpl in *. split; [done|]. split; [|done].
    pose proof (SEVERITY_ORDER_nonneg (f_severity f')). lia. }
  simpl in Hin. simpl max_severity_order. simpl first_of_key.
  destruct (merged_update merged (raw_key raw) raw) as [merged1|] eqn:E.
  - destruct (merged_update_Some _ _ _ _ E) as (Hkeys & _).
    destruct (IH merged1 counter k f' ltac:(by rewrite Hkeys) Hin)
      as [(f1 & Hf1 & Hord & Hbl)|(Hk & Hord & first & Hfirst & Hbl)].
    + destruct (merged_update_elem _ _ _ _ _ _ Hnd E Hf1) as [[Hne Hm]|[-> (f & Hm & ->)]].
      * left. exists f1. rewrite bool_decide_eq_false_2 by done. done.
      * left. exists f. rewrite bool_decide_eq_true_2 by done.
        split; [done|]. split; [|done]. rewrite Hord, merge_raw_order. lia.
    + right. rewrite Hkeys in Hk.
      assert (raw_key raw ≠ k) as Hne.
      { intros <-. apply Hk. destruct (decide (raw_key raw ∈ merged.*1)) as [|Hn]; [done|].
        apply merged_update_None with (raw := raw) in Hn. congruence. }
      rewrite bool_decide_eq_false_2 by done. eauto.
  - apply merged_update_None in E.
    assert (NoDup (merged ++ [(raw_key raw, new_finding (counter + 1) raw fail_on)]).*1)
      as Hnd1.
    { rewrite fmap_app. apply NoDup_app. split; [done|]. split; [|apply NoDup_singleton].
      intros x Hx Hx'. apply list_elem_of_singleton in Hx'. by subst. }
    destruct (IH _ _ k f' Hnd1 Hin)
      as [(f1 & Hf1 & Hord & Hbl)|(Hk & Hord & first & Hfirst & Hbl)].
    + apply elem_of_app in Hf1 as [Hf1|Hf1].
      * left. exists f1.
        assert (raw_key raw ≠ k) as Hne.
        { intros <-. apply E. by apply (list_elem_of_fmap_2 fst) in Hf1. }
        rewrite bool_decide_eq_false_2 by done. done.
      * apply list_elem_of_singleton in Hf1. simplify_eq. right.
        rewrite bool_decide_eq_true_2 by done. split; [done|].
        split; [by rewrite Hord|]. exists raw. split; [done|]. by rewrite Hbl.
    + right. rewrite fmap_app in Hk. apply not_elem_of_app in Hk as [Hk Hk'].
      assert (raw_key raw ≠ k) as Hne.
      { intros <-. apply Hk'. apply list_elem_of_here. }
      rewrite bool_decide_eq_false_2 by done. eauto.
Qed.

(** What holds of the output of [deduplicate]: the ordinal of a finding's
    severity is the largest among the raw findings of its key, and its
    [is_blocking] flag is the gate applied to the severity of the first of
    them. *)
Lemma deduplicate_severity raws fail_on f :
  f ∈ deduplicate raws fail_on →
  SEVERITY_ORDER (f_severity f) = max_severity_order (finding_key f) raws
  ∧ ∃ first, first_of_key (finding_key f) raws = Some first
             ∧ f_is_blocking f = severity_at_or_above (rf_severity first) fail_on.
Proof.
  intros Hf. unfold deduplicate in Hf. fold (dedup_loop fail_on raws ([], 0)) in Hf.
  pose proof (dedup_loop_consistent fail_on raws ([], 0) eq_refl) as Hcons.
  apply list_elem_of_fmap in Hf as ([k f0] & -> & Hin). simpl.
  assert (k = finding_key f0) as ->.
  { apply list_elem_of_lookup in Hin as [i Hi].
    assert ((dedup_loop fail_on raws ([], 0)).1.*1 !! i = Some k) as H1
      by (by rewrite list_lookup_fmap, Hi).
    rewrite Hcons, <- list_fmap_compose, list_lookup_fmap, Hi in H1. by simplify_eq/=. }
  destruct (dedup_loop_severity fail_on raws [] 0 _ _ (NoDup_nil_2) Hin)
    as [(f1 & Hf1 & _)|(_ & Hord & Hfirst)]; [by apply elem_of_nil in Hf1|done].
Qed.

(** [scan] once the global allowlist has compiled: the diff is parsed
    before the [try], so that a [ValueError] of the parser leaves [scan]
    as it is; otherwise the main pass runs on the parsed items. *)
Lemma scan_run_compiled diff_text config registry ignorefile gl :
  compile_all (patterns (cfg_allowlist config)) true = Ok gl →
  scan_run diff_text config registry ignorefile =
  match parse diff_text with
  | Some _ =>
      scan_finish config (scan_pass (parse_items diff_text) config gl registry ignorefile)
  | None =>
      {| run_raw_findings := []; run_outcome := Err (PyException (py "ValueError")) |}
  end.
Proof. intros Hgl. unfold scan_run, parse_items. rewrite Hgl. by destruct (parse diff_text). Qed.

(** The main pass on no item does nothing. *)
Lemma scan_pass_nil config gl registry ignorefile :
  scan_pass [] config gl registry ignorefile = (scan_init, None).
Proof. reflexivity. Qed.

(** A scan that returns has compiled its allowlist and parsed its diff. *)
Lemma scan_Ok_inv diff_text config registry ignorefile r :
  scan diff_text config registry ignorefile = Ok r →
  ∃ gl items,
    compile_all (patterns (cfg_allowlist config)) true = Ok gl
    ∧ parse diff_text = Some items
    ∧ run_outcome (scan_finish config
                     (scan_pass (parse_items diff_text) config gl registry ignorefile))
      = Ok r.
Proof.
  unfold scan. intros Hr.
  destruct (compile_all (patterns (cfg_allowlist config)) true) as [gl|e] eqn:Hgl.
  2:{ unfold scan_run in Hr. by rewrite Hgl in Hr. }
  rewrite (scan_run_compiled _ _ _ _ _ Hgl) in Hr.
  destruct (parse diff_text) as [items|]; [|done]. by exists gl, items.
Qed.

(** [blocked] is [any(f.is_blocking for f in findings)]. *)
Lemma scan_blocked diff_text config registry ignorefile r :
  scan diff_text config registry ignorefile = Ok r →
  blocked r = true ↔ ∃ f, f ∈ findings r ∧ f_is_blocking f = true.
Proof.
  intros Hr. apply scan_Ok_inv in Hr as (gl & items & _ & _ & Hr).
  unfold scan_finish in Hr.
  destruct (scan_pass _ _ _ _ _) as [st [[]|]]; simplify_eq/=.
  rewrite existsb_exists. by setoid_rewrite list_elem_of_In.
Qed.

End AggregatorSeverity.

(** ** The engine: the error path *)

Lemma dec_digits_range fuel : ∀ n acc,
  Forall (λ c, 48 ≤ c ≤ 57)%N acc → Forall (λ c, 48 ≤ c ≤ 57)%N (dec_digits fuel n acc).
Proof.
  induction fuel as [|fuel IH]; intros n acc Hacc; [done|]. simpl.
  assert (Forall (λ c, 48 ≤ c ≤ 57)%N ((48 + n mod 10)%N :: acc)) as Hacc'.
  { constructor; [|done]. cbn beta.
    assert (n mod 10 < 10)%N as Hm by (apply N.mod_upper_bound; lia).
    revert Hm. generalize (n mod 10)%N. intros d Hd. lia. }
  destruct (n / 10 =? 0)%N; [done|]. by apply IH.
Qed.

Lemma dec_digits_value fuel : ∀ n acc,
  (0 < n)%N → (n < 2 ^ N.of_nat fuel)%N →
  read_decimal 0 (dec_digits fuel n acc) = read_decimal n acc.
Proof.
  unfold read_decimal.
  induction fuel as [|fuel IH]; intros n acc Hpos Hlt.
  { simpl in Hlt. lia. }
  cbn [dec_digits].
  assert (n = 10 * (n / 10) + n mod 10)%N as Hdm by (apply N.div_mod; lia).
  assert (n mod 10 < 10)%N as Hub by (apply N.mod_upper_bound; lia).
  assert (n / 10 < 2 ^ N.of_nat fuel)%N as Hq.
  { rewrite Nat2N.inj_succ, N.pow_succ_r' in Hlt.
    apply N.Div0.div_lt_upper_bound. revert Hlt. generalize (2 ^ N.of_nat fuel)%N. lia. }
  revert Hdm Hub Hq IH. generalize (n / 10)%N (n mod 10)%N. intros q d Hdm Hub Hq IH.
  destruct (N.eqb_spec q 0) as [Hz|Hnz].
  - cbn [fold_left]. f_equal. lia.
  - rewrite IH; [|lia|done]. cbn [fold_left]. f_equal. lia.
Qed.

(** [str(n)] is the decimal numeral of [n], and only digits. *)
Lemma str_of_N_spec n :
  read_decimal 0 (str_of_N n) = n ∧ Forall (λ c, 48 ≤ c ≤ 57)%N (str_of_N n).
Proof.
  split; [|by apply dec_digits_range].
  unfold str_of_N. destruct (N.eq_dec n 0%N) as [->|Hn]; [done|].
  rewrite dec_digits_value; [done|lia|].
  rewrite Nat2N.inj_succ, N2Nat.id. apply N.log2_spec. lia.
Qed.

Section EngineError.
Context `{PyRuntime}.

(** (C1, as amended) The error path of [scan]. Whenever the main pass
    raises an exception other than [ScanError], [scan] raises a [ScanError]
    whose message is ["Internal scanner error after N findings. Secrets
    have been scrubbed from this error."], where N is the number of raw
    findings accumulated when the exception was raised, written in
    decimal; the raw-findings list is emptied before the error propagates.
    The message is the fixed text around the digits of N and nothing else:
    it depends on the raw findings through their number only. *)
Theorem scan_error_scrubbed diff_text config registry ignorefile global_allowlist st name :
  compile_all (patterns (cfg_allowlist config)) true = Ok global_allowlist →
  scan_pass (parse_items diff_text) config global_allowlist registry ignorefile
    = (st, Some (PyException name)) →
  scan_run diff_text config registry ignorefile
    = {| run_raw_findings := [];
         run_outcome := Err (ScanError (scan_error_message (length (raw_findings st)))) |}
  ∧ ∃ digits,
      scan_error_message (length (raw_findings st))
      = py "Internal scanner error after " ++ digits
        ++ py " findings. Secrets have been scrubbed from this error."
      ∧ Forall (λ c, 48 ≤ c ≤ 57)%N digits
      ∧ read_decimal 0 digits = N.of_nat (length (raw_findings st)).
Proof.
  intros Hgl Hpass. split.
  - rewrite (scan_run_compiled _ _ _ _ _ Hgl).
    destruct (parse diff_text) as [items|] eqn:Ep; [by rewrite Hpass|].
    by rewrite (parse_items_None _ Ep), scan_pass_nil in Hpass.
  - exists (str_of_N (N.of_nat (length (raw_findings st)))).
    destruct (str_of_N_spec (N.of_nat (length (raw_findings st)))) as [Hv Hd].
    split; [|done].
    unfold scan_error_message, str_of_Z.
    destruct (Z.ltb_spec (Z.of_nat (length (raw_findings st))) 0) as [Hneg|_]; [lia|].
    rewrite <- nat_N_Z, N2Z.id. do 2 f_equal.
Qed.

End EngineError.

(** ** The engine: loops *)

Section EngineLoops.
Context `{PyRuntime}.

(** An invariant of the body is an invariant of the loop. *)
Lemma for_each_inv {A} (P : ScanState → Prop) (body : ScanState → A → ScanState * ctl)
    (xs : list A) : ∀ st,
  P st → (∀ st x, x ∈ xs → P st → P (body st x).1) → P (for_each body xs st).1.
Proof.
  induction xs as [|x xs IH]; intros st Hst Hbody; [done|]. simpl.
  pose proof (Hbody st x (list_elem_of_here _ _) Hst) as Hx.
  destruct (body st x) as [st' []]; simpl in *; [|done..].
  apply IH; [done|]. intros st1 y Hy. apply Hbody. by apply list_elem_of_further.
Qed.

(** A simulation between two loops: whenever the second body does not
    raise, the first ends its iteration the same way, in a related state. *)
Lemma for_each_sim {A B} (R : ScanState → ScanState → Prop) (Rel : A → B → Prop)
    (body : ScanState → A → ScanState * ctl) (body' : ScanState → B → ScanState * ctl)
    (xs : list A) (ys : list B) :
  Forall2 Rel xs ys →
  (∀ x y st st' s2 c2, Rel x y → R st st' → body' st' y = (s2, c2) →
     (∀ e, c2 ≠ Raise e) → ∃ s1, body st x = (s1, c2) ∧ R s1 s2) →
  ∀ st st' s2, R st st' → for_each body' ys st' = (s2, None) →
  ∃ s1, for_each body xs st = (s1, None) ∧ R s1 s2.
Proof.
  intros Hxs Hbody. induction Hxs as [|x y xs ys Hxy Hxs IH]; intros st st' s2 HR Hrun.
  { simpl in *. simplify_eq. eauto. }
  simpl in *. destruct (body' st' y) as [s2' c2] eqn:Ey.
  destruct c2 as [| |e]; [| |done].
  - destruct (Hbody x y st st' s2' Next Hxy HR Ey ltac:(done)) as (s1' & -> & HR').
    by apply (IH s1' s2').
  - destruct (Hbody x y st st' s2' Break Hxy HR Ey ltac:(done)) as (s1' & -> & HR').
    simplify_eq. eauto.
Qed.

Lemma Forall2_same {A} (l : list A) : Forall2 (λ x y, x = y ∧ x ∈ l) l l.
Proof.
  assert (∀ l', l' ⊆ l → Forall2 (λ x y, x = y ∧ x ∈ l) l' l') as Hgen.
  { induction l' as [|x l' IH]; intros Hsub; constructor.
    - split; [done|]. apply Hsub, list_elem_of_here.
    - apply IH. intros y Hy. apply Hsub. by apply list_elem_of_further. }
  by apply Hgen.
Qed.

Lemma is_suppressed_file checker file line_no rule_id sup :
  is_suppressed checker file line_no rule_id = Some sup → sup_file sup = file.
Proof.
  unfold is_suppressed. intros Hs. repeat case_match; by simplify_eq.
Qed.

Lemma grows_on_refl file st : grows_on file st st.
Proof. unfold grows_on. naive_solver. Qed.

Lemma grows_on_add_raw file st0 st raw :
  grows_on file st0 st → rf_file raw = file → grows_on file st0 (add_raw st raw).
Proof.
  intros (Hr & Hs & Hsc & Hig) Hf. split; [|done]. simpl. intros raw' Hin.
  apply elem_of_app in Hin as [Hin|Hin]; [by apply Hr|].
  apply list_elem_of_singleton in Hin. subst. by right.
Qed.

Lemma grows_on_add_suppression file st0 st sup :
  grows_on file st0 st → sup_file sup = file → grows_on file st0 (add_suppression st sup).
Proof.
  intros (Hr & Hs & Hsc & Hig) Hf. split; [done|]. split; [|done]. simpl. intros sup' Hin.
  apply elem_of_app in Hin as [Hin|Hin]; [by apply Hs|].
  apply list_elem_of_singleton in Hin. subst. by right.
Qed.

Section Footprint.
Variable config : GitSafeConfig.
Variable global_allowlist : list Pattern.
Variable ignorefile : GitSafeIgnore.
Variable checker : SuppressionChecker.

Lemma scan_file_rule_grows filepath st0 st rule :
  grows_on filepath st0 st → grows_on filepath st0 (scan_file_rule filepath st rule).1.
Proof.
  intros Hg. unfold scan_file_rule. repeat case_match; simpl; try done.
  by apply grows_on_add_raw.
Qed.

Lemma scan_content_rule_grows filepath line_no content st0 st rule :
  grows_on filepath st0 st →
  grows_on filepath st0
    (scan_content_rule config global_allowlist ignorefile checker
       filepath line_no content st rule).1.
Proof.
  intros Hg. unfold scan_content_rule. repeat case_match; simpl; try done.
  all: first [ by apply grows_on_add_raw
             | apply grows_on_add_suppression; [done|]; by eapply is_suppressed_file ].
Qed.

Lemma scan_entropy_hit_grows filepath line_no st0 st hit :
  grows_on filepath st0 st →
  grows_on filepath st0
    (scan_entropy_hit global_allowlist ignorefile checker filepath line_no st hit).1.
Proof.
  intros Hg. unfold scan_entropy_hit. destruct hit as [candidate entropy_val].
  repeat case_match; simpl; try done.
  all: first [ by apply grows_on_add_raw
             | apply grows_on_add_suppression; [done|]; by eapply is_suppressed_file ].
Qed.

End Footprint.

End EngineLoops.

(** ** The engine: ignored files *)

Section EngineIgnored.
Context `{PyRuntime}.
Variable config : GitSafeConfig.
Variable global_allowlist : list Pattern.
Variable ignorefile : GitSafeIgnore.
Variable checker : SuppressionChecker.
Variable the_content_rules : list Rule.
Variable the_file_rules : list Rule.

Local Abbreviation scan_item' st item :=
  (scan_item config global_allowlist ignorefile checker the_content_rules the_file_rules
     st item).
Local Abbreviation main_pass' items st :=
  (main_pass config global_allowlist ignorefile checker the_content_rules the_file_rules
     items st).

(** An added line leaves the state alone or adds to it for its own file. *)
Lemma scan_item_line_grows st dl :
((scan_item' st (ItLine dl)).1 = st)
  ∨ ((dl_file dl ∉ ignored_files_set st)
     ∧ grows_on (dl_file dl) (add_scanned st (dl_file dl)) (scan_item' st (ItLine dl)).1).
Proof.
  unfold scan_item. destruct (negb _); [by left|].
  case_bool_decide as Hig; [by left|]. right. split; [done|].
  set (st0 := add_scanned st (dl_file dl)).
  pose proof (for_each_inv (grows_on (dl_file dl) st0)
                (scan_content_rule config global_allowlist ignorefile checker
                   (dl_file dl) (dl_line_no dl) (dl_content dl))
                the_content_rules st0 (grows_on_refl _ _)
                (λ st1 x _ Hg, scan_content_rule_grows _ _ _ _ _ _ _ _ _ _ Hg)) as H1.
  destruct (for_each _ the_content_rules st0) as [st1 [e|]]; [done|]. simpl in H1.
  match goal with |- context [for_each ?body ?hits st1] =>
    pose proof (for_each_inv (grows_on (dl_file dl) st0) body hits st1 H1
                  (λ st2 x _ Hg, scan_entropy_hit_grows _ _ _ _ _ _ _ _ Hg)) as H2;
    destruct (for_each body hits st1) as [st2 [e|]]; done
  end.
Qed.

(** A [FileEnter] marks the file ignored, or scans it under the file rules. *)
Lemma scan_item_file_cases st df :
  (ignored_path config ignorefile (df_path df) = true
   ∧ ∃ entry, (scan_item' st (ItFile df)).1
              = add_ignored (add_skipped st entry) (df_path df))
  ∨ (ignored_path config ignorefile (df_path df) = false
     ∧ grows_on (df_path df) (add_scanned st (df_path df)) (scan_item' st (ItFile df)).1).
Proof.
  unfold scan_item, ignored_path.
  destruct (existsb _ (ignore_globs config)) eqn:E1; [left; split; [done|by eexists]|].
  destruct (is_ignored ignorefile (df_path df) None) eqn:E2;
    [left; split; [done|by eexists]|].
  right. split; [done|].
  set (st0 := add_scanned st (df_path df)).
  pose proof (for_each_inv (grows_on (df_path df) st0) (scan_file_rule (df_path df))
                the_file_rules st0 (grows_on_refl _ _)
                (λ st1 x _ Hg, scan_file_rule_grows _ _ _ _ Hg)) as H1.
  by destruct (for_each _ the_file_rules st0) as [st1 [e|]].
Qed.

Lemma clean_grows path file st st' :
  file ≠ path → clean path st → grows_on file (add_scanned st file) st' → clean path st'.
Proof.
  intros Hne (Hr & Hs & Hsc) (Gr & Gs & Gsc & Gig). split; [|split].
  - intros raw Hin. destruct (Gr raw Hin) as [Hold| ->]; [by apply Hr|done].
  - intros sup Hin. destruct (Gs sup Hin) as [Hold| ->]; [by apply Hs|done].
  - rewrite Gsc. simpl. intros Hin. apply elem_of_union in Hin as [Hin|Hin]; [|done].
    apply elem_of_singleton in Hin. by subst.
Qed.

(** The files marked ignored are files that the configuration or the
    ignore file ignores. *)
Lemma main_pass_ignored items st p :
  p ∈ ignored_files_set (main_pass' items st).1 →
  p ∈ ignored_files_set st ∨ ignored_path config ignorefile p = true.
Proof.
  unfold main_pass.
  apply (for_each_inv
           (λ st', p ∈ ignored_files_set st' →
                   p ∈ ignored_files_set st ∨ ignored_path config ignorefile p = true)).
  { by left. }
  intros st1 item _ IH Hp. destruct item as [dl|df|sk].
  - destruct (scan_item_line_grows st1 dl) as [Heq|[_ (_ & _ & _ & Hig)]].
    + rewrite Heq in Hp. by apply IH.
    + rewrite Hig in Hp. by apply IH.
  - destruct (scan_item_file_cases st1 df) as [[Hi [entry Heq]]|[_ (_ & _ & _ & Hig)]].
    + rewrite Heq in Hp. simpl in Hp. apply elem_of_union in Hp as [Hp|Hp]; [|by apply IH].
      apply elem_of_singleton in Hp. subst. by right.
    + rewrite Hig in Hp. by apply IH.
  - simpl in Hp. by apply IH.
Qed.

Section Path.
Variable path : pystr.
Hypothesis path_ignored : ignored_path config ignorefile path = true.

Lemma scan_item_clean item rest st :
  clean path st →
  path ∈ ignored_files_set st ∨ entered_first path (item :: rest) = true →
  clean path (scan_item' st item).1
  ∧ (path ∈ ignored_files_set (scan_item' st item).1 ∨ entered_first path rest = true).
Proof.
  intros Hcl Hor. destruct item as [dl|df|sk].
  - assert (path ∈ ignored_files_set st ∨
            (dl_file dl ≠ path ∧ entered_first path rest = true)) as Hor'.
    { destruct Hor as [?|He]; [by left|]. right. simpl in He.
      apply andb_true_iff in He as [He1 He2]. split; [|done].
      apply negb_true_iff in He1. by apply bool_decide_eq_false in He1. }
    destruct (scan_item_line_grows st dl) as [Heq|[Hni Hg]].
    + rewrite Heq. split; [done|]. destruct Hor' as [?|[_ ?]]; [by left|by right].
    + assert (dl_file dl ≠ path) as Hne.
      { destruct Hor' as [Hin|[? _]]; [|done]. intros Heq. by rewrite Heq in Hni. }
      split; [by eapply clean_grows|].
      destruct Hg as (_ & _ & _ & ->). simpl.
      destruct Hor' as [?|[_ ?]]; [by left|by right].
  - destruct (scan_item_file_cases st df) as [[Hi [entry Heq]]|[Hi Hg]].
    + rewrite Heq. split.
      * destruct Hcl as (Hr & Hs & Hsc). by split; [|split].
      * simpl. destruct Hor as [?|He]; [left; set_solver|].
        simpl in He. apply orb_true_iff in He as [He|He]; [|by right].
        apply bool_decide_eq_true in He. left. set_solver.
    + assert (df_path df ≠ path) as Hne by (intros Heq; congruence).
      split; [by eapply clean_grows|].
      destruct Hg as (_ & _ & _ & ->). simpl.
      destruct Hor as [?|He]; [by left|].
      simpl in He. apply orb_true_iff in He as [He|He]; [|by right].
      by apply bool_decide_eq_true in He.
  - simpl. split; [|done]. destruct Hcl as (Hr & Hs & Hsc). by split; [|split].
Qed.

Lemma main_pass_clean items : ∀ st,
  clean path st →
  path ∈ ignored_files_set st ∨ entered_first path items = true →
  clean path (main_pass' items st).1.
Proof.
  unfold main_pass.
  induction items as [|item rest IH]; intros st Hcl Hor; [done|]. simpl.
  destruct (scan_item_clean item rest st Hcl Hor) as [Hcl' Hor'].
  destruct (scan_item' st item) as [st' []]; simpl in *; [|done..].
  by apply IH.
Qed.

End Path.

End EngineIgnored.

Section EngineIgnoredTheorem.
Context `{PyRuntime}.

Lemma clean_init path : clean path scan_init.
Proof.
  split; [|split]; simpl.
  - intros raw Hin. by apply elem_of_nil in Hin.
  - intros sup Hin. by apply elem_of_nil in Hin.
  - set_solver.
Qed.

(** (C10, as amended) Ignored files. A file path that [scan] marks as
    ignored contributes nothing to the result but entries of
    [skipped_files], provided no line of that path comes in the parsed
    stream before the path's first [FileEnter] (which the parser does not
    guarantee: [+] lines after a binary or mode-only [FileSkipped] carry
    the skipped path): then no finding and no suppression of the result
    has that path as its file, and the path is not in the set that
    [scanned_files] counts. *)
Theorem ignored_file_contributes_nothing
    diff_text config registry ignorefile global_allowlist st path :
  compile_all (patterns (cfg_allowlist config)) true = Ok global_allowlist →
  scan_pass (parse_items diff_text) config global_allowlist registry ignorefile
    = (st, None) →
  path ∈ ignored_files_set st →
  entered_first path (parse_items diff_text) = true →
  ∃ r, scan diff_text config registry ignorefile = Ok r
       ∧ (∀ f, f ∈ findings r → f_file f ≠ path)
       ∧ (∀ sup, sup ∈ suppressed r → sup_file sup ≠ path)
       ∧ (path ∉ scanned_files_set st)
       ∧ scanned_files r = size (scanned_files_set st).
Proof.
  intros Hgl Hpass Hin Hfirst.
  unfold scan. rewrite (scan_run_compiled _ _ _ _ _ Hgl).
  destruct (parse diff_text) as [items|] eqn:Ep.
  2:{ rewrite (parse_items_None _ Ep), scan_pass_nil in Hpass.
      injection Hpass as <-. by apply elem_of_empty in Hin. }
  rewrite Hpass. simpl. eexists. split; [done|]. simpl.
  unfold scan_pass in Hpass.
  assert (ignored_path config ignorefile path = true) as Hpath.
  { pose proof (main_pass_ignored config global_allowlist ignorefile
                  (build_checker (build_file_lines (parse_items diff_text)))
                  (content_rules registry) (file_rules registry)
                  (parse_items diff_text) scan_init path) as Hp.
    rewrite Hpass in Hp. destruct (Hp Hin) as [Habs|?]; [|done]. simpl in Habs. set_solver. }
  pose proof (main_pass_clean config global_allowlist ignorefile
                (build_checker (build_file_lines (parse_items diff_text)))
                (content_rules registry) (file_rules registry) path Hpath
                (parse_items diff_text) scan_init (clean_init path) (or_intror Hfirst))
    as Hcl.
  rewrite Hpass in Hcl. destruct Hcl as (Hr & Hs & Hsc).
  split; [|done].
  intros f Hf. apply deduplicate_file in Hf as (raw & Hraw & Hk).
  unfold raw_key, finding_key in Hk. simplify_eq.
  intros Hfp. apply (Hr raw Hraw). congruence.
Qed.

End EngineIgnoredTheorem.

(** ** The engine: the global allowlist *)

(** Closes a case in which an iteration assumed not to raise raises. *)
Ltac not_raised Hc :=
  simplify_eq; exfalso; eapply Hc; reflexivity.

Section EngineAllowlist.
Context `{PyRuntime}.

Lemma compile_all_app ps1 ps2 ic gs :
  compile_all (ps1 ++ ps2) ic = Ok gs →
  ∃ g1 g2, compile_all ps1 ic = Ok g1 ∧ compile_all ps2 ic = Ok g2 ∧ gs = g1 ++ g2.
Proof.
  revert gs. induction ps1 as [|p ps1 IH]; intros gs Hc; simpl in *.
  - by exists [], gs.
  - destruct (re_compile p ic) as [cp|]; [|done].
    destruct (compile_all (ps1 ++ ps2) ic) as [gs'|] eqn:E; [|done]. simplify_eq.
    destruct (IH gs' eq_refl) as (g1 & g2 & -> & H2 & ->). by exists (cp :: g1), g2.
Qed.

Lemma compile_all_app_2 ps1 ps2 ic g1 g2 :
  compile_all ps1 ic = Ok g1 → compile_all ps2 ic = Ok g2 →
  compile_all (ps1 ++ ps2) ic = Ok (g1 ++ g2).
Proof.
  revert g1. induction ps1 as [|p ps1 IH]; intros g1 H1 H2; simpl in *.
  - by simplify_eq.
  - destruct (re_compile p ic) as [cp|]; [|done].
    destruct (compile_all ps1 ic) as [g1'|] eqn:E; [|done]. simplify_eq.
    by rewrite (IH g1' eq_refl H2).
Qed.

Lemma search_any_Some t ps :
  search_any (Some t) ps
  = Ok (existsb (λ p, match re_search p t with Some _ => true | None => false end) ps).
Proof.
  induction ps as [|p ps IH]; [done|]. simpl. by destruct (re_search p t).
Qed.

(** A longer allowlist allows more. *)
Lemma search_any_insert g1 cp g2 text b' :
  search_any text (g1 ++ cp :: g2) = Ok b' →
  ∃ b, search_any text (g1 ++ g2) = Ok b ∧ (b = true → b' = true).
Proof.
  destruct text as [t|].
  - rewrite !search_any_Some, !existsb_app. simpl. intros [= <-].
    eexists. split; [done|]. intros Hb.
    apply orb_true_iff in Hb as [Hb|Hb]; rewrite Hb; [done|]. by rewrite !orb_true_r.
  - destruct g1; done.
Qed.

Lemma covers_refl st : covers st st.
Proof. by unfold covers. Qed.

Lemma subseteq_snoc {A} (l l' : list A) x : l' ⊆ l → l' ++ [x] ⊆ l ++ [x].
Proof.
  intros Hl y Hy. apply elem_of_app in Hy as [Hy|Hy]; apply elem_of_app; [left|right]; auto.
Qed.

Lemma subseteq_snoc_l {A} (l l' : list A) x : l' ⊆ l → l' ⊆ l ++ [x].
Proof. intros Hl y Hy. apply elem_of_app. left. auto. Qed.

Lemma covers_add_raw st st' raw :
  covers st st' → covers (add_raw st raw) (add_raw st' raw).
Proof. intros (Hr & Hs & ?). split; [|done]. by apply subseteq_snoc. Qed.

Lemma covers_add_raw_l st st' raw : covers st st' → covers (add_raw st raw) st'.
Proof. intros (Hr & Hs & ?). split; [|done]. by apply subseteq_snoc_l. Qed.

Lemma covers_add_suppression st st' sup :
  covers st st' → covers (add_suppression st sup) (add_suppression st' sup).
Proof. intros (Hr & Hs & ?). split; [done|]. split; [|done]. by apply subseteq_snoc. Qed.

Lemma covers_add_suppression_l st st' sup :
  covers st st' → covers (add_suppression st sup) st'.
Proof. intros (Hr & Hs & ?). split; [done|]. split; [|done]. by apply subseteq_snoc_l. Qed.

Lemma covers_add_scanned st st' file :
  covers st st' → covers (add_scanned st file) (add_scanned st' file).
Proof. intros (Hr & Hs & Hk & Hsc & Hig). unfold covers. simpl. by rewrite Hsc. Qed.

Lemma covers_add_skipped st st' entry :
  covers st st' → covers (add_skipped st entry) (add_skipped st' entry).
Proof. intros (Hr & Hs & Hk & Hsc & Hig). unfold covers. simpl. by rewrite Hk. Qed.

Lemma covers_add_ignored st st' file :
  covers st st' → covers (add_ignored st file) (add_ignored st' file).
Proof. intros (Hr & Hs & Hk & Hsc & Hig). unfold covers. simpl. by rewrite Hig. Qed.

Section Simulation.
Variable config : GitSafeConfig.
Variables gl gl' : list Pattern.
Variable ignorefile : GitSafeIgnore.
Variable checker : SuppressionChecker.
Variable the_content_rules : list Rule.
Variable the_file_rules : list Rule.
Hypothesis no_early_exit : early_exit (cfg_scan config) = false.
Hypothesis no_breaker : max_findings (cfg_ci config) = None.
Hypothesis allows_more : ∀ text b',
  search_any text gl' = Ok b' → ∃ b, search_any text gl = Ok b ∧ (b = true → b' = true).

Lemma scan_content_rule_covers filepath line_no content rule st st' s2 c2 :
  covers st st' →
  scan_content_rule config gl' ignorefile checker filepath line_no content st' rule
    = (s2, c2) →
  (∀ e, c2 ≠ Raise e) →
  ∃ s1, scan_content_rule config gl ignorefile checker filepath line_no content st rule
        = (s1, c2) ∧ covers s1 s2.
Proof.
  intros Hcov Hrun Hc. unfold scan_content_rule, _match_global_allowlist in *.
  rewrite no_early_exit in *. cbn [andb] in *.
  destruct (is_entropy_rule rule); [simplify_eq; eauto|].
  destruct (compiled_pattern rule) as [[cp|]|e]; [|simplify_eq; eauto|not_raised Hc].
  destruct (re_search cp content) as [m|]; [|simplify_eq; eauto].
  destruct (_match_rule_allowlist _ rule) as [[]|e]; [simplify_eq; eauto| |not_raised Hc].
  destruct (search_any _ gl') as [b'|e] eqn:E'; [|not_raised Hc].
  destruct (allows_more _ _ E') as (b & -> & Hb).
  destruct b.
  { rewrite Hb in Hrun by done. simplify_eq. eauto. }
  destruct (is_ignored ignorefile filepath (Some (id rule))).
  { destruct b'; simplify_eq; eauto. }
  destruct (is_suppressed checker filepath line_no (id rule)) as [sup|].
  - destruct b'; simplify_eq; eauto using covers_add_suppression, covers_add_suppression_l.
  - destruct b'; simplify_eq; eauto using covers_add_raw, covers_add_raw_l.
Qed.

Lemma scan_entropy_hit_covers filepath line_no hit st st' s2 c2 :
  covers st st' →
  scan_entropy_hit gl' ignorefile checker filepath line_no st' hit = (s2, c2) →
  (∀ e, c2 ≠ Raise e) →
  ∃ s1, scan_entropy_hit gl ignorefile checker filepath line_no st hit = (s1, c2)
        ∧ covers s1 s2.
Proof.
  intros Hcov Hrun Hc. unfold scan_entropy_hit, _match_global_allowlist in *.
  destruct hit as [candidate entropy_val].
  destruct (search_any _ gl') as [b'|e] eqn:E'; [|not_raised Hc].
  destruct (allows_more _ _ E') as (b & -> & Hb).
  destruct b.
  { rewrite Hb in Hrun by done. simplify_eq. eauto. }
  destruct (is_ignored ignorefile filepath (Some HIGH_ENTROPY_STRING)).
  { destruct b'; simplify_eq; eauto. }
  destruct (is_suppressed checker filepath line_no HIGH_ENTROPY_STRING) as [sup|].
  - destruct b'; simplify_eq; eauto using covers_add_suppression, covers_add_suppression_l.
  - destruct b'; simplify_eq; eauto using covers_add_raw, covers_add_raw_l.
Qed.

Lemma scan_file_rule_covers filepath rule st st' s2 c2 :
  covers st st' →
  scan_file_rule filepath st' rule = (s2, c2) →
  ∃ s1, scan_file_rule filepath st rule = (s1, c2) ∧ covers s1 s2.
Proof.
  intros Hcov Hrun. unfold scan_file_rule in *.
  repeat case_match; simplify_eq; eauto using covers_add_raw.
Qed.

Lemma scan_item_covers item st st' s2 c2 :
  covers st st' →
  scan_item config gl' ignorefile checker the_content_rules the_file_rules st' item
    = (s2, c2) →
  (∀ e, c2 ≠ Raise e) →
  ∃ s1, scan_item config gl ignorefile checker the_content_rules the_file_rules st item
        = (s1, c2) ∧ covers s1 s2.
Proof.
  intros Hcov Hrun Hc. destruct item as [dl|df|sk]; unfold scan_item in *.
  - destruct (negb _); [simplify_eq; eauto|].
    assert (ignored_files_set st' = ignored_files_set st) as Hig by apply Hcov.
    rewrite Hig in Hrun.
    case_bool_decide; [simplify_eq; eauto|].
    destruct (for_each _ the_content_rules (add_scanned st' _)) as [s1' [e|]] eqn:E1;
      [not_raised Hc|].
    eapply (for_each_sim covers _ _ _ _ _ (Forall2_same the_content_rules)) in E1
      as (s1 & -> & Hcov1); [| |by apply covers_add_scanned].
    2:{ intros x y sa sb sc cc [-> _]. apply scan_content_rule_covers. }
    match type of Hrun with context [for_each ?body ?hits s1'] =>
      destruct (for_each body hits s1') as [s2' [e|]] eqn:E2; [not_raised Hc|] end.
    eapply (for_each_sim covers _ _ _ _ _ (Forall2_same _)) in E2
      as (s2'' & -> & Hcov2); [| |exact Hcov1].
    2:{ intros x y sa sb sc cc [-> _]. apply scan_entropy_hit_covers. }
    unfold circuit_breaker in *. rewrite no_breaker in *. simplify_eq. eauto.
  - destruct (existsb _ (ignore_globs config)).
    { simplify_eq. eauto using covers_add_ignored, covers_add_skipped. }
    destruct (is_ignored ignorefile (df_path df) None).
    { simplify_eq. eauto using covers_add_ignored, covers_add_skipped. }
    destruct (for_each _ the_file_rules (add_scanned st' _)) as [s1' [e|]] eqn:E1;
      [not_raised Hc|].
    eapply (for_each_sim covers _ _ _ _ _ (Forall2_same the_file_rules)) in E1
      as (s1 & -> & Hcov1); [| |by apply covers_add_scanned].
    2:{ intros x y sa sb sc cc [-> _] Hab Hr _. by eapply scan_file_rule_covers. }
    simplify_eq. eauto.
  - simplify_eq. eauto using covers_add_skipped.
Qed.

Lemma main_pass_covers items st st' s2 :
  covers st st' →
  main_pass config gl' ignorefile checker the_content_rules the_file_rules items st'
    = (s2, None) →
  ∃ s1, main_pass config gl ignorefile checker the_content_rules the_file_rules items st
        = (s1, None) ∧ covers s1 s2.
Proof.
  intros Hcov Hrun. unfold main_pass in *.
  eapply (for_each_sim covers _ _ _ _ _ (Forall2_same items)); [|done..].
  intros x y sa sb sc cc [-> _]. apply scan_item_covers.
Qed.

End Simulation.

(** (C3, as amended) Allowlist safety. With [early_exit] off and
    [ci.max_findings] unset, adding one pattern to the global allowlist
    only removes findings: when the scan with the extended configuration
    returns, so does the scan with the original one, and every finding of
    the former has the key [(rule_id, file, line_no)] of a finding of the
    latter; the suppressions of the former are suppressions of the latter,
    and the skipped and the scanned files are the same. *)
Theorem allowlist_only_removes diff_text config registry ignorefile ps1 p ps2 r' :
  patterns (cfg_allowlist config) = ps1 ++ ps2 →
  early_exit (cfg_scan config) = false →
  max_findings (cfg_ci config) = None →
  scan diff_text (with_allowlist config (ps1 ++ p :: ps2)) registry ignorefile = Ok r' →
  ∃ r, scan diff_text config registry ignorefile = Ok r
       ∧ (∀ f', f' ∈ findings r' → ∃ f, f ∈ findings r ∧ finding_key f = finding_key f')
       ∧ suppressed r' ⊆ suppressed r
       ∧ skipped_files r' = skipped_files r
       ∧ scanned_files r' = scanned_files r.
Proof.
  intros Hps Hee Hmx Hrun. unfold scan, scan_run in *. cbn [with_allowlist cfg_allowlist patterns] in Hrun.
  destruct (compile_all (ps1 ++ p :: ps2) true) as [gl'|] eqn:Egl'; [|done].
  apply compile_all_app in Egl' as (g1 & g2' & Hg1 & Hg2' & ->).
  simpl in Hg2'. destruct (re_compile p true) as [cp|]; [|done].
  destruct (compile_all ps2 true) as [g2|] eqn:Hg2; [|done]. simplify_eq.
  rewrite Hps, (compile_all_app_2 _ _ _ _ _ Hg1 Hg2).
  destruct (parse diff_text) as [items|]; [|done].
  unfold scan_pass in *.
  destruct (main_pass (with_allowlist config _) _ _ _ _ _ _ _) as [st' [e|]] eqn:Epass.
  { destruct e; done. }
  change (main_pass (with_allowlist config (ps1 ++ p :: ps2)))
    with (main_pass config) in Epass.
  eapply (main_pass_covers config (g1 ++ g2)) in Epass as (st & -> & Hcov);
    [|done|done|apply search_any_insert|apply covers_refl].
  destruct Hcov as (Hr & Hs & Hk & Hsc & Hig).
  simpl in Hrun. simplify_eq. eexists. split; [done|]. simpl.
  split; [|split; [done|split; [done|by rewrite Hsc]]].
  intros f' Hf'. apply deduplicate_file in Hf' as (raw & Hraw & Hkey).
  assert (raw_key raw ∈ finding_key <$> deduplicate (raw_findings st)
                                          (fail_on (cfg_scan config))) as Hin.
  { apply (deduplicate_keys (raw_findings st)). apply list_elem_of_fmap_2. by apply Hr. }
  apply list_elem_of_fmap in Hin as (f & Hf & Hfin). exists f. split; [done|]. congruence.
Qed.

End EngineAllowlist.

(** ** The engine: suppressions and findings *)

Section EngineSuppression.
Context `{PyRuntime}.

Lemma same_total_refl st : same_total st st.
Proof. by unfold same_total. Qed.

Lemma same_total_raw_raw st st' raw raw' :
  same_total st st' → same_total (add_raw st raw) (add_raw st' raw').
Proof. intros (Hn & ?). split; [|done]. simpl. rewrite !length_app. simpl. lia. Qed.

Lemma same_total_raw_sup st st' raw sup :
  same_total st st' → same_total (add_raw st raw) (add_suppression st' sup).
Proof. intros (Hn & ?). split; [|done]. simpl. rewrite !length_app. simpl. lia. Qed.

Lemma same_total_sup_raw st st' raw sup :
  same_total st st' → same_total (add_suppression st sup) (add_raw st' raw).
Proof. intros (Hn & ?). split; [|done]. simpl. rewrite !length_app. simpl. lia. Qed.

Lemma same_total_sup_sup st st' sup sup' :
  same_total st st' → same_total (add_suppression st sup) (add_suppression st' sup').
Proof. intros (Hn & ?). split; [|done]. simpl. rewrite !length_app. simpl. lia. Qed.

Lemma same_total_add_scanned st st' file :
  same_total st st' → same_total (add_scanned st file) (add_scanned st' file).
Proof. intros (Hn & Hk & Hsc & Hig). unfold same_total. simpl. by rewrite Hsc. Qed.

Lemma same_total_add_skipped st st' entry :
  same_total st st' → same_total (add_skipped st entry) (add_skipped st' entry).
Proof. intros (Hn & Hk & Hsc & Hig). unfold same_total. simpl. by rewrite Hk. Qed.

Lemma same_total_add_ignored st st' file :
  same_total st st' → same_total (add_ignored st file) (add_ignored st' file).
Proof. intros (Hn & Hk & Hsc & Hig). unfold same_total. simpl. by rewrite Hig. Qed.

Section Simulation.
Variable config : GitSafeConfig.
Variable registry : list Rule.
Variable global_allowlist : list Pattern.
Variable ignorefile : GitSafeIgnore.
Variables checker checker' : SuppressionChecker.
Variable the_file_rules : list Rule.
Hypothesis no_early_exit : early_exit (cfg_scan config) = false.
Hypothesis no_breaker : max_findings (cfg_ci config) = None.

(** The run on [content], with [checker] and in [st], is the one assumed
    not to raise; the run on [content'], with [checker'] and in [st'], is
    the one that follows it. *)
Lemma scan_content_rule_total filepath line_no content content' rule st st' s2 c2 :
  same_total st st' →
  (∀ cp, compiled_pattern rule = Ok (Some cp) → re_search cp content' = re_search cp content) →
  scan_content_rule config global_allowlist ignorefile checker
    filepath line_no content st rule = (s2, c2) →
  (∀ e, c2 ≠ Raise e) →
  ∃ s1, scan_content_rule config global_allowlist ignorefile checker'
          filepath line_no content' st' rule = (s1, c2)
        ∧ same_total s2 s1.
Proof.
  intros Hst Hsame Hrun Hc. unfold scan_content_rule in *.
  rewrite no_early_exit in *. cbn [andb] in *.
  destruct (is_entropy_rule rule); [simplify_eq; eauto|].
  destruct (compiled_pattern rule) as [[cp|]|e]; [|simplify_eq; eauto|not_raised Hc].
  rewrite (Hsame cp eq_refl).
  destruct (re_search cp content) as [m|]; [|simplify_eq; eauto].
  destruct (_match_rule_allowlist _ rule) as [[]|e]; [simplify_eq; eauto| |not_raised Hc].
  destruct (_match_global_allowlist _ global_allowlist) as [[]|e];
    [simplify_eq; eauto| |not_raised Hc].
  destruct (is_ignored ignorefile filepath (Some (id rule))); [simplify_eq; eauto|].
  destruct (is_suppressed checker filepath line_no (id rule)) as [sup|];
    destruct (is_suppressed checker' filepath line_no (id rule)) as [sup'|];
    simplify_eq;
    eauto using same_total_raw_raw, same_total_raw_sup, same_total_sup_raw,
      same_total_sup_sup.
Qed.

Lemma scan_entropy_hit_total filepath line_no hit st st' s2 c2 :
  same_total st st' →
  scan_entropy_hit global_allowlist ignorefile checker filepath line_no st hit = (s2, c2) →
  (∀ e, c2 ≠ Raise e) →
  ∃ s1, scan_entropy_hit global_allowlist ignorefile checker' filepath line_no st' hit
        = (s1, c2)
        ∧ same_total s2 s1.
Proof.
  intros Hst Hrun Hc. unfold scan_entropy_hit in *. destruct hit as [candidate entropy_val].
  destruct (_match_global_allowlist _ global_allowlist) as [[]|e];
    [simplify_eq; eauto| |not_raised Hc].
  destruct (is_ignored ignorefile filepath (Some HIGH_ENTROPY_STRING)); [simplify_eq; eauto|].
  destruct (is_suppressed checker filepath line_no HIGH_ENTROPY_STRING) as [sup|];
    destruct (is_suppressed checker' filepath line_no HIGH_ENTROPY_STRING) as [sup'|];
    simplify_eq;
    eauto using same_total_raw_raw, same_total_raw_sup, same_total_sup_raw,
      same_total_sup_sup.
Qed.

Lemma scan_file_rule_total filepath rule st st' s2 c2 :
  same_total st st' →
  scan_file_rule filepath st rule = (s2, c2) →
  ∃ s1, scan_file_rule filepath st' rule = (s1, c2) ∧ same_total s2 s1.
Proof.
  intros Hst Hrun. unfold scan_file_rule in *.
  repeat case_match; simplify_eq; eauto using same_total_raw_raw.
Qed.

Lemma scan_item_total item item' st st' s2 c2 :
  same_matches_item config registry item item' →
  same_total st st' →
  scan_item config global_allowlist ignorefile checker
    (content_rules registry) the_file_rules st item = (s2, c2) →
  (∀ e, c2 ≠ Raise e) →
  ∃ s1, scan_item config global_allowlist ignorefile checker'
          (content_rules registry) the_file_rules st' item' = (s1, c2)
        ∧ same_total s2 s1.
Proof.
  intros Hitem Hst Hrun Hc.
  assert (∀ dl dl', dl_file dl' = dl_file dl → dl_line_no dl' = dl_line_no dl →
            dl_line_type dl' = dl_line_type dl →
            same_matches config registry (dl_content dl) (dl_content dl') →
            scan_item config global_allowlist ignorefile checker
              (content_rules registry) the_file_rules st (ItLine dl) = (s2, c2) →
            ∃ s1, scan_item config global_allowlist ignorefile checker'
                    (content_rules registry) the_file_rules st' (ItLine dl') = (s1, c2)
                  ∧ same_total s2 s1) as Hline.
  { clear Hrun Hitem. intros dl dl' Hf Hn Ht [Hrules Hent] Hrun. unfold scan_item in *.
    rewrite Hf, Hn, Ht.
    destruct (negb _); [simplify_eq; eauto|].
    assert (ignored_files_set st' = ignored_files_set st) as Hig by apply Hst.
    rewrite Hig.
    case_bool_decide; [simplify_eq; eauto|].
    destruct (for_each _ (content_rules registry) (add_scanned st _)) as [s1' [e|]] eqn:E1;
      [not_raised Hc|].
    eapply (for_each_sim (λ a b, same_total b a) _
              (scan_content_rule config global_allowlist ignorefile checker'
                 (dl_file dl) (dl_line_no dl) (dl_content dl'))
              _ _ _ (Forall2_same (content_rules registry))) in E1
      as (s1 & -> & Hst1); [| |by apply same_total_add_scanned].
    2:{ intros x y sa sb sc cc [-> Hin] Hab Hr Hcc.
        eapply scan_content_rule_total; [exact Hab| |exact Hr|exact Hcc].
        intros cp Hcp. by apply (Hrules y cp). }
    assert ((if ent_enabled (cfg_entropy config)
             then find_high_entropy (dl_content dl') (ent_min_entropy (cfg_entropy config))
                    (ent_min_length (cfg_entropy config))
             else [])
            = (if ent_enabled (cfg_entropy config)
               then find_high_entropy (dl_content dl) (ent_min_entropy (cfg_entropy config))
                      (ent_min_length (cfg_entropy config))
               else [])) as ->.
    { destruct (ent_enabled (cfg_entropy config)); [by apply Hent|done]. }
    match type of Hrun with context [for_each ?body ?hits s1'] =>
      destruct (for_each body hits s1') as [s2' [e|]] eqn:E2; [not_raised Hc|] end.
    eapply (for_each_sim (λ a b, same_total b a) _
              (scan_entropy_hit global_allowlist ignorefile checker'
                 (dl_file dl) (dl_line_no dl))
              _ _ _ (Forall2_same _)) in E2
      as (s2'' & -> & Hst2); [| |exact Hst1].
    2:{ intros x y sa sb sc cc [-> _] Hab Hr Hcc.
        eapply scan_entropy_hit_total; [exact Hab|exact Hr|exact Hcc]. }
    unfold circuit_breaker in *. rewrite no_breaker in *. simplify_eq. eauto. }
  destruct Hitem as [->|(dl & dl' & -> & -> & Hf & Hn & Ht & Hm)];
    [|by apply (Hline dl dl')].
  destruct item as [dl|df|sk].
  - apply (Hline dl dl); [done..| |done]. by split.
  - unfold scan_item in *.
    destruct (existsb _ (ignore_globs config)).
    { simplify_eq. eauto using same_total_add_ignored, same_total_add_skipped. }
    destruct (is_ignored ignorefile (df_path df) None).
    { simplify_eq. eauto using same_total_add_ignored, same_total_add_skipped. }
    destruct (for_each _ the_file_rules (add_scanned st _)) as [s1' [e|]] eqn:E1;
      [not_raised Hc|].
    eapply (for_each_sim (λ a b, same_total b a) _ (scan_file_rule (df_path df))
              _ _ _ (Forall2_same the_file_rules)) in E1
      as (s1 & -> & Hst1); [| |by apply same_total_add_scanned].
    2:{ intros x y sa sb sc cc [-> _] Hab Hr _. by eapply scan_file_rule_total. }
    simplify_eq. eauto.
  - unfold scan_item in *. simplify_eq. eauto using same_total_add_skipped.
Qed.

Lemma main_pass_total items items' st st' s2 :
  Forall2 (same_matches_item config registry) items items' →
  same_total st st' →
  main_pass config global_allowlist ignorefile checker
    (content_rules registry) the_file_rules items st = (s2, None) →
  ∃ s1, main_pass config global_allowlist ignorefile checker'
          (content_rules registry) the_file_rules items' st' = (s1, None)
        ∧ same_total s2 s1.
Proof.
  intros Hitems Hst Hrun. unfold main_pass in *.
  eapply (for_each_sim (λ a b, same_total b a) (λ a b, same_matches_item config registry b a));
    [by apply Forall2_flip| |exact Hst|exact Hrun].
  intros x y sa sb sc cc Hxy Hab Hr Hcc. by eapply scan_item_total.
Qed.

End Simulation.

(** (C4, as amended) Suppression precedence. With [early_exit] off and
    [ci.max_findings] unset, take a variant of the diff whose parsed items
    differ from the original's at most in the content of added lines, so
    that no rule pattern matches differently and the entropy analyser
    finds the same on them (as when inline suppression markers are
    appended to lines). If the scan of the original returns, so does the
    scan of the variant, and the number of raw findings plus the number of
    suppressions is the same in both runs: every match that passes the
    allowlists and the ignore file becomes one raw finding or one
    suppression record. When in neither run two raw findings share a key,
    [|findings| + |suppressions|] is the same as well. The variant is a
    text that the parser accepts; on one that it does not, the scan of
    the variant raises the parser's [ValueError]. *)
Theorem suppression_preempts_one diff_text diff_text' config registry ignorefile r :
  early_exit (cfg_scan config) = false →
  max_findings (cfg_ci config) = None →
  Forall2 (same_matches_item config registry)
    (parse_items diff_text) (parse_items diff_text') →
  scan diff_text config registry ignorefile = Ok r →
  let run := scan_run diff_text config registry ignorefile in
  let run' := scan_run diff_text' config registry ignorefile in
  (is_Some (parse diff_text') →
   ∃ r', run_outcome run' = Ok r'
         ∧ (length (run_raw_findings run) + length (suppressed r)
            = length (run_raw_findings run') + length (suppressed r'))%nat
         ∧ (NoDup (raw_key <$> run_raw_findings run) →
            NoDup (raw_key <$> run_raw_findings run') →
            (length (findings r) + length (suppressed r)
             = length (findings r') + length (suppressed r'))%nat)
         ∧ skipped_files r' = skipped_files r
         ∧ scanned_files r' = scanned_files r)
  ∧ (parse diff_text' = None →
     run_outcome run' = Err (PyException (py "ValueError"))).
Proof.
  intros Hee Hmx Hitems Hrun run run'. subst run run'.
  apply scan_Ok_inv in Hrun as (gl & items & Hgl & Ep & Hrun).
  rewrite !(scan_run_compiled _ _ _ _ _ Hgl), Ep.
  split; [|by intros ->].
  intros [items' Ep']. rewrite Ep'.
  unfold scan_pass in *.
  destruct (main_pass config gl ignorefile _ _ _ (parse_items diff_text) scan_init)
    as [st [e|]] eqn:Epass.
  { destruct e; done. }
  eapply (main_pass_total config registry gl ignorefile _
            (build_checker (build_file_lines (parse_items diff_text')))) in Epass
    as (st' & -> & (Hn & Hk & Hsc & Hig)); [|done|done|exact Hitems|apply same_total_refl].
  simpl in *. simplify_eq. eexists. split; [done|]. simpl.
  split; [done|]. split; [|by rewrite Hk, Hsc].
  intros Hnd Hnd'. by rewrite !deduplicate_length.
Qed.

End EngineSuppression.

(** ** The engine and the aggregator on concrete inputs *)

Section EngineExamples.
#[local] Existing Instance literal_runtime.

(** (C2) The severity gate is applied when a finding is created and not
    again when a later raw finding of the same key lifts its severity: the
    merged finding below is [critical], which is at or above [high], and is
    not blocking. *)
Theorem dedup_blocking_not_updated :
  let fs := deduplicate [raw_of_severity "low"; raw_of_severity "critical"] (py "high") in
  f_id <$> fs = [py "FINDING-001"]
  ∧ f_severity <$> fs = [py "critical"]
  ∧ severity_at_or_above (py "critical") (py "high") = true
  ∧ f_is_blocking <$> fs = [false]
  ∧ existsb f_is_blocking fs = false.
Proof. vm_compute. repeat split. Qed.

(** (C1, counterexample) The rule [BAD] does not compile, so the main pass
    raises after the rule [R1] has produced one raw finding, whose matched
    value is ["error"]. The message is not the one of the specification,
    and the matched value occurs in it. *)
Lemma scan_error_message_differs :
  let diff_text := text [py "diff --git a/f b/f"; py "@@ -0,0 +1 @@"; py "+error"] in
  let registry := [literal_rule "R1" "high" "error"; literal_rule "BAD" "high" "("] in
  let config := plain_config false [] [] in
  (∃ st, scan_pass (parse_items diff_text) config [] registry ignore_empty
         = (st, Some (PyException (py "re.error")))
         ∧ rf_matched_value <$> raw_findings st = [Some (py "error")])
  ∧ scan diff_text config registry ignore_empty
    = Err (ScanError (py "Internal scanner error after 1 findings. Secrets have been scrubbed from this error."))
  ∧ py "Internal scanner error after 1 findings. Secrets have been scrubbed from this error."
    ≠ spec_scan_error_message 1
  ∧ contains (py "Internal scanner error after 1 findings. Secrets have been scrubbed from this error.")
      (py "error") = true.
Proof.
  intros diff_text registry config. split; [|split; [|split]].
  - eexists. split; [vm_compute; reflexivity|]. vm_compute. reflexivity.
  - vm_compute. reflexivity.
  - vm_compute. congruence.
  - vm_compute. reflexivity.
Qed.

Lemma scan_error_scrubbed_witness :
  let diff_text := text [py "diff --git a/f b/f"; py "@@ -0,0 +1 @@"; py "+error"] in
  let registry := [literal_rule "R1" "high" "error"; literal_rule "BAD" "high" "("] in
  let config := plain_config false [] [] in
  let st := (scan_pass (parse_items diff_text) config [] registry ignore_empty).1 in
  compile_all (patterns (cfg_allowlist config)) true = Ok []
  ∧ scan_pass (parse_items diff_text) config [] registry ignore_empty
    = (st, Some (PyException (py "re.error")))
  ∧ scan_run diff_text config registry ignore_empty
    = {| run_raw_findings := [];
         run_outcome := Err (ScanError (scan_error_message (length (raw_findings st)))) |}.
Proof.
  intros diff_text registry config st.
  assert (compile_all (patterns (cfg_allowlist config)) true = Ok []) as H1 by reflexivity.
  assert (scan_pass (parse_items diff_text) config [] registry ignore_empty
          = (st, Some (PyException (py "re.error")))) as H2 by (vm_compute; reflexivity).
  split; [exact H1|]. split; [exact H2|].
  exact (proj1 (scan_error_scrubbed diff_text config registry ignore_empty []
                  st (py "re.error") H1 H2)).
Defined.

(** (C3, counterexample) With [early_exit] on, the critical rule [R1] ends
    the rule loop of the line; once the allowlist takes its match away, the
    loop goes on to [R2], whose finding was absent before. *)
Lemma allowlist_adds_finding :
  let diff_text := text [py "diff --git a/f b/f"; py "@@ -0,0 +1 @@"; py "+AKIA pass"] in
  let registry := [literal_rule "R1" "critical" "AKIA"; literal_rule "R2" "high" "pass"] in
  let config := plain_config true [] [] in
  ∃ r r',
    scan diff_text config registry ignore_empty = Ok r
    ∧ scan diff_text (with_allowlist config [py "AKIA"]) registry ignore_empty = Ok r'
    ∧ finding_key <$> findings r = [(py "R1", py "f", 1)]
    ∧ finding_key <$> findings r' = [(py "R2", py "f", 1)].
Proof.
  intros diff_text registry config. eexists _, _.
  split; [vm_compute; reflexivity|]. split; [vm_compute; reflexivity|].
  split; vm_compute; reflexivity.
Qed.

Lemma allowlist_only_removes_witness :
  let diff_text := text [py "diff --git a/f b/f"; py "@@ -0,0 +1 @@"; py "+AKIA pass"] in
  let registry := [literal_rule "R1" "critical" "AKIA"; literal_rule "R2" "high" "pass"] in
  let config := plain_config false [] [] in
  ∃ r' r,
    patterns (cfg_allowlist config) = [] ++ []
    ∧ early_exit (cfg_scan config) = false
    ∧ max_findings (cfg_ci config) = None
    ∧ scan diff_text (with_allowlist config ([] ++ py "AKIA" :: [])) registry ignore_empty
      = Ok r'
    ∧ scan diff_text config registry ignore_empty = Ok r
    ∧ finding_key <$> findings r' = [(py "R2", py "f", 1)]
    ∧ (∀ f', f' ∈ findings r' → ∃ f, f ∈ findings r ∧ finding_key f = finding_key f').
Proof.
  intros diff_text registry config.
  assert (∃ r', scan diff_text (with_allowlist config ([] ++ py "AKIA" :: []))
                  registry ignore_empty = Ok r'
                ∧ finding_key <$> findings r' = [(py "R2", py "f", 1)]) as (r' & Hr' & Hk).
  { eexists. split; vm_compute; reflexivity. }
  destruct (allowlist_only_removes diff_text config registry ignore_empty
              [] (py "AKIA") [] r' eq_refl eq_refl eq_refl Hr') as (r & Hr & Hsub & _).
  exists r', r. repeat (split; [done|]). exact Hsub.
Defined.

(** (C4, counterexample) With [early_exit] on, the line yields one finding
    (the critical rule ends the rule loop); with the marker appended, both
    rules are tried and each match is recorded as a suppression. *)
Lemma suppression_changes_total :
  let diff_text := text [py "diff --git a/f b/f"; py "@@ -0,0 +1 @@"; py "+AKIA pass"] in
  let diff_text' := text [py "diff --git a/f b/f"; py "@@ -0,0 +1 @@";
                          py "+AKIA pass #gitsafe-ignore"] in
  let registry := [literal_rule "R1" "critical" "AKIA"; literal_rule "R2" "high" "pass"] in
  let config := plain_config true [] [] in
  ∃ r r',
    scan diff_text config registry ignore_empty = Ok r
    ∧ scan diff_text' config registry ignore_empty = Ok r'
    ∧ (length (findings r), length (suppressed r)) = (1%nat, 0%nat)
    ∧ (length (findings r'), length (suppressed r')) = (0%nat, 2%nat).
Proof.
  intros diff_text diff_text' registry config. eexists _, _.
  split; [vm_compute; reflexivity|]. split; [vm_compute; reflexivity|].
  split; vm_compute; reflexivity.
Qed.

Lemma suppression_preempts_one_witness :
  let diff_text := text [py "diff --git a/f b/f"; py "@@ -0,0 +1 @@"; py "+AKIA pass"] in
  let diff_text' := text [py "diff --git a/f b/f"; py "@@ -0,0 +1 @@";
                          py "+AKIA pass #gitsafe-ignore"] in
  let registry := [literal_rule "R1" "critical" "AKIA"; literal_rule "R2" "high" "pass"] in
  let config := plain_config false [] [] in
  ∃ r r',
    early_exit (cfg_scan config) = false
    ∧ max_findings (cfg_ci config) = None
    ∧ Forall2 (same_matches_item config registry)
        (parse_items diff_text) (parse_items diff_text')
    ∧ scan diff_text config registry ignore_empty = Ok r
    ∧ is_Some (parse diff_text')
    ∧ scan diff_text' config registry ignore_empty = Ok r'
    ∧ (length (findings r), length (suppressed r)) = (2%nat, 0%nat)
    ∧ (length (findings r'), length (suppressed r')) = (0%nat, 2%nat).
Proof.
  intros diff_text diff_text' registry config.
  assert (Forall2 (same_matches_item config registry)
            (parse_items diff_text) (parse_items diff_text')) as Hitems.
  { set (items := parse_items diff_text). set (items' := parse_items diff_text').
    vm_compute in items, items'. subst items items'.
    constructor; [by left|]. constructor; [|constructor].
    right. eexists _, _. split; [reflexivity|]. split; [reflexivity|].
    split; [reflexivity|]. split; [reflexivity|]. split; [reflexivity|].
    split; [|intros Hen; discriminate Hen].
    intros rule cp Hin Hcp.
    apply elem_of_cons in Hin as [Hin|Hin];
      [|apply elem_of_cons in Hin as [Hin|Hin]; [|by apply elem_of_nil in Hin]];
      subst rule; vm_compute in Hcp; injection Hcp as <-; vm_compute; reflexivity. }
  assert (∃ r, scan diff_text config registry ignore_empty = Ok r
               ∧ (length (findings r), length (suppressed r)) = (2%nat, 0%nat))
    as (r & Hr & Hlen).
  { eexists. split; vm_compute; reflexivity. }
  assert (is_Some (parse diff_text')) as Hp' by (vm_compute; by eexists).
  destruct (proj1 (suppression_preempts_one diff_text diff_text' config registry
                     ignore_empty r eq_refl eq_refl Hitems Hr) Hp') as (r' & Hr' & _).
  exists r, r'. do 4 (split; [done|]). split; [exact Hp'|]. split; [done|]. split; [done|].
  vm_compute in Hr'. injection Hr' as <-. vm_compute. reflexivity.
Defined.

(** (C10, counterexample) The first block of [x.bin] is binary and is
    followed by a [+] line, which is scanned: the path is not yet marked.
    The second block marks the path as ignored. The result has a finding
    of the ignored path, and counts the path as scanned. *)
Lemma ignored_file_with_finding :
  let diff_text := text [py "diff --git a/x.bin b/x.bin";
                         py "Binary files a/x.bin and b/x.bin differ"; py "+AKIA";
                         py "diff --git a/x.bin b/x.bin"; py "@@ -0,0 +1 @@"; py "+AKIA"] in
  let registry := [literal_rule "R1" "critical" "AKIA"] in
  let config := plain_config false [] [py "*.bin"] in
  ∃ st r,
    scan_pass (parse_items diff_text) config [] registry ignore_empty = (st, None)
    ∧ py "x.bin" ∈ ignored_files_set st
    ∧ py "x.bin" ∈ scanned_files_set st
    ∧ scan diff_text config registry ignore_empty = Ok r
    ∧ finding_key <$> findings r = [(py "R1", py "x.bin", 0)]
    ∧ skipped_files r = [py "x.bin (binary)"; py "x.bin (ignored)"]
    ∧ scanned_files r = 1%nat.
Proof.
  intros diff_text registry config. eexists _, _.
  split; [vm_compute; reflexivity|].
  split; [apply (bool_decide_unpack _); vm_compute; reflexivity|].
  split; [apply (bool_decide_unpack _); vm_compute; reflexivity|].
  split; [vm_compute; reflexivity|].
  repeat split; vm_compute; reflexivity.
Qed.

Lemma ignored_file_contributes_nothing_witness :
  let diff_text := text [py "diff --git a/x.bin b/x.bin"; py "@@ -0,0 +1 @@"; py "+AKIA";
                         py "diff --git a/y.txt b/y.txt"; py "@@ -0,0 +1 @@"; py "+AKIA"] in
  let registry := [literal_rule "R1" "critical" "AKIA"] in
  let config := plain_config false [] [py "*.bin"] in
  let st := (scan_pass (parse_items diff_text) config [] registry ignore_empty).1 in
  compile_all (patterns (cfg_allowlist config)) true = Ok []
  ∧ scan_pass (parse_items diff_text) config [] registry ignore_empty = (st, None)
  ∧ py "x.bin" ∈ ignored_files_set st
  ∧ entered_first (py "x.bin") (parse_items diff_text) = true
  ∧ ∃ r, scan diff_text config registry ignore_empty = Ok r
         ∧ (∀ f, f ∈ findings r → f_file f ≠ py "x.bin")
         ∧ (∀ sup, sup ∈ suppressed r → sup_file sup ≠ py "x.bin").
Proof.
  intros diff_text registry config st.
  assert (compile_all (patterns (cfg_allowlist config)) true = Ok []) as H1 by reflexivity.
  assert (scan_pass (parse_items diff_text) config [] registry ignore_empty = (st, None))
    as H2 by (vm_compute; reflexivity).
  assert (py "x.bin" ∈ ignored_files_set st) as H3.
  { apply (bool_decide_unpack _). vm_compute. reflexivity. }
  assert (entered_first (py "x.bin") (parse_items diff_text) = true) as H4
    by (vm_compute; reflexivity).
  do 4 (split; [assumption|]).
  destruct (ignored_file_contributes_nothing diff_text config registry ignore_empty []
              st (py "x.bin") H1 H2 H3 H4) as (r & Hr & Hf & Hs & _).
  exists r. split; [exact Hr|]. split; [exact Hf|exact Hs].
Defined.

(** (C9) A standalone suppression comment does not reach the next line
    when that line carries a marker of its own. The comment on line 1
    suppresses every rule; with no marker on line 2 the key on it is
    suppressed, as the module says of a standalone comment on line N and
    line N+1. With a marker for another rule on line 2 it is not: the
    index keeps for line 2 the line's own marker only, and [scan] reports
    the key as a finding. *)
Theorem next_line_with_own_marker :
  let comment := py "# gitsafe-ignore" in
  let key := py "key = AKIAIOSFODNN7REAL123" in
  let marked := key ++ py "  # gitsafe-ignore[OTHER_RULE]" in
  let checker := register_lines ∅ (py "f") [(1, comment); (2, marked)] in
  let diff_of line2 :=
    text [py "diff --git a/f b/f"; py "@@ -0,0 +1,2 @@"; py "+" ++ comment; py "+" ++ line2] in
  let registry := [literal_rule "AWS_ACCESS_KEY" "critical" "AKIAIOSFODNN7REAL123"] in
  let config := plain_config false [] [] in
  parse_inline_suppression comment = (true, None)
  ∧ is_pure_comment comment = true
  ∧ is_Some (is_suppressed checker (py "f") 1 (py "AWS_ACCESS_KEY"))
  ∧ is_suppressed checker (py "f") 2 (py "AWS_ACCESS_KEY") = None
  ∧ (∃ r, scan (diff_of key) config registry ignore_empty = Ok r
          ∧ findings r = []
          ∧ (λ sup, (sup_rule_id sup, sup_line_no sup)) <$> suppressed r
            = [(py "AWS_ACCESS_KEY", 2)])
  ∧ (∃ r, scan (diff_of marked) config registry ignore_empty = Ok r
          ∧ (λ f, (f_rule_id f, f_line_no f)) <$> findings r = [(py "AWS_ACCESS_KEY", 2)]
          ∧ suppressed r = []).
Proof.
  intros comment key marked checker diff_of registry config.
  split; [vm_compute; reflexivity|]. split; [vm_compute; reflexivity|].
  split; [vm_compute; by eexists|]. split; [vm_compute; reflexivity|].
  split; eexists; (split; [vm_compute; reflexivity|]); split; vm_compute; reflexivity.
Qed.

End EngineExamples.

(** * Further properties of the code *)

(** ** The parser: what the stream of items looks like *)

Section ParserStream.
Context `{PyRuntime}.

(** The lines that the sub-header loop consumes are sub-headers. *)
Lemma sub_headers_split lines : ∀ old cur fl,
  ∃ pre, lines = pre ++ (sub_headers lines old cur fl).2
         ∧ Forall (λ l, is_sub_header l = true) pre.
Proof.
  induction lines as [|sub rest IH]; intros old cur fl.
  { exists []. done. }
  destruct (is_sub_header sub) eqn:Es.
  - destruct (sub_headers_step sub old cur fl Es) as (old' & cur' & fl' & Heq & _).
    rewrite Heq. destruct (IH old' cur' fl') as (pre & Hpre & Hall).
    exists (sub :: pre). split; [by rewrite <- app_comm_cons, <- Hpre|by constructor].
  - rewrite sub_headers_stop by done. exists []. done.
Qed.

(** A pattern that begins with a literal matches only lines that begin
    with it. *)
Lemma matches_prefix l r raw_line :
  matches (Lit l ⋅ r) raw_line = true → startswith raw_line l = true.
Proof.
  unfold matches, re_match. cbn [rmatch]. by destruct (startswith raw_line l).
Qed.

Lemma startswith_cons2 raw_line a b l :
  startswith raw_line (a :: b :: l) = true → ∃ s', raw_line = a :: b :: s'.
Proof.
  destruct raw_line as [|c [|d s']]; simpl; [done| |].
  - by rewrite andb_false_r.
  - destruct (N.eqb_spec a c); [|done]. destruct (N.eqb_spec b d); [|done].
    subst. eauto.
Qed.

Lemma sub_header_not_diff_header sub :
  is_sub_header sub = true → re_match DIFF_HEADER_RE sub = None.
Proof.
  unfold is_sub_header. intros Hs.
  repeat (apply orb_true_iff in Hs as [Hs|Hs]);
    (apply matches_prefix, startswith_cons2 in Hs as [s' ->]); reflexivity.
Qed.

(** An iteration on a line that is neither a [diff --git] line nor a hunk
    header yields nothing; it buffers the line when the line begins with
    [+] and a file is open. *)
Lemma parse_iter_plain raw_line rest st r :
  re_match DIFF_HEADER_RE raw_line = None → re_match HUNK_HEADER_RE raw_line = None →
  parse_iter raw_line rest st = Some r →
  r.1.1 = [] ∧ r.1.2 = rest ∧ current_file r.2 = current_file st
  ∧ (hunk_buffer r.2 = hunk_buffer st
     ∨ ∃ file, current_file st = Some file ∧ startswith raw_line (py "+") = true
               ∧ hunk_buffer r.2 = hunk_buffer st ++
                   [{| dl_file := file; dl_line_no := line_no st;
                       dl_content := _strip_bom (drop 1 raw_line);
                       dl_line_type := ADDED |}]).
Proof.
  intros Hd Hh. unfold parse_iter. rewrite Hd, Hh.
  destruct (matches FILE_HEADER_OLD raw_line || matches FILE_HEADER_NEW raw_line);
    [intros [= <-]; cbn; tauto|].
  destruct (matches SUBPROJECT_RE raw_line); [intros [= <-]; cbn; tauto|].
  destruct (matches NO_NEWLINE_RE raw_line); [intros [= <-]; cbn; tauto|].
  destruct (current_file st) as [file|] eqn:Ef; [|intros [= <-]; cbn; tauto].
  destruct (startswith raw_line (py "+")) eqn:Ep.
  { intros [= <-].
    cbn [fst snd hunk_buffer current_file]. split; [done|]. split; [done|].
    split; [done|]. right. by exists file. }
  destruct (startswith raw_line (py "-")); [intros [= <-]; cbn; tauto|].
  destruct (startswith raw_line (py " ")); intros [= <-]; cbn; tauto.
Qed.

(** The same for a hunk header, whatever the number it carries, when
    [int] converts it. *)
Lemma parse_iter_hunk_header raw_line hm rest st r :
  re_match DIFF_HEADER_RE raw_line = None → re_match HUNK_HEADER_RE raw_line = Some hm →
  parse_iter raw_line rest st = Some r →
  r.1.1 = flush (hunk_buffer st) ∧ r.1.2 = rest ∧ current_file r.2 = current_file st
  ∧ hunk_buffer r.2 = [].
Proof.
  intros Hd Hh. unfold parse_iter. rewrite Hd, Hh.
  assert (∃ s', raw_line = 64%N :: s') as [s' ->].
  { eapply (matches_first_char HUNK_HEADER_RE); [done|]. unfold matches. by rewrite Hh. }
  cbn [matches orb]. head_decides.
  destruct (py_int _); [|done]. by intros [= <-].
Qed.

Lemma file_event_path old cur fl ahead :
  is_file_item (file_event old cur fl ahead) = true
  ∧ ∀ tl, attributed (Some cur) tl = true →
          ∀ c0, attributed c0 (file_event old cur fl ahead :: tl) = true.
Proof. unfold file_event. repeat case_match; done. Qed.

Lemma attributed_flush cur buf tl :
  Forall (λ dl, cur = Some (dl_file dl)) buf →
  attributed cur (flush buf ++ tl) = attributed cur tl.
Proof.
  induction 1 as [|dl buf Hdl _ IH]; [done|]. simpl.
  by rewrite bool_decide_eq_true_2.
Qed.

(** The invariant of the outer loop for the attribution of lines: the
    buffered lines belong to the file that is open. *)
Lemma parse_loop_attributed f : ∀ lines st evs,
  parse_loop f lines st = Some evs →
  Forall (λ dl, current_file st = Some (dl_file dl)) (hunk_buffer st) →
  attributed (current_file st) evs = true.
Proof.
  induction f as [|f IH]; intros lines st evs Hp Hbuf; [done|].
  destruct lines as [|raw_line rest].
  { simpl in Hp. simplify_eq. rewrite <- (app_nil_r (flush _)).
    by rewrite attributed_flush. }
  rewrite parse_loop_S_cons in Hp.
  destruct (parse_iter raw_line rest st) as [r|] eqn:Er; [|done].
  destruct (parse_loop f _ _) as [tl|] eqn:Etl; [|done]. simpl in Hp. simplify_eq.
  destruct (re_match DIFF_HEADER_RE raw_line) as [m|] eqn:Ed.
  - rewrite (parse_iter_header _ m) in Er by done. cbn zeta in Er.
    injection Er as <-. cbn [fst snd] in *.
    pose proof (IH _ _ _ Etl ltac:(by constructor)) as Htl. cbn [current_file] in Htl.
    rewrite <- app_assoc, attributed_flush by done.
    by apply file_event_path.
  - destruct (re_match HUNK_HEADER_RE raw_line) as [hm|] eqn:Eh.
    + destruct (parse_iter_hunk_header raw_line hm rest st r Ed Eh Er) as (He & Hr & Hc & Hb).
      rewrite He. rewrite Hr in Etl. apply IH in Etl; [|rewrite Hb; by constructor].
      rewrite Hc in Etl. by rewrite attributed_flush.
    + destruct (parse_iter_plain raw_line rest st r Ed Eh Er) as (He & Hr & Hc & Hb).
      rewrite He. rewrite Hr in Etl. simpl. rewrite <- Hc. apply (IH _ _ _ Etl).
      rewrite Hc. destruct Hb as [->|(file & Hf & _ & ->)]; [done|].
      apply Forall_app. split; [done|]. by constructor.
Qed.

(** (X1) Attribution. In the stream that the parser yields on any text,
    every [DiffLine] comes after a [DiffFile] or [FileSkipped] item of its
    own file, with no item of another file in between: the lines buffered
    for a file are flushed before the item of the next file. *)
Theorem parse_attributed diff_text :
  attributed None (parse_items diff_text) = true.
Proof.
  unfold parse_items. destruct (parse diff_text) as [items|] eqn:Hp; [|done].
  unfold parse, parse_from in Hp. by apply parse_loop_attributed in Hp.
Qed.

(** The invariant of the outer loop for the origin of lines. *)
Lemma parse_loop_origin (P : DiffLine → Prop) f : ∀ lines st evs,
  parse_loop f lines st = Some evs →
  (∀ raw_line file n, raw_line ∈ lines → startswith raw_line (py "+") = true →
     P {| dl_file := file; dl_line_no := n;
          dl_content := _strip_bom (drop 1 raw_line); dl_line_type := ADDED |}) →
  Forall P (hunk_buffer st) →
  ∀ dl, ItLine dl ∈ evs → P dl.
Proof.
  induction f as [|f IH]; intros lines st evs Hp Hlines Hbuf dl Hdl; [done|].
  assert (∀ dl', ItLine dl' ∈ flush (hunk_buffer st) → P dl') as Hflush.
  { intros dl' Hin. unfold flush in Hin.
    apply list_elem_of_fmap in Hin as (l' & [= <-] & Hl').
    by eapply (proj1 (Forall_forall _ _)) in Hbuf. }
  destruct lines as [|raw_line rest].
  { simpl in Hp. simplify_eq. by apply Hflush. }
  rewrite parse_loop_S_cons in Hp.
  destruct (parse_iter raw_line rest st) as [r|] eqn:Er; [|done].
  destruct (parse_loop f _ _) as [tl|] eqn:Etl; [|done]. simpl in Hp. simplify_eq.
  apply elem_of_app in Hdl.
  destruct (re_match DIFF_HEADER_RE raw_line) as [m|] eqn:Ed.
  - rewrite (parse_iter_header _ m) in Er by done. cbn zeta in Er.
    injection Er as <-. cbn [fst snd] in *.
    destruct Hdl as [Hdl|Hdl].
    + apply elem_of_app in Hdl as [Hdl|Hdl]; [by apply Hflush|].
      apply list_elem_of_singleton in Hdl. unfold file_event in Hdl.
      repeat case_match; done.
    + eapply IH; [exact Etl| |by constructor|done].
      intros raw file n Hin. apply Hlines. apply list_elem_of_further.
      destruct (sub_headers_split rest (default [] (group m 1)) (default [] (group m 2))
                  no_flags) as (pre & Hpre & _).
      rewrite Hpre. apply elem_of_app. by right.
  - destruct (re_match HUNK_HEADER_RE raw_line) as [hm|] eqn:Eh.
    + destruct (parse_iter_hunk_header raw_line hm rest st r Ed Eh Er) as (He & Hr & Hc & Hb).
      rewrite He in Hdl. rewrite Hr in Etl. destruct Hdl as [Hdl|Hdl]; [by apply Hflush|].
      eapply IH; [exact Etl| |rewrite Hb; by constructor|done].
      intros raw file n Hin. apply Hlines. by apply list_elem_of_further.
    + destruct (parse_iter_plain raw_line rest st r Ed Eh Er) as (He & Hr & Hc & Hb).
      rewrite He in Hdl. rewrite Hr in Etl.
      destruct Hdl as [Hdl|Hdl]; [by apply elem_of_nil in Hdl|].
      eapply IH; [exact Etl| | |done].
      * intros raw file n Hin. apply Hlines. by apply list_elem_of_further.
      * destruct Hb as [->|(file & Hf & Hplus & ->)]; [done|].
        apply Forall_app. split; [done|]. constructor; [|done].
        apply Hlines; [apply list_elem_of_here|done].
Qed.

(** (X2) Origin of the lines. Every [DiffLine] that the parser yields is
    an added line, and its content is what follows the [+] of some line of
    the text, with the leading U+FEFF characters removed: the parser
    yields no removed or context lines and invents no content. *)
Theorem parse_yields_added_lines diff_text dl :
  ItLine dl ∈ parse_items diff_text →
  dl_line_type dl = ADDED
  ∧ ∃ raw_line, raw_line ∈ splitlines diff_text
                ∧ startswith raw_line (py "+") = true
                ∧ dl_content dl = _strip_bom (drop 1 raw_line).
Proof.
  unfold parse_items. destruct (parse diff_text) as [items|] eqn:Hp.
  2:{ by intros ?%elem_of_nil. }
  unfold parse, parse_from in Hp. cbn [default].
  revert dl. eapply parse_loop_origin; [exact Hp| |by constructor].
  intros raw file n Hin Hplus. split; [done|]. by exists raw.
Qed.

(** The invariant of the outer loop for the number of file items. *)
Lemma parse_loop_file_items f : ∀ lines st evs,
  parse_loop f lines st = Some evs →
  length (filter (λ i, is_file_item i = true) evs)
  = length (filter (λ l, matches DIFF_HEADER_RE l = true) lines).
Proof.
  assert (∀ buf, filter (λ i, is_file_item i = true) (flush buf) = []) as Hflush.
  { induction buf as [|dl buf IHb]; [done|]. simpl.
    rewrite filter_cons_False by done. exact IHb. }
  induction f as [|f IH]; intros lines st evs Hp; [done|].
  destruct lines as [|raw_line rest].
  { simpl in Hp. simplify_eq. by rewrite Hflush. }
  rewrite parse_loop_S_cons in Hp.
  destruct (parse_iter raw_line rest st) as [r|] eqn:Er; [|done].
  destruct (parse_loop f _ _) as [tl|] eqn:Etl; [|done]. simpl in Hp. simplify_eq.
  rewrite filter_app, length_app.
  destruct (re_match DIFF_HEADER_RE raw_line) as [m|] eqn:Ed.
  - rewrite (parse_iter_header _ m) in Er by done. cbn zeta in Er.
    injection Er as <-. cbn [fst snd] in *.
    destruct (sub_headers_split rest (default [] (group m 1)) (default [] (group m 2))
                no_flags) as (pre & Hpre & Hall).
    destruct (sub_headers rest _ _ no_flags) as [[[old cur] fl] rest'].
    cbn [fst snd] in *. rewrite (IH _ _ _ Etl).
    rewrite filter_app, Hflush, filter_cons_True, filter_nil
      by apply file_event_path.
    rewrite filter_cons_True by (unfold matches; by rewrite Ed).
    rewrite Hpre, filter_app.
    assert (filter (λ l, matches DIFF_HEADER_RE l = true) pre = []) as ->; [|done].
    clear Hpre. induction Hall as [|sub pre Hs _ IHp]; [done|].
    rewrite filter_cons_False; [done|].
    unfold matches. rewrite (sub_header_not_diff_header sub Hs). done.
  - rewrite filter_cons_False by (unfold matches; by rewrite Ed).
    destruct (re_match HUNK_HEADER_RE raw_line) as [hm|] eqn:Eh.
    + destruct (parse_iter_hunk_header raw_line hm rest st r Ed Eh Er) as (He & Hr & _).
      rewrite He, Hflush. rewrite Hr in Etl. by apply IH in Etl.
    + destruct (parse_iter_plain raw_line rest st r Ed Eh Er) as (He & Hr & _).
      rewrite He. rewrite Hr in Etl. by apply IH in Etl.
Qed.

(** (X3) One item per file block. Whenever the parser returns, the list
    holds as many [DiffFile] and [FileSkipped] items together as the text
    has [diff --git] lines: every block is reported once, none is dropped,
    and the sub-header loop never swallows the header of the next block.
    (The parser returns unless [int] raises on a hunk header.) *)
Theorem parse_file_items diff_text items :
  parse diff_text = Some items →
  length (filter (λ i, is_file_item i = true) items)
  = length (filter (λ l, matches DIFF_HEADER_RE l = true) (splitlines diff_text)).
Proof.
  intros Hp. unfold parse, parse_from in Hp.
  by apply parse_loop_file_items in Hp.
Qed.



End ParserStream.

(** ** The parser: line endings and headers *)

Lemma splitlines_from_line l : ∀ cur (crlf : bool) rest,
  no_linebreak l = true →
  splitlines_from cur (l ++ (if crlf then [CR; LF] else [LF]) ++ rest)
  = (rev cur ++ l) :: splitlines_from [] rest.
Proof.
  induction l as [|c l IH]; intros cur crlf rest Hl.
  - rewrite app_nil_r. by destruct crlf.
  - apply andb_true_iff in Hl as [Hc Hl]. apply negb_true_iff in Hc.
    rewrite <- app_comm_cons. cbn [splitlines_from].
    assert ((c =? CR)%N = false) as ->.
    { destruct (N.eqb_spec c CR) as [->|]; [done|done]. }
    rewrite Hc, (IH (c :: cur)) by done. simpl. by rewrite <- app_assoc.
Qed.

(** [splitlines] undoes [join_lines]. *)
Lemma splitlines_join_lines ls :
  Forall (λ l, no_linebreak l.1 = true) ls → splitlines (join_lines ls) = ls.*1.
Proof.
  unfold splitlines, join_lines.
  induction 1 as [|[l crlf] ls Hl _ IH]; [done|].
  rewrite fmap_cons. cbn [concat fst snd]. rewrite <- app_assoc.
  rewrite splitlines_from_line by done. simpl. by rewrite IH.
Qed.

Lemma text_join_lines ls : text ls = join_lines ((λ l, (l, false)) <$> ls).
Proof. unfold text, join_lines. by rewrite <- list_fmap_compose. Qed.

Lemma lstrip_ws_CR s : lstrip_ws (lstrip_chars [CR] s) = lstrip_ws s.
Proof.
  induction s as [|c s IH]; [done|]. cbn [lstrip_chars].
  case_bool_decide as Hc; [|done].
  apply list_elem_of_singleton in Hc. subst c. exact IH.
Qed.

Lemma lstrip_ws_idemp s : lstrip_ws (lstrip_ws s) = lstrip_ws s.
Proof.
  induction s as [|c s IH]; [done|]. simpl.
  destruct (py_isspace c) eqn:E; [done|]. simpl. by rewrite E.
Qed.

Lemma lstrip_ws_head s c : head (lstrip_ws s) = Some c → py_isspace c = false.
Proof.
  induction s as [|d s IH]; [done|]. simpl.
  destruct (py_isspace d) eqn:E; [done|]. simpl. by intros [= <-].
Qed.

(** [_normalise]. The first of its two calls is subsumed by the
    second, a carriage return being white space: the result is the line
    with its trailing white space removed. It ends in no white-space
    character, and normalising twice changes nothing. *)
Lemma normalise_rstrip line :
  _normalise line = rstrip_ws line
  ∧ _normalise (_normalise line) = _normalise line
  ∧ ∀ c, last (_normalise line) = Some c → py_isspace c = false.
Proof.
  assert (_normalise line = rstrip_ws line) as Hn.
  { unfold _normalise, rstrip_ws, rstrip_chars. by rewrite rev_involutive, lstrip_ws_CR. }
  split; [done|]. split.
  - unfold _normalise at 1. unfold rstrip_ws, rstrip_chars.
    rewrite rev_involutive, lstrip_ws_CR, Hn. unfold rstrip_ws.
    by rewrite rev_involutive, lstrip_ws_idemp.
  - intros c. rewrite Hn. unfold rstrip_ws.
    destruct (lstrip_ws (rev line)) as [|d s] eqn:E; [done|].
    simpl. rewrite last_snoc. intros [= <-].
    apply (lstrip_ws_head (rev line)). by rewrite E.
Qed.

(** A class repeated over a string all of whose characters are in it:
    the longest match that the continuation accepts is taken. *)
Lemma star_k_None {A} p (k : pystr → option A) : ∀ s,
  (∀ i, (i ≤ length s)%nat → k (drop i s) = None) → star_k p s k = None.
Proof.
  induction s as [|c s IH]; intros Hk.
  - exact (Hk 0%nat ltac:(simpl; lia)).
  - cbn [star_k]. rewrite IH.
    + destruct (p c); exact (Hk 0%nat ltac:(simpl; lia)).
    + intros i Hi. apply (Hk (S i)). simpl. lia.
Qed.

Lemma star_k_split {A} p (k : pystr → option A) s2 r :
  k s2 = Some r →
  (∀ i, (0 < i ≤ length s2)%nat → k (drop i s2) = None) →
  ∀ s1, Forall (λ c, p c = true) s1 → star_k p (s1 ++ s2) k = Some r.
Proof.
  intros Hr Hk s1 Hs1. induction Hs1 as [|c s1 Hc _ IH].
  - simpl. destruct s2 as [|c s2]; [done|]. cbn [star_k].
    rewrite star_k_None.
    + by destruct (p c).
    + intros i Hi. apply (Hk (S i)). simpl. lia.
  - rewrite <- app_comm_cons. cbn [star_k]. by rewrite Hc, IH.
Qed.

Lemma startswith_app s p : startswith (p ++ s) p = true.
Proof. induction p as [|c p IH]; [done|]. simpl. by rewrite N.eqb_refl. Qed.

Lemma contains_drop s p i : contains s p = false → startswith (drop i s) p = false.
Proof.
  revert i. induction s as [|c s IH]; intros i Hc.
  - rewrite drop_nil. simpl in Hc. by apply orb_false_iff in Hc as [? _].
  - cbn [contains] in Hc. apply orb_false_iff in Hc as [Hs Hc].
    destruct i as [|i]; [done|]. simpl. by apply IH.
Qed.

Section ParserHeaders.
Context `{PyRuntime}.

(** (X4) Line endings. A text whose lines end in a line feed or in a
    carriage return and a line feed, in any mix, is parsed as the text
    with line feeds only: [DiffParser] splits with [splitlines], which
    takes both as one boundary, so no carriage return reaches the content
    of a line. *)
Theorem parse_crlf ls :
  Forall (λ l, no_linebreak l.1 = true) ls →
  parse (join_lines ls) = parse (text ls.*1).
Proof.
  intros Hls. unfold parse. rewrite splitlines_join_lines by done.
  rewrite text_join_lines, splitlines_join_lines.
  - f_equal. generalize (ls.*1). intros xs.
    induction xs as [|x xs IH]; [done|]. csimpl. by f_equal.
  - rewrite !Forall_fmap. eapply Forall_impl; [exact Hls|]. done.
Qed.

(** The groups of [_DIFF_HEADER_RE] on [diff --git a/X b/Y]. *)
Lemma diff_header_match X Y :
  Forall (λ c, dot c = true) X → Forall (λ c, dot c = true) Y →
  contains Y (py " b/") = false →
  re_match DIFF_HEADER_RE (diff_header X Y) = Some [(2%nat, Y); (1%nat, X)].
Proof.
  intros HX HY Hc. unfold re_match, DIFF_HEADER_RE, diff_header.
  cbn [rmatch]. rewrite startswith_app, drop_app_length.
  apply star_k_split; [| |done].
  - rewrite startswith_app, drop_app_length.
    rewrite <- (app_nil_r Y) at 1.
    rewrite (star_k_split dot _ [] [(2%nat, Y); (1%nat, X)]); [done| | |done].
    + cbn [rmatch length]. rewrite Nat.sub_0_r, firstn_all.
      rewrite (length_app X), Nat.add_sub, take_app_length. done.
    + simpl. lia.
  - intros i Hi.
    destruct i as [|[|[|i]]]; [lia|done|done|].
    change (drop (S (S (S i))) (py " b/" ++ Y)) with (drop i Y).
    by rewrite contains_drop.
Qed.

(** The path of a file block. For a line [diff --git a/X b/Y] that
    is followed by no sub-header, where [X] and [Y] hold no line feed and
    [Y] does not contain [" b/"], the parser flushes the buffer and yields
    a [DiffFile] of path [Y], no old path and status [MODIFIED]; the lines
    that follow are read with [Y] as the current file. *)
Lemma diff_header_paths X Y rest st :
  Forall (λ c, dot c = true) X → Forall (λ c, dot c = true) Y →
  contains Y (py " b/") = false →
  (∀ l, head rest = Some l → is_sub_header l = false) →
  parse_from (diff_header X Y :: rest) st =
  (λ tl, flush (hunk_buffer st)
         ++ ItFile {| df_path := Y; df_old_path := None; df_status := FS_MODIFIED |} :: tl)
    <$> parse_from rest {| current_file := Some Y; old_file := Some X;
                           line_no := line_no st; hunk_buffer := [] |}.
Proof.
  intros HX HY Hc Hrest.
  rewrite parse_from_cons, (parse_iter_header _ _ _ _ (diff_header_match X Y HX HY Hc)).
  cbv zeta.
  change (default [] (group [(2%nat, Y); (1%nat, X)] 1)) with X.
  change (default [] (group [(2%nat, Y); (1%nat, X)] 2)) with Y.
  assert (sub_headers rest X Y no_flags = (X, Y, no_flags, rest)) as ->.
  { destruct rest as [|l rest]; [done|]. apply sub_headers_stop. by apply Hrest. }
  cbn [fst snd]. destruct (parse_from rest _) as [tl|]; [|done].
  simpl. f_equal. unfold file_event. simpl. by rewrite <- app_assoc.
Qed.

End ParserHeaders.

(** ** Inline suppression markers *)

Lemma re_find_cons r c s :
  re_find r (c :: s) = match re_match r (c :: s) with Some m => Some m | None => re_find r s end.
Proof. reflexivity. Qed.

Lemma re_match_first_char r a s :
  first_char r = Some a → (∀ s', s ≠ a :: s') → re_match r s = None.
Proof.
  intros Hf Hs. unfold re_match.
  destruct (rmatch r s [] _) as [x|] eqn:E; [|done].
  eapply rmatch_first_char in E as [s' Heq]; [|done]. by destruct (Hs s').
Qed.

(** The search skips the characters that cannot begin a match. *)
Lemma re_find_skip r a pre s :
  first_char r = Some a → a ∉ pre → re_find r (pre ++ s) = re_find r s.
Proof.
  intros Hf. induction pre as [|c pre IH]; intros Hpre; [done|].
  apply not_elem_of_cons in Hpre as [Hc Hpre].
  rewrite <- app_comm_cons, re_find_cons, (re_match_first_char r a) by (done || congruence).
  by apply IH.
Qed.

Lemma re_find_none r a s : first_char r = Some a → a ∉ s → re_find r s = None.
Proof.
  intros Hf Hs. rewrite <- (app_nil_r s), (re_find_skip r a) by done.
  simpl. by rewrite (re_match_first_char r a).
Qed.

(** Repetition of a class stops at the first character outside of it, when
    the continuation accepts what follows. *)
Lemma star_k_stop {A} p (k : pystr → option A) s1 s2 r :
  Forall (λ c, p c = true) s1 →
  (∀ c, head s2 = Some c → p c = false) →
  k s2 = Some r →
  star_k p (s1 ++ s2) k = Some r.
Proof.
  intros Hs1 Hs2 Hr. induction Hs1 as [|c s1 Hc _ IH].
  - simpl. destruct s2 as [|c s2]; [done|]. cbn [star_k]. by rewrite (Hs2 c).
  - rewrite <- app_comm_cons. cbn [star_k]. by rewrite Hc, IH.
Qed.

Lemma startswith_app_same s p : startswith (p ++ s) p = true.
Proof. induction p as [|c p IH]; [done|]. simpl. by rewrite N.eqb_refl. Qed.

Lemma space_not_bracket ws :
  Forall (λ c, py_isspace c = true) ws → startswith ws (py "[") = false.
Proof.
  destruct 1 as [|c ws Hc _]; [done|].
  change (py "[") with [91%N]. cbn [startswith].
  destruct (N.eqb_spec 91 c) as [<-|]; [vm_compute in Hc; done|done].
Qed.

Lemma head_space ws s c0 :
  Forall (λ c, py_isspace c = true) ws →
  head (ws ++ c0 :: s) = Some c0 ∨ ∃ c, head (ws ++ c0 :: s) = Some c ∧ py_isspace c = true.
Proof. destruct 1 as [|c ws Hc _]; [by left|right; by exists c]. Qed.

(** [_SUPPRESS_RE] on a marker without a rule list. *)
Lemma suppress_match_all kw ws1 ws2 :
  marker_keyword kw →
  Forall (λ c, py_isspace c = true) ws1 → Forall (λ c, py_isspace c = true) ws2 →
  re_match SUPPRESS_RE (py "#" ++ ws1 ++ kw ++ ws2) = Some [].
Proof.
  intros Hkw H1 H2. unfold re_match, SUPPRESS_RE. cbn [rmatch].
  rewrite startswith_app_same, drop_app_length.
  apply star_k_stop; [done| |].
  { destruct Hkw as [->| ->]; by intros c [= <-]. }
  assert (∀ k : pystr → option captures, k [] = Some [] →
            star_k py_isspace ws2 k = Some []) as Hend.
  { intros k Hk. rewrite <- (app_nil_r ws2). by apply star_k_stop. }
  destruct Hkw as [->| ->].
  - rewrite startswith_app_same, drop_app_length, space_not_bracket by done.
    by rewrite Hend.
  - change (startswith (py "nosec" ++ ws2) (py "gitsafe-ignore")) with false.
    cbv iota. rewrite startswith_app_same, drop_app_length, space_not_bracket by done.
    by rewrite Hend.
Qed.

Lemma take_app_sub {A} (l k : list A) : take (length (l ++ k) - length k) (l ++ k) = l.
Proof. by rewrite length_app, Nat.add_sub, take_app_length. Qed.

(** [_SUPPRESS_RE] on a marker with a rule list. *)
Lemma suppress_match_scoped kw ws1 J ws2 :
  marker_keyword kw →
  Forall (λ c, py_isspace c = true) ws1 → Forall (λ c, py_isspace c = true) ws2 →
  J ≠ [] → Forall (λ c, ids_char c = true) J →
  re_match SUPPRESS_RE (py "#" ++ ws1 ++ kw ++ py "[" ++ J ++ py "]" ++ ws2)
  = Some [(1%nat, J)].
Proof.
  intros Hkw H1 H2 HJ0 HJ. unfold re_match, SUPPRESS_RE. cbn [rmatch].
  rewrite startswith_app_same, drop_app_length.
  apply star_k_stop; [done| |].
  { destruct Hkw as [->| ->]; by intros c [= <-]. }
  assert (∀ (k : pystr → option captures) m, k [] = Some m →
            star_k py_isspace ws2 k = Some m) as Hend.
  { intros k m Hk. rewrite <- (app_nil_r ws2). by apply star_k_stop. }
  destruct J as [|c J]; [done|]. clear HJ0.
  inversion_clear HJ as [|? ? Hc HJ'].
  destruct Hkw as [->| ->].
  - rewrite startswith_app_same, drop_app_length.
    rewrite startswith_app_same, drop_app_length.
    rewrite <- !app_comm_cons. cbv iota. rewrite Hc.
    match goal with |- context [star_k ids_char ?s ?k] =>
      assert (star_k ids_char s k = Some [(1%nat, c :: J)]) as ->; [|done] end.
    apply star_k_stop; [done|by intros ? [= <-]|].
    rewrite startswith_app_same, drop_app_length.
    apply Hend. cbn [rmatch]. do 3 f_equal.
    rewrite app_comm_cons. apply (take_app_sub (c :: J)).
  - change (startswith (py "nosec" ++ ?x) (py "gitsafe-ignore")) with false.
    cbv iota. rewrite startswith_app_same, drop_app_length.
    rewrite startswith_app_same, drop_app_length.
    rewrite <- !app_comm_cons. cbv iota. rewrite Hc.
    match goal with |- context [star_k ids_char ?s ?k] =>
      assert (star_k ids_char s k = Some [(1%nat, c :: J)]) as ->; [|done] end.
    apply star_k_stop; [done|by intros ? [= <-]|].
    rewrite startswith_app_same, drop_app_length.
    apply Hend. cbn [rmatch]. do 3 f_equal.
    rewrite app_comm_cons. apply (take_app_sub (c :: J)).
Qed.

Lemma split_on_app sep id : ∀ cur s,
  sep ∉ id → split_on sep cur (id ++ s) = split_on sep (rev id ++ cur) s.
Proof.
  induction id as [|c id IH]; intros cur s Hid; [done|].
  apply not_elem_of_cons in Hid as [Hc Hid].
  rewrite <- app_comm_cons. cbn [split_on].
  destruct (N.eqb_spec c sep) as [->|_]; [done|].
  rewrite IH by done. simpl. by rewrite <- app_assoc.
Qed.

(** [split] undoes [join]. *)
Lemma split_on_join sep ids :
  ids ≠ [] → Forall (λ id, sep ∉ id) ids → split_on sep [] (join_on sep ids) = ids.
Proof.
  intros Hne Hids. induction Hids as [|id ids Hid Hids IH]; [done|]. clear Hne.
  destruct ids as [|id2 ids].
  - simpl. rewrite <- (app_nil_r id) at 1. rewrite split_on_app by done.
    simpl. by rewrite app_nil_r, rev_involutive.
  - change (join_on sep (id :: id2 :: ids)) with (id ++ sep :: join_on sep (id2 :: ids)).
    rewrite split_on_app by done. cbn [split_on]. rewrite N.eqb_refl.
    rewrite app_nil_r, rev_involutive, IH by done. done.
Qed.

Lemma ident_char_not_space c : ident_char c = true → py_isspace c = false.
Proof.
  unfold ident_char, ascii_alnum, py_isspace. change (chr "_") with 95%N.
  intros Hc. apply not_true_is_false. intros Hs.
  repeat (rewrite orb_true_iff in Hc || rewrite andb_true_iff in Hc
          || rewrite N.leb_le in Hc || rewrite N.eqb_eq in Hc).
  repeat (rewrite orb_true_iff in Hs || rewrite andb_true_iff in Hs
          || rewrite N.leb_le in Hs || rewrite N.eqb_eq in Hs).
  lia.
Qed.

Lemma ident_char_ids_char c : ident_char c = true → ids_char c = true.
Proof. unfold ident_char, ids_char. intros ->. done. Qed.

Lemma lstrip_ws_id s :
  (∀ c, head s = Some c → py_isspace c = false) → lstrip_ws s = s.
Proof. destruct s as [|c s]; [done|]. intros Hc. simpl. by rewrite (Hc c). Qed.

(** [strip] leaves a string alone that neither begins nor ends with white
    space. *)
Lemma py_strip_id s :
  (∀ c, head s = Some c → py_isspace c = false) →
  (∀ c, last s = Some c → py_isspace c = false) →
  py_strip s = s.
Proof.
  intros Hh Hl. unfold py_strip. rewrite (lstrip_ws_id s) by done.
  rewrite lstrip_ws_id; [apply rev_involutive|].
  intros c Hc. apply Hl. rewrite <- Hc.
  destruct s as [|d s']; [done|]. rewrite <- (rev_involutive (d :: s')) at 1.
  destruct (rev (d :: s')) as [|e t]; [done|]. simpl. by rewrite last_snoc.
Qed.

Lemma Forall_head_last {A} (P : A → Prop) s :
  Forall P s → (∀ c, head s = Some c → P c) ∧ (∀ c, last s = Some c → P c).
Proof.
  intros Hs. split; intros c Hc.
  - destruct Hs; simplify_eq/=. done.
  - apply last_Some in Hc as [l' ->]. apply Forall_app in Hs as [_ Hs].
    by inversion Hs.
Qed.

Lemma join_on_ids_char ids :
  Forall (λ id, Forall (λ c, ident_char c = true) id) ids →
  Forall (λ c, ids_char c = true) (join_on (chr ",") ids).
Proof.
  induction 1 as [|id ids Hid Hids IH]; [done|].
  assert (Forall (λ c, ids_char c = true) id) as Hid'.
  { eapply Forall_impl; [exact Hid|]. apply ident_char_ids_char. }
  destruct ids as [|id2 ids]; [done|].
  change (join_on (chr ",") (id :: id2 :: ids))
    with (id ++ chr "," :: join_on (chr ",") (id2 :: ids)).
  apply Forall_app. split; [done|]. by constructor.
Qed.

(** (X5) A marker without a rule list. A line that ends in [#], optional
    white space, [gitsafe-ignore] or [nosec] and optional white space,
    with no [#] before the marker, is parsed as a suppression of all
    rules. *)
Theorem marker_suppresses_all code kw ws1 ws2 :
  chr "#" ∉ code → marker_keyword kw →
  Forall (λ c, py_isspace c = true) ws1 → Forall (λ c, py_isspace c = true) ws2 →
  parse_inline_suppression (code ++ py "#" ++ ws1 ++ kw ++ ws2) = (true, None).
Proof.
  intros Hcode Hkw H1 H2. unfold parse_inline_suppression.
  rewrite (re_find_skip SUPPRESS_RE (chr "#")) by done.
  change (py "#" ++ ws1 ++ kw ++ ws2) with (chr "#" :: ws1 ++ kw ++ ws2).
  rewrite re_find_cons.
  change (chr "#" :: ws1 ++ kw ++ ws2) with (py "#" ++ ws1 ++ kw ++ ws2).
  by rewrite suppress_match_all.
Qed.

(** (X6) A marker with a rule list. When the keyword is followed by a
    bracketed, comma-separated, non-empty list of rule identifiers (ASCII
    letters, digits and [_]), the line is parsed as a suppression of
    exactly the listed rules. *)
Theorem marker_suppresses_listed code kw ws1 ws2 ids :
  chr "#" ∉ code → marker_keyword kw →
  Forall (λ c, py_isspace c = true) ws1 → Forall (λ c, py_isspace c = true) ws2 →
  ids ≠ [] → Forall (λ id, id ≠ [] ∧ Forall (λ c, ident_char c = true) id) ids →
  parse_inline_suppression
    (code ++ py "#" ++ ws1 ++ kw ++ py "[" ++ join_on (chr ",") ids ++ py "]" ++ ws2)
  = (true, Some (list_to_set ids)).
Proof.
  intros Hcode Hkw H1 H2 Hne Hids. unfold parse_inline_suppression.
  assert (Forall (λ id, Forall (λ c, ident_char c = true) id) ids) as Hids1.
  { eapply Forall_impl; [exact Hids|]. by intros id [_ ?]. }
  assert (join_on (chr ",") ids ≠ []) as HJ.
  { destruct Hids as [|id ids [Hid _] _]; [done|].
    destruct id as [|c id]; [done|]. by destruct ids. }
  rewrite (re_find_skip SUPPRESS_RE (chr "#")) by done.
  pose proof (join_on_ids_char ids Hids1) as HJ1.
  remember (join_on (chr ",") ids) as J eqn:EJ.
  change (py "#" ++ ws1 ++ kw ++ py "[" ++ J ++ py "]" ++ ws2)
    with (chr "#" :: ws1 ++ kw ++ py "[" ++ J ++ py "]" ++ ws2).
  rewrite re_find_cons.
  change (chr "#" :: ws1 ++ kw ++ py "[" ++ J ++ py "]" ++ ws2)
    with (py "#" ++ ws1 ++ kw ++ py "[" ++ J ++ py "]" ++ ws2).
  rewrite suppress_match_scoped by done.
  cbn [group Nat.eqb]. destruct J as [|c J']; [done|]. rewrite EJ.
  rewrite split_on_join; [|done|].
  2:{ eapply Forall_impl; [exact Hids1|]. intros id Hid Hin.
      eapply (proj1 (Forall_forall _ _)) in Hid; [|exact Hin]. done. }
  do 3 f_equal.
  clear -Hids. induction Hids as [|id ids [Hid0 Hid] _ IH]; [done|].
  csimpl.
  assert (py_strip id = id) as ->.
  { assert (Forall (λ c, py_isspace c = false) id) as Hsp.
    { eapply Forall_impl; [exact Hid|]. apply ident_char_not_space. }
    apply Forall_head_last in Hsp as [Hh Hl]. by apply py_strip_id. }
  rewrite filter_cons_True by done. by rewrite IH.
Qed.

(** No [#], no marker. A line that holds no [#] character is never
    parsed as a suppression. *)
Lemma no_hash_no_marker line :
  chr "#" ∉ line → parse_inline_suppression line = (false, None).
Proof.
  intros Hl. unfold parse_inline_suppression.
  by rewrite (re_find_none SUPPRESS_RE (chr "#")).
Qed.

Lemma line_map_marked pre n c post ids :
  parse_inline_suppression c = (true, ids) → n ∉ post.*1 →
  line_map (pre ++ (n, c) :: post) !! n = Some (true, ids).
Proof.
  intros Hc Hn. unfold line_map. rewrite fold_left_app. cbn [fold_left].
  rewrite register_lines_other by done.
  unfold register_line. rewrite Hc.
  destruct (is_pure_comment c); simpl; by rewrite lookup_insert_eq.
Qed.

(** (X7) Same-line suppression. For the last entry of a line number in a
    file's list of added lines, if the line carries a marker then the
    index suppresses on that line every rule when the marker has no rule
    list, and exactly the listed rules when it has one; the record names
    the rule asked for and always gives the reason [inline]. *)
Theorem same_line_suppression self file pre n c post ids rule_id :
  parse_inline_suppression c = (true, ids) → n ∉ post.*1 →
  is_suppressed (register_lines self file (pre ++ (n, c) :: post)) file n rule_id
  = inline_record file n rule_id ids.
Proof.
  intros Hc Hn. unfold is_suppressed, register_lines.
  rewrite lookup_insert_eq, (line_map_marked pre n c post ids) by done.
  by destruct ids.
Qed.

Lemma register_lines_unmarked lines : ∀ rs,
  Forall (λ ln, (parse_inline_suppression ln.2).1 = false) lines →
  prev_suppress rs = None →
  mapping (fold_left register_line lines rs) = mapping rs.
Proof.
  induction lines as [|[n c] lines IH]; intros rs Hl Hp; [done|].
  inversion_clear Hl as [|? ? Hc Hl']. simpl in Hc.
  cbn [fold_left]. rewrite IH; [|done|].
  - unfold register_line. destruct (parse_inline_suppression c) as [b ids].
    simpl in Hc. subst b. by rewrite Hp.
  - unfold register_line. destruct (parse_inline_suppression c) as [b ids].
    simpl in Hc. by subst b.
Qed.

(** (X8) No marker, no suppression. When no added line of a file carries
    a marker, the index registered for the file suppresses nothing in it,
    whatever was registered for the file before. *)
Theorem unmarked_lines_not_suppressed self file lines n rule_id :
  Forall (λ ln, (parse_inline_suppression ln.2).1 = false) lines →
  is_suppressed (register_lines self file lines) file n rule_id = None.
Proof.
  intros Hl. unfold is_suppressed, register_lines, line_map.
  rewrite lookup_insert_eq, register_lines_unmarked by done.
  simpl. by rewrite lookup_empty.
Qed.

(** ** The ignore file *)

Section IgnoreFile.
Context `{PyRuntime}.

Lemma ignore_add_line_grows inst raw filepath rule_id :
  is_ignored inst filepath rule_id = true →
  is_ignored (ignore_add_line inst raw) filepath rule_id = true.
Proof.
  unfold ignore_add_line.
  destruct (bool_decide (py_strip raw = []) || startswith (py_strip raw) (py "#")); [done|].
  destruct (startswith (py_strip raw) (py "rule:")).
  - destruct (split_first_word [] (py_strip raw)) as [word [|c pattern]]; [done|].
    unfold is_ignored. cbn [_global_patterns _rule_patterns].
    intros Hi. apply orb_true_iff in Hi as [Hg|Hr]; [by rewrite Hg|].
    apply orb_true_iff. right.
    destruct rule_id as [[|d id]|]; [done| |done].
    destruct (decide (drop 5 word = d :: id)) as [->|Hne].
    + rewrite lookup_insert_eq. simpl. rewrite existsb_app, Hr. done.
    + by rewrite lookup_insert_ne.
  - unfold is_ignored. cbn [_global_patterns _rule_patterns].
    intros Hi. apply orb_true_iff in Hi as [Hg|Hr]; [|by rewrite Hr, orb_true_r].
    by rewrite existsb_app, Hg.
Qed.

(** The ignore file only grows. Whatever lines are appended to a
    [.gitsafeignore] file, every path that was ignored, for every rule or
    for a given one, is still ignored: no line of the file un-ignores. *)
Lemma ignore_file_monotone raws more filepath rule_id :
  is_ignored (ignore_from_file (Some raws)) filepath rule_id = true →
  is_ignored (ignore_from_file (Some (raws ++ more))) filepath rule_id = true.
Proof.
  unfold ignore_from_file. rewrite fold_left_app.
  generalize (fold_left ignore_add_line raws ignore_empty). intros inst.
  revert inst. induction more as [|raw more IH]; intros inst Hi; [done|].
  simpl. apply IH. by apply ignore_add_line_grows.
Qed.

Lemma split_first_word_app word : ∀ cur c rest,
  Forall (λ c, py_isspace c = false) word → py_isspace c = true →
  split_first_word cur (word ++ c :: rest) = (rev cur ++ word, lstrip_ws rest).
Proof.
  induction word as [|d word IH]; intros cur c rest Hw Hc.
  - simpl. by rewrite Hc, app_nil_r.
  - inversion_clear Hw as [|? ? Hd Hw']. rewrite <- app_comm_cons. cbn [split_first_word].
    rewrite Hd, IH by done. simpl. by rewrite <- app_assoc.
Qed.

(** (X9) A rule-scoped line. The line [rule:ID GLOB], for a non-empty
    identifier without white space and a glob that neither begins nor
    ends with white space, adds [GLOB] for the rule [ID] alone: a path is
    ignored afterwards for a rule exactly when it was before, or the rule
    is [ID] and the path matches [GLOB]; queries for no rule or for
    another rule are not affected. *)
Theorem ignore_rule_scoped_line inst rule_id glob filepath query :
  rule_id ≠ [] → Forall (λ c, py_isspace c = false) rule_id →
  glob ≠ [] →
  (∀ c, head glob = Some c → py_isspace c = false) →
  (∀ c, last glob = Some c → py_isspace c = false) →
  is_ignored (ignore_add_line inst (py "rule:" ++ rule_id ++ py " " ++ glob)) filepath query
  = is_ignored inst filepath query
    || bool_decide (query = Some rule_id) && fnmatch filepath glob.
Proof.
  intros Hid0 Hid Hg0 Hgh Hgl. unfold ignore_add_line.
  set (line := py "rule:" ++ rule_id ++ py " " ++ glob).
  assert (py_strip line = line) as ->.
  { apply py_strip_id; [by intros c [= <-]|]. intros c. subst line.
    rewrite !last_app. destruct (last glob) as [d|] eqn:El; [|by destruct glob using rev_ind; [|rewrite last_snoc in El]].
    intros [= <-]. by apply Hgl. }
  change (bool_decide (line = [])) with false.
  change (startswith line (py "#")) with false.
  change (startswith line (py "rule:")) with true. cbn [orb].
  subst line. rewrite (app_assoc (py "rule:")).
  change (py " " ++ glob) with (32%N :: glob).
  rewrite split_first_word_app; [|apply Forall_app; split; [by repeat constructor|done]|done].
  rewrite (lstrip_ws_id glob) by done. cbn [rev app].
  destruct glob as [|g glob']; [done|].
  rewrite drop_app_length' by done. 
  unfold is_ignored. cbn [_global_patterns _rule_patterns].
  destruct (existsb (λ pat, fnmatch filepath pat) (_global_patterns inst)); [done|].
  cbn [orb].
  destruct query as [[|q query]|].
  - rewrite bool_decide_eq_false_2; [done|]. intros [= Hq]. by destruct rule_id.
  - destruct (decide (rule_id = q :: query)) as [->|Hne].
    + rewrite lookup_insert_eq, bool_decide_eq_true_2 by done.
      simpl. rewrite existsb_app. simpl. by rewrite orb_false_r.
    + rewrite lookup_insert_ne by done.
      rewrite (bool_decide_eq_false_2 (Some (q :: query) = Some rule_id)) by congruence.
      by rewrite orb_false_r.
  - by rewrite bool_decide_eq_false_2.
Qed.

End IgnoreFile.

(** ** The aggregator: what a finding is made of *)

Section AggregatorContent.
Context `{PyRuntime}.

Lemma of_key_cons_eq raw raws : of_key (raw_key raw) (raw :: raws) = raw :: of_key (raw_key raw) raws.
Proof. unfold of_key. by rewrite filter_cons_True. Qed.

Lemma of_key_cons_ne k raw raws : raw_key raw ≠ k → of_key k (raw :: raws) = of_key k raws.
Proof. intros Hk. unfold of_key. by rewrite filter_cons_False. Qed.

(** The invariant of the loop of [deduplicate]: an entry of the final
    dictionary is an entry of the initial one merged with the later raw
    findings of its key, or a finding created from the first raw finding
    of its key and merged with the later ones. *)
Lemma dedup_loop_fold fail_on raws : ∀ merged counter k f',
  NoDup merged.*1 →
  (k, f') ∈ (dedup_loop fail_on raws (merged, counter)).1 →
  (∃ f, (k, f) ∈ merged ∧ f' = fold_left merge_raw (of_key k raws) f)
  ∨ ((k ∉ merged.*1)
     ∧ ∃ first rest c, of_key k raws = first :: rest
                       ∧ f' = fold_left merge_raw rest (new_finding c first fail_on)).
Proof.
  unfold dedup_loop.
  induction raws as [|raw raws IH]; intros merged counter k f' Hnd Hin.
  { left. by exists f'. }
  simpl in Hin.
  destruct (merged_update merged (raw_key raw) raw) as [merged1|] eqn:E.
  - destruct (merged_update_Some _ _ _ _ E) as (Hkeys & _).
    destruct (IH merged1 counter k f' ltac:(by rewrite Hkeys) Hin)
      as [(f1 & Hf1 & Hf')|(Hk & first & rest & c & Hof & Hf')].
    + destruct (merged_update_elem _ _ _ _ _ _ Hnd E Hf1) as [[Hne Hm]|[-> (f & Hm & ->)]].
      * left. exists f1. by rewrite of_key_cons_ne.
      * left. exists f. by rewrite of_key_cons_eq.
    + right. rewrite Hkeys in Hk.
      assert (raw_key raw ≠ k) as Hne.
      { intros <-. apply Hk. destruct (decide (raw_key raw ∈ merged.*1)) as [|Hn]; [done|].
        apply merged_update_None with (raw := raw) in Hn. congruence. }
      rewrite of_key_cons_ne by done. eauto 10.
  - apply merged_update_None in E.
    assert (NoDup (merged ++ [(raw_key raw, new_finding (counter + 1) raw fail_on)]).*1)
      as Hnd1.
    { rewrite fmap_app. apply NoDup_app. split; [done|]. split; [|apply NoDup_singleton].
      intros x Hx Hx'. apply list_elem_of_singleton in Hx'. by subst. }
    destruct (IH _ _ k f' Hnd1 Hin)
      as [(f1 & Hf1 & Hf')|(Hk & first & rest & c & Hof & Hf')].
    + apply elem_of_app in Hf1 as [Hf1|Hf1].
      * left. exists f1.
        assert (raw_key raw ≠ k) as Hne.
        { intros <-. apply E. by apply (list_elem_of_fmap_2 fst) in Hf1. }
        by rewrite of_key_cons_ne.
      * apply list_elem_of_singleton in Hf1. simplify_eq. right.
        split; [done|]. rewrite of_key_cons_eq. eauto 10.
    + right. rewrite fmap_app in Hk. apply not_elem_of_app in Hk as [Hk Hk'].
      assert (raw_key raw ≠ k) as Hne.
      { intros <-. apply Hk'. apply list_elem_of_here. }
      rewrite of_key_cons_ne by done. eauto 10.
Qed.

Lemma deduplicate_elem raws fail_on f :
  f ∈ deduplicate raws fail_on →
  (finding_key f, f) ∈ (dedup_loop fail_on raws ([], 0)).1.
Proof.
  intros Hf. unfold deduplicate in Hf. fold (dedup_loop fail_on raws ([], 0)) in Hf.
  pose proof (dedup_loop_consistent fail_on raws ([], 0) eq_refl) as Hcons.
  apply list_elem_of_fmap in Hf as ([k f0] & -> & Hin). simpl.
  assert (k = finding_key f0) as ->; [|done].
  apply list_elem_of_lookup in Hin as [i Hi].
  assert ((dedup_loop fail_on raws ([], 0)).1.*1 !! i = Some k) as H1
    by (by rewrite list_lookup_fmap, Hi).
  rewrite Hcons, <- list_fmap_compose, list_lookup_fmap, Hi in H1. by simplify_eq/=.
Qed.

(** What a finding is. Every finding of the output of
    [deduplicate] is the finding created from the first raw finding of
    its key, with the later raw findings of that key merged into it one
    after the other, in the order of the input. *)
Lemma deduplicate_merges raws fail_on f :
  f ∈ deduplicate raws fail_on →
  ∃ first rest c,
    of_key (finding_key f) raws = first :: rest
    ∧ f = fold_left merge_raw rest (new_finding c first fail_on).
Proof.
  intros Hf. apply deduplicate_elem in Hf.
  destruct (dedup_loop_fold fail_on raws [] 0 _ _ (NoDup_nil_2) Hf)
    as [(f1 & Hf1 & _)|(_ & Hfold)]; [by apply elem_of_nil in Hf1|done].
Qed.

Lemma fold_merge_raw_fields rest : ∀ f0,
  let f := fold_left merge_raw rest f0 in
  f_id f = f_id f0 ∧ f_rule_name f = f_rule_name f0
  ∧ f_category f = f_category f0 ∧ f_matched_value f = f_matched_value f0
  ∧ f_description f = f_description f0 ∧ f_commit f = f_commit f0
  ∧ f_is_blocking f = f_is_blocking f0
  ∧ f_entropy_value f = last_entropy (f_entropy_value f0) rest.
Proof.
  induction rest as [|raw rest IH]; intros f0; [done|].
  cbn [fold_left]. destruct (IH (merge_raw f0 raw)) as (H1 & H2 & H3 & H4 & H5 & H6 & H7 & H8).
  by rewrite H1, H2, H3, H4, H5, H6, H7, H8.
Qed.

(** (X10) The first detection wins. A finding takes its rule name,
    category, matched value, description, commit and [is_blocking] flag
    from the first raw finding of its key; later raw findings of the key
    change none of them. Its entropy value is the one of the last raw
    finding of the key that carries one. *)
Theorem deduplicate_first_wins raws fail_on f :
  f ∈ deduplicate raws fail_on →
  ∃ first rest,
    of_key (finding_key f) raws = first :: rest
    ∧ f_rule_name f = rf_rule_name first
    ∧ f_category f = rf_category first
    ∧ f_matched_value f = rf_matched_value first
    ∧ f_description f = rf_description first
    ∧ f_commit f = rf_commit first
    ∧ f_is_blocking f = severity_at_or_above (rf_severity first) fail_on
    ∧ f_entropy_value f = last_entropy None (first :: rest).
Proof.
  intros Hf. apply deduplicate_elem in Hf.
  destruct (dedup_loop_fold fail_on raws [] 0 _ _ (NoDup_nil_2) Hf)
    as [(f1 & Hf1 & _)|(_ & first & rest & c & Hof & ->)]; [by apply elem_of_nil in Hf1|].
  exists first, rest.
  destruct (fold_merge_raw_fields rest (new_finding c first fail_on))
    as (_ & H2 & H3 & H4 & H5 & H6 & H7 & H8).
  split; [exact Hof|].
  rewrite H2, H3, H4, H5, H6, H7, H8. repeat split.
  unfold last_entropy. simpl. by destruct (rf_entropy_value first).
Qed.

Lemma merge_raw_methods existing raw :
  NoDup (f_detection_methods existing) →
  NoDup (f_detection_methods (merge_raw existing raw))
  ∧ ∀ m, m ∈ f_detection_methods (merge_raw existing raw)
         ↔ m ∈ f_detection_methods existing ∨ m = rf_detection_method raw.
Proof.
  intros Hnd. unfold merge_raw. simpl. case_bool_decide as Hin.
  - split; [done|]. intros m. split; [by left|]. intros [?| ->]; done.
  - split.
    + apply NoDup_app. split; [done|]. split; [|apply NoDup_singleton].
      intros x Hx Hx'. apply list_elem_of_singleton in Hx'. by subst.
    + intros m. rewrite elem_of_app, list_elem_of_singleton. done.
Qed.

Lemma fold_merge_raw_methods rest : ∀ f0,
  NoDup (f_detection_methods f0) →
  NoDup (f_detection_methods (fold_left merge_raw rest f0))
  ∧ ∀ m, m ∈ f_detection_methods (fold_left merge_raw rest f0)
         ↔ m ∈ f_detection_methods f0 ∨ m ∈ rf_detection_method <$> rest.
Proof.
  induction rest as [|raw rest IH]; intros f0 Hnd.
  { split; [done|]. intros m. simpl. split; [by left|]. intros [?|Hm]; [done|].
    by apply elem_of_nil in Hm. }
  cbn [fold_left]. destruct (merge_raw_methods f0 raw Hnd) as [Hnd1 Hm1].
  destruct (IH _ Hnd1) as [Hnd2 Hm2]. split; [done|].
  intros m. rewrite Hm2, Hm1, fmap_cons, elem_of_cons. tauto.
Qed.

(** (X11) Detection methods. The detection methods of a finding are
    exactly the methods of the raw findings of its key, each listed once. *)
Theorem deduplicate_detection_methods raws fail_on f :
  f ∈ deduplicate raws fail_on →
  NoDup (f_detection_methods f)
  ∧ ∀ m, m ∈ f_detection_methods f
         ↔ m ∈ rf_detection_method <$> of_key (finding_key f) raws.
Proof.
  intros Hf. apply deduplicate_elem in Hf.
  destruct (dedup_loop_fold fail_on raws [] 0 _ _ (NoDup_nil_2) Hf)
    as [(f1 & Hf1 & _)|(_ & first & rest & c & Hof & Hfold)]; [by apply elem_of_nil in Hf1|].
  destruct (fold_merge_raw_methods rest (new_finding c first fail_on)) as [Hnd Hm].
  { apply NoDup_singleton. }
  rewrite <- Hfold in Hnd, Hm. split; [done|].
  intros m. rewrite Hm, Hof, fmap_cons, elem_of_cons. simpl.
  by rewrite list_elem_of_singleton.
Qed.

(** The gate at the bottom. When [fail_on] has ordinal 0, which is
    the case of ["low"] and of every string that is not one of the four
    severities, every finding is blocking. *)
Lemma fail_on_low_blocks_all raws fail_on f :
  SEVERITY_ORDER fail_on = 0 → f ∈ deduplicate raws fail_on → f_is_blocking f = true.
Proof.
  intros Hlow Hf.
  destruct (deduplicate_severity raws fail_on f Hf) as (_ & first & _ & ->).
  unfold severity_at_or_above. rewrite Hlow.
  apply Z.leb_le, SEVERITY_ORDER_nonneg.
Qed.

Lemma merged_update_ids merged key raw merged' :
  merged_update merged key raw = Some merged' → f_id <$> merged'.*2 = f_id <$> merged.*2.
Proof.
  revert merged'. induction merged as [|[k f] merged IH]; intros merged' Hu; simpl in *; [done|].
  case_bool_decide as Hk.
  - by simplify_eq.
  - destruct (merged_update merged key raw) as [m1|] eqn:E; simpl in Hu; [|done].
    simplify_eq. rewrite !fmap_cons. cbn [snd]. by rewrite (IH m1 eq_refl).
Qed.

(** The counter is the number of findings, and the identifiers are the
    numbers from 1 on. *)
Lemma dedup_loop_ids fail_on raws : ∀ merged counter,
  counter = Z.of_nat (length merged) →
  f_id <$> merged.*2 = finding_id <$> (Z.of_nat <$> seq 1 (length merged)) →
  let r := dedup_loop fail_on raws (merged, counter) in
  f_id <$> r.1.*2 = finding_id <$> (Z.of_nat <$> seq 1 (length r.1)).
Proof.
  unfold dedup_loop.
  induction raws as [|raw raws IH]; intros merged counter Hc Hids; [done|].
  cbn [fold_left dedup_step].
  destruct (merged_update merged (raw_key raw) raw) as [merged1|] eqn:E.
  - apply IH.
    + destruct (merged_update_Some _ _ _ _ E) as (_ & _ & ->). done.
    + destruct (merged_update_Some _ _ _ _ E) as (_ & _ & ->).
      by rewrite (merged_update_ids _ _ _ _ E).
  - apply IH.
    + rewrite length_app. simpl. lia.
    + rewrite !fmap_app, length_app, Hids. simpl length.
      rewrite Nat.add_1_r, seq_S, !fmap_app. simpl. do 3 f_equal. lia.
Qed.

Lemma read_decimal_zeros k d :
  read_decimal 0 (replicate k (chr "0") ++ d) = read_decimal 0 d.
Proof. unfold read_decimal. induction k as [|k IH]; [done|]. simpl. exact IH. Qed.

(** The number of a finding can be read back from its identifier. *)
Lemma finding_id_number i :
  read_decimal 0 (drop 8 (finding_id (Z.of_nat i))) = N.of_nat i.
Proof.
  unfold finding_id.
  change 8%nat with (length (py "FINDING-")). rewrite drop_app_length.
  rewrite read_decimal_zeros. unfold str_of_Z.
  destruct (Z.ltb_spec (Z.of_nat i) 0) as [?|_]; [lia|].
  rewrite <- nat_N_Z, N2Z.id. apply str_of_N_spec.
Qed.

(** (X12) Finding identifiers. The findings of the output carry the
    identifiers [FINDING-001], [FINDING-002], ... in the order of the
    output, the number written with at least three digits; no two findings
    share an identifier. *)
Theorem deduplicate_ids raws fail_on :
  f_id <$> deduplicate raws fail_on
  = finding_id <$> (Z.of_nat <$> seq 1 (length (deduplicate raws fail_on)))
  ∧ NoDup (f_id <$> deduplicate raws fail_on).
Proof.
  assert (f_id <$> deduplicate raws fail_on
          = finding_id <$> (Z.of_nat <$> seq 1 (length (deduplicate raws fail_on)))) as Hids.
  { unfold deduplicate. fold (dedup_loop fail_on raws ([], 0)).
    rewrite length_fmap. by apply (dedup_loop_ids fail_on raws [] 0). }
  split; [done|]. rewrite Hids, <- list_fmap_compose.
  apply (NoDup_fmap_2_strong _).
  - intros i j _ _ Hij. simpl in Hij.
    apply (f_equal (λ s, read_decimal 0 (drop 8 s))) in Hij.
    rewrite !finding_id_number in Hij. lia.
  - apply NoDup_seq.
Qed.

Lemma dedup_loop_order fail_on raws : ∀ merged counter,
  (dedup_loop fail_on raws (merged, counter)).1.*1
  = merged.*1 ++ first_occurrences merged.*1 (raw_key <$> raws).
Proof.
  unfold dedup_loop.
  induction raws as [|raw raws IH]; intros merged counter.
  { simpl. by rewrite app_nil_r. }
  cbn [fold_left dedup_step]. rewrite fmap_cons. cbn [first_occurrences].
  destruct (merged_update merged (raw_key raw) raw) as [merged1|] eqn:E.
  - rewrite IH. destruct (merged_update_Some _ _ _ _ E) as (-> & _).
    rewrite bool_decide_eq_true_2; [done|].
    destruct (decide (raw_key raw ∈ merged.*1)) as [|Hn]; [done|].
    apply merged_update_None with (raw := raw) in Hn. congruence.
  - rewrite IH. apply merged_update_None in E.
    rewrite bool_decide_eq_false_2 by done.
    rewrite fmap_app. simpl. by rewrite <- app_assoc.
Qed.

(** (X13) Order of the output. The findings come in the order in which
    their keys first occur among the raw findings, one finding per key. *)
Theorem deduplicate_order raws fail_on :
  finding_key <$> deduplicate raws fail_on = first_occurrences [] (raw_key <$> raws).
Proof.
  unfold deduplicate. fold (dedup_loop fail_on raws ([], 0)).
  rewrite <- dedup_loop_consistent by done.
  by rewrite dedup_loop_order.
Qed.

(** (X14) Blocking and informational findings. In the result of a scan
    every finding is either blocking or informational, never both, so the
    two lists together have [total_findings] entries; and the result is
    blocked exactly when it has a blocking finding. *)
Theorem scan_result_partition diff_text config registry ignorefile r :
  scan diff_text config registry ignorefile = Ok r →
  total_findings r
    = (length (blocking_findings r) + length (informational_findings r))%nat
  ∧ (blocked r = true ↔ blocking_findings r ≠ [])
  ∧ ∀ f, ¬ (f ∈ blocking_findings r ∧ f ∈ informational_findings r).
Proof.
  intros Hr. unfold total_findings, blocking_findings, informational_findings.
  split; [|split].
  - generalize (findings r). intros fs.
    induction fs as [|f fs IH]; [done|]. simpl.
    destruct (f_is_blocking f) eqn:E.
    + rewrite filter_cons_True, (filter_cons_False (λ f, f_is_blocking f = false)) by (done || congruence).
      simpl. by rewrite IH.
    + rewrite filter_cons_False, (filter_cons_True (λ f, f_is_blocking f = false)) by (done || congruence).
      simpl. rewrite IH. lia.
  - rewrite (scan_blocked _ _ _ _ _ Hr). split.
    + intros (f & Hf & Hb) Hnil.
      assert (f ∈ filter (λ f, f_is_blocking f = true) (findings r)) as Hin
        by (by apply list_elem_of_filter).
      rewrite Hnil in Hin. by apply elem_of_nil in Hin.
    + intros Hne. destruct (filter _ (findings r)) as [|f fs] eqn:E; [done|].
      exists f. assert (f ∈ filter (λ f, f_is_blocking f = true) (findings r)) as Hin
        by (rewrite E; apply list_elem_of_here).
      apply list_elem_of_filter in Hin as [? ?]. done.
  - intros f [H1 H2]. apply list_elem_of_filter in H1 as [H1 _].
    apply list_elem_of_filter in H2 as [H2 _]. congruence.
Qed.

End AggregatorContent.

(** ** Redaction *)

(** (X15) What redaction shows. The redacted text has at most ten
    characters, whatever the length of the value. For a value of more
    than six characters outside CI mode it is the first four characters,
    three dots and the last two, and the two shown parts do not overlap:
    the value has at least one character between them, which is hidden. A
    shorter value, and every value in CI mode, is replaced as a whole. *)
Theorem redact_hides value ci_mode :
  (length (redact value ci_mode) ≤ 10)%nat
  ∧ ((length value ≤ 6)%nat ∨ ci_mode = true → redact value ci_mode = py "[REDACTED]")
  ∧ ((6 < length value)%nat → ci_mode = false →
     ∃ shown1 hidden shown2,
       value = shown1 ++ hidden ++ shown2
       ∧ length shown1 = 4%nat ∧ length shown2 = 2%nat ∧ hidden ≠ []
       ∧ redact value ci_mode = shown1 ++ py "..." ++ shown2).
Proof.
  unfold redact, redact_ci, redact_local.
  split; [|split].
  - destruct ci_mode; [simpl; lia|].
    destruct (Nat.leb_spec (length value) 6); [simpl; lia|].
    rewrite !length_app, length_take, length_drop.
    change (length (py "...")) with 3%nat. lia.
  - intros [Hl| ->]; [|done]. destruct ci_mode; [done|].
    by rewrite (proj2 (Nat.leb_le _ _) Hl).
  - intros Hl ->. rewrite (proj2 (Nat.leb_gt _ _) Hl).
    exists (take 4 value), (take (length value - 6) (drop 4 value)),
           (drop (length value - 2) value).
    split; [|split; [|split; [|split]]].
    + rewrite <- (take_drop 4 value) at 1. f_equal.
      rewrite <- (take_drop (length value - 6) (drop 4 value)) at 1. f_equal.
      rewrite drop_drop. f_equal. lia.
    + rewrite length_take. lia.
    + rewrite length_drop. lia.
    + intros Hnil. apply (f_equal length) in Hnil.
      rewrite length_take, length_drop in Hnil. simpl in Hnil. lia.
    + done.
Qed.

(** The values of the test suite. *)
Example redact_values :
  redact (py "AKIAIOSFODNN7REAL123") false = py "AKIA...23"
  ∧ redact (py "short") false = py "[REDACTED]"
  ∧ redact (py "AKIAIOSFODNN7REAL123") true = py "[REDACTED]".
Proof. by vm_compute. Qed.

(** ** Entropy candidates *)

Lemma token_char_not_quote c : token_char c = true → c ∉ [39%N; 34%N].
Proof.
  unfold token_char, one_of. intros Hc Hin.
  apply negb_true_iff, orb_false_iff in Hc as [_ Hc].
  apply bool_decide_eq_false in Hc. apply Hc.
  apply elem_of_cons in Hin as [->|Hin]; [apply list_elem_of_here|].
  apply list_elem_of_singleton in Hin as ->. apply list_elem_of_further, list_elem_of_here.
Qed.

(** Every token is a non-empty run of token characters, and a contiguous
    piece of what was read. *)
Lemma findall_tokens_spec s : ∀ cur tok,
  Forall (λ c, token_char c = true) cur →
  tok ∈ findall_tokens cur s →
  tok ≠ [] ∧ Forall (λ c, token_char c = true) tok
  ∧ ∃ pre post, rev cur ++ s = pre ++ tok ++ post.
Proof.
  induction s as [|c s IH]; intros cur tok Hcur Htok.
  - simpl in Htok. destruct cur as [|d cur]; [by apply elem_of_nil in Htok|].
    apply list_elem_of_singleton in Htok as ->.
    split; [|split].
    + simpl. by destruct (rev cur).
    + by apply Forall_rev.
    + exists [], []. by rewrite !app_nil_r.
  - cbn [findall_tokens] in Htok. destruct (token_char c) eqn:Ec.
    + destruct (IH (c :: cur) tok ltac:(by constructor) Htok) as (H1 & H2 & pre & post & Heq).
      split; [done|]. split; [done|]. exists pre, post. rewrite <- Heq. simpl.
      by rewrite <- app_assoc.
    + destruct cur as [|d cur].
      * destruct (IH [] tok ltac:(done) Htok) as (H1 & H2 & pre & post & Heq).
        split; [done|]. split; [done|]. exists (c :: pre), post. simpl in *. by rewrite Heq.
      * apply elem_of_cons in Htok as [->|Htok].
        -- split; [|split].
           ++ simpl. by destruct (rev cur).
           ++ by apply Forall_rev.
           ++ exists [], (c :: s). done.
        -- destruct (IH [] tok ltac:(done) Htok) as (H1 & H2 & pre & post & Heq).
           split; [done|]. split; [done|].
           exists (rev (d :: cur) ++ c :: pre), post. simpl in Heq.
           rewrite <- !app_assoc. simpl. by rewrite Heq.
Qed.

Lemma lstrip_chars_id chars s :
  (∀ c, head s = Some c → c ∉ chars) → lstrip_chars chars s = s.
Proof.
  destruct s as [|c s]; [done|]. intros Hc. simpl.
  by rewrite bool_decide_eq_false_2 by (by apply Hc).
Qed.

Lemma strip_chars_id chars s : Forall (λ c, c ∉ chars) s → strip_chars chars s = s.
Proof.
  intros Hs. unfold strip_chars.
  rewrite (lstrip_chars_id chars s).
  - rewrite lstrip_chars_id; [apply rev_involutive|].
    intros c Hc. apply Forall_rev in Hs. destruct Hs; simplify_eq/=. done.
  - intros c Hc. destruct Hs; simplify_eq/=. done.
Qed.

(** Candidates are tokens. The quote stripping of
    [extract_candidates] never removes anything, the token pattern
    excluding both quote characters: the candidates of a line are its
    tokens of at least [min_length] characters, unchanged. *)
Lemma extract_candidates_tokens line min_length :
  extract_candidates line min_length
  = filter (λ tok, min_length ≤ Z.of_nat (length tok)) (findall_tokens [] line).
Proof.
  unfold extract_candidates. f_equal.
  assert (∀ toks, Forall (λ tok, Forall (λ c, token_char c = true) tok) toks →
            strip_chars [39%N; 34%N] <$> toks = toks) as Hid.
  { induction 1 as [|tok toks Htok _ IH]; [done|]. csimpl. rewrite IH. f_equal.
    apply strip_chars_id. eapply Forall_impl; [exact Htok|]. apply token_char_not_quote. }
  apply Hid. apply Forall_forall. intros tok Htok.
  by destruct (findall_tokens_spec line [] tok ltac:(done) Htok) as (_ & ? & _).
Qed.

(** What a candidate is. Every candidate of a line is a contiguous
    piece of the line, at least [min_length] characters long, that holds
    no white space, no quote and none of the separators
    [= : ; , < > ( ) { }] and the square brackets. *)
Lemma extract_candidates_spec line min_length candidate :
  candidate ∈ extract_candidates line min_length →
  min_length ≤ Z.of_nat (length candidate)
  ∧ Forall (λ c, token_char c = true) candidate
  ∧ ∃ pre post, line = pre ++ candidate ++ post.
Proof.
  rewrite extract_candidates_tokens. intros Hc.
  apply list_elem_of_filter in Hc as [Hlen Htok].
  destruct (findall_tokens_spec line [] candidate ltac:(done) Htok) as (_ & Hchars & Hsub).
  done.
Qed.

Section EntropyFacts.
Context `{PyRuntime}.

(** Short lines. A line shorter than [min_length] has no candidate,
    hence no high-entropy hit, whatever the threshold: the entropy of no
    token is computed. *)
Lemma find_high_entropy_short line min_entropy min_length :
  Z.of_nat (length line) < min_length →
  extract_candidates line min_length = []
  ∧ find_high_entropy line min_entropy min_length = [].
Proof.
  intros Hlen.
  assert (extract_candidates line min_length = []) as Hnil.
  { destruct (extract_candidates line min_length) as [|tok toks] eqn:E; [done|].
    destruct (extract_candidates_spec line min_length tok) as (Hl & _ & pre & post & Heq).
    { rewrite E. apply list_elem_of_here. }
    apply (f_equal length) in Heq. rewrite !length_app in Heq. lia. }
  split; [done|]. unfold find_high_entropy. by rewrite Hnil.
Qed.

(** (X16) High-entropy hits. Every hit of [find_high_entropy] on a line
    is a contiguous piece of the line, at least [min_length] characters
    long, that holds no white space, no quote and none of the separators
    [= : ; , < > ( ) { }] and the square brackets, paired with its own
    entropy, which reaches the threshold. *)
Theorem find_high_entropy_hits line min_entropy min_length candidate h :
  (candidate, h) ∈ find_high_entropy line min_entropy min_length →
  h = shannon_entropy candidate
  ∧ float_ge h min_entropy = true
  ∧ min_length ≤ Z.of_nat (length candidate)
  ∧ Forall (λ c, token_char c = true) candidate
  ∧ ∃ pre post, line = pre ++ candidate ++ post.
Proof.
  unfold find_high_entropy. intros Hin.
  apply list_elem_of_omap in Hin as (cand & Hcand & Hsome).
  destruct (float_ge (shannon_entropy cand) min_entropy) eqn:E; [|done].
  injection Hsome as -> <-.
  split; [done|]. split; [done|]. by apply extract_candidates_spec.
Qed.

End EntropyFacts.

(** ** The engine: what a scan can raise *)

Section EngineOutcomes.
Context `{PyRuntime}.





Section PassOutcomes.
Variable config : GitSafeConfig.
Variable global_allowlist : list Pattern.
Variable ignorefile : GitSafeIgnore.
Variable checker : SuppressionChecker.
Variable registry : list Rule.





End PassOutcomes.




Section NoRaise.
Variable config : GitSafeConfig.
Variable global_allowlist : list Pattern.
Variable ignorefile : GitSafeIgnore.
Variable checker : SuppressionChecker.
Variable registry : list Rule.
Hypothesis rules_compile : ∀ rule, rule ∈ enabled_rules registry →
  (∃ cp, compiled_pattern rule = Ok cp) ∧ ∃ al, compiled_allowlist rule = Ok al.
Hypothesis secret_matched : ∀ rule cp content m, rule ∈ content_rules registry →
  compiled_pattern rule = Ok (Some cp) → re_search cp content = Some m →
  m_secret m ≠ Some None.





End NoRaise.


End EngineOutcomes.

(** ** The engine: where findings and suppressions come from *)

Section EngineSources.
Context `{PyRuntime}.


Section PassSources.
Variable config : GitSafeConfig.
Variable global_allowlist : list Pattern.
Variable ignorefile : GitSafeIgnore.
Variable checker : SuppressionChecker.
Variable registry : list Rule.

Lemma sourced_add_raw st raw :
  sourced config registry st → reported_by config registry (rf_rule_id raw) (rf_line_no raw) →
  sourced config registry (add_raw st raw).
Proof.
  intros Hst Hraw raw' Hin. simpl in Hin.
  apply elem_of_app in Hin as [Hin|Hin]; [by apply Hst|].
  apply list_elem_of_singleton in Hin. by subst.
Qed.

Lemma scan_file_rule_sourced filepath st rule :
  rule ∈ file_rules registry → sourced config registry st → sourced config registry (scan_file_rule filepath st rule).1.
Proof.
  intros Hr Hst. unfold file_rules, enabled_rules in Hr.
  apply list_elem_of_filter in Hr as [Hf Hr]. apply list_elem_of_filter in Hr as [Hen Hr].
  unfold scan_file_rule. repeat case_match; simpl; try done.
  apply sourced_add_raw; [done|]. left. exists rule. simpl. by eauto 10.
Qed.

Lemma scan_content_rule_sourced filepath line_no content st rule :
  rule ∈ content_rules registry → sourced config registry st →
  sourced config registry (scan_content_rule config global_allowlist ignorefile checker
             filepath line_no content st rule).1.
Proof.
  intros Hr Hst. unfold content_rules, enabled_rules in Hr.
  apply list_elem_of_filter in Hr as [Hf Hr]. apply list_elem_of_filter in Hr as [Hen Hr].
  unfold scan_content_rule.
  destruct (is_entropy_rule rule) eqn:Ee; [done|].
  unfold compiled_pattern. destruct (pattern rule) as [p|] eqn:Ep; [|done].
  repeat case_match; simpl; try done.
  all: apply sourced_add_raw; [done|]; left; exists rule; simpl;
    split; [done|]; split; [done|]; split; [done|]; right; by rewrite Ep.
Qed.

Lemma scan_entropy_hit_sourced filepath line_no st hit :
  ent_enabled (cfg_entropy config) = true → sourced config registry st →
  sourced config registry (scan_entropy_hit global_allowlist ignorefile checker filepath line_no st hit).1.
Proof.
  intros He Hst. unfold scan_entropy_hit. destruct hit as [candidate h].
  repeat case_match; simpl; try done.
  apply sourced_add_raw; [done|]. by right.
Qed.

Lemma scan_item_sourced st item :
  sourced config registry st →
  sourced config registry (scan_item config global_allowlist ignorefile checker
             (content_rules registry) (file_rules registry) st item).1.
Proof.
  intros Hst. unfold scan_item. destruct item as [dl|df|sk]; [| |done].
  - destruct (negb _); [done|]. destruct (bool_decide _); [done|].
    match goal with |- context [for_each ?body (content_rules registry) ?s] =>
      pose proof (for_each_inv (sourced config registry) body (content_rules registry) s Hst
                    (λ st' x Hx Hs, scan_content_rule_sourced _ _ _ st' x Hx Hs)) as H1;
      destruct (for_each body (content_rules registry) s) as [st1 [e1|]]; [done|] end.
    simpl in H1.
    destruct (ent_enabled (cfg_entropy config)) eqn:Ee.
    + match goal with |- context [for_each ?body ?hits st1] =>
        pose proof (for_each_inv (sourced config registry) body hits st1 H1
                      (λ st' x _ Hs, scan_entropy_hit_sourced _ _ st' x Ee Hs)) as H2;
        destruct (for_each body hits st1) as [st2 [e2|]]; done end.
    + done.
  - destruct (existsb _ _); [done|]. destruct (is_ignored _ _ _); [done|].
    match goal with |- context [for_each ?body (file_rules registry) ?s] =>
      pose proof (for_each_inv (sourced config registry) body (file_rules registry) s Hst
                    (λ st' x Hx Hs, scan_file_rule_sourced _ st' x Hx Hs)) as H1;
      destruct (for_each body (file_rules registry) s) as [st1 [e1|]]; done end.
Qed.

Lemma main_pass_sourced items st :
  sourced config registry st →
  sourced config registry (main_pass config global_allowlist ignorefile checker
             (content_rules registry) (file_rules registry) items st).1.
Proof.
  intros Hst. unfold main_pass. apply for_each_inv; [done|].
  intros st' item _. apply scan_item_sourced.
Qed.

End PassSources.

(** (X20) Where a finding comes from. Every finding of a scan is the
    work of an enabled rule of the registry with the finding's rule
    identifier, either a file rule, the finding then being at line 0, or a
    rule with a pattern that is neither a file rule nor an entropy rule;
    or it is the work of the entropy detector, which must be enabled, and
    carries the identifier [HIGH_ENTROPY_STRING]. A disabled rule reports
    nothing, and with entropy detection off nothing is reported without a
    rule. *)
Theorem scan_finding_source diff_text config registry ignorefile r f :
  scan diff_text config registry ignorefile = Ok r →
  f ∈ findings r →
  reported_by config registry (f_rule_id f) (f_line_no f).
Proof.
  intros Hr Hf. apply scan_Ok_inv in Hr as (gl & items & _ & _ & Hr).
  unfold scan_finish in Hr.
  destruct (scan_pass _ config gl registry ignorefile) as [st [[]|]] eqn:Ep; simplify_eq/=.
  apply deduplicate_file in Hf as (raw & Hraw & Hk).
  unfold raw_key, finding_key in Hk. simplify_eq.
  unfold scan_pass in Ep.
  match type of Ep with main_pass _ _ _ ?ch _ _ ?items _ = _ =>
    pose proof (main_pass_sourced config gl ignorefile ch registry items scan_init) as Hs end.
  rewrite Ep in Hs. simpl in Hs.
  match goal with H : rf_rule_id raw = _, H' : rf_line_no raw = _ |- _ =>
    rewrite <- H, <- H' end.
  apply Hs; [|done]. intros raw' Hin. by apply elem_of_nil in Hin.
Qed.

End EngineSources.

(** ** The engine: markers and entropy rules *)

Section EngineMarkers.
Context `{PyRuntime}.

Lemma bucket_append_elem file_lines file entry f lines :
  (f, lines) ∈ bucket_append file_lines file entry →
  (f, lines) ∈ file_lines
  ∨ ∃ lines0, lines = lines0 ++ [entry]
              ∧ (lines0 = [] ∨ (f, lines0) ∈ file_lines).
Proof.
  induction file_lines as [|[f0 l0] file_lines IH]; simpl.
  - intros Hin. apply list_elem_of_singleton in Hin. simplify_eq.
    right. exists []. split; [done|by left].
  - case_bool_decide as Hf.
    + intros Hin. apply elem_of_cons in Hin as [Hin|Hin].
      * simplify_eq. right. exists l0. split; [done|]. right. apply list_elem_of_here.
      * left. by apply list_elem_of_further.
    + intros Hin. apply elem_of_cons in Hin as [Hin|Hin].
      * simplify_eq. left. apply list_elem_of_here.
      * destruct (IH Hin) as [?|(lines0 & -> & [->|?])].
        -- left. by apply list_elem_of_further.
        -- right. exists []. split; [done|by left].
        -- right. exists lines0. split; [done|]. right. by apply list_elem_of_further.
Qed.

(** The per-file lists hold the contents of the added lines of the
    stream. *)
Lemma build_file_lines_contents (P : pystr → Prop) items :
  (∀ dl, ItLine dl ∈ items → P (dl_content dl)) →
  ∀ f lines, (f, lines) ∈ build_file_lines items → Forall (λ ln, P ln.2) lines.
Proof.
  unfold build_file_lines.
  assert (∀ acc, (∀ dl, ItLine dl ∈ items → P (dl_content dl)) →
            (∀ f lines, (f, lines) ∈ acc → Forall (λ ln : Z * pystr, P ln.2) lines) →
            ∀ f lines,
              (f, lines) ∈ fold_left
                (λ file_lines item,
                   match item with
                   | ItLine l =>
                       if bool_decide (dl_line_type l = ADDED)
                       then bucket_append file_lines (dl_file l) (dl_line_no l, dl_content l)
                       else file_lines
                   | _ => file_lines
                   end) items acc →
              Forall (λ ln : Z * pystr, P ln.2) lines) as Hgen.
  { induction items as [|item items IH]; intros acc Hitems Hacc f lines Hin; [by eapply Hacc|].
    simpl in Hin. eapply IH; [| |exact Hin].
    - intros dl Hdl. apply Hitems. by apply list_elem_of_further.
    - destruct item as [dl| |]; [|done..].
      case_bool_decide; [|done]. intros f' lines' Hin'.
      apply bucket_append_elem in Hin' as [?|(lines0 & -> & Hl0)]; [by eapply Hacc|].
      apply Forall_app. split.
      + destruct Hl0 as [->|?]; [done|by eapply Hacc].
      + constructor; [|done]. simpl. apply Hitems. apply list_elem_of_here. }
  intros Hitems. apply Hgen; [done|]. intros f lines Hin. by apply elem_of_nil in Hin.
Qed.

(** An index built from lines without markers suppresses nothing. *)
Lemma build_checker_unmarked file_lines file line_no rule_id :
  (∀ f lines, (f, lines) ∈ file_lines →
     Forall (λ ln, (parse_inline_suppression ln.2).1 = false) lines) →
  is_suppressed (build_checker file_lines) file line_no rule_id = None.
Proof.
  unfold build_checker. intros Hfl.
  assert (∀ acc : SuppressionChecker,
            (∀ f (m : gmap Z sup_entry), acc !! f = Some m → m = ∅) →
            ∀ f (m : gmap Z sup_entry),
              fold_left (λ checker '(file, lines), register_lines checker file lines)
                file_lines acc !! f = Some m → m = ∅) as Hgen.
  { revert Hfl. induction file_lines as [|[f0 l0] file_lines IH]; intros Hfl acc Hacc f m Hm;
      [by eapply Hacc|].
    simpl in Hm. eapply IH; [| |exact Hm].
    - intros f' lines' Hin. eapply Hfl. by apply list_elem_of_further.
    - intros f' m'. unfold register_lines.
      destruct (decide (f0 = f')) as [->|Hne].
      + rewrite lookup_insert_eq. intros [= <-]. unfold line_map.
        rewrite register_lines_unmarked; [done| |done].
        eapply Hfl. apply list_elem_of_here.
      + rewrite lookup_insert_ne by done. apply Hacc. }
  unfold is_suppressed.
  destruct (fold_left _ file_lines ∅ !! file) as [m|] eqn:Em; [|done].
  apply Hgen in Em as ->; [|intros f m'; by rewrite lookup_empty].
  by rewrite lookup_empty.
Qed.

Section PassMarkers.
Variable config : GitSafeConfig.
Variable global_allowlist : list Pattern.
Variable ignorefile : GitSafeIgnore.
Variable checker : SuppressionChecker.
Variable the_content_rules : list Rule.
Variable the_file_rules : list Rule.
Hypothesis no_marker : ∀ file line_no rule_id,
  is_suppressed checker file line_no rule_id = None.

Lemma main_pass_no_suppression items st :
  suppressions st = [] →
  suppressions (main_pass config global_allowlist ignorefile checker
                  the_content_rules the_file_rules items st).1 = [].
Proof.
  intros Hst. unfold main_pass.
  apply (for_each_inv (λ st, suppressions st = [])); [done|].
  intros st0 item _ Hst0. unfold scan_item. destruct item as [dl|df|sk]; [| |done].
  - destruct (negb _); [done|]. destruct (bool_decide _); [done|].
    match goal with |- context [for_each ?body the_content_rules ?s] =>
      pose proof (for_each_inv (λ st, suppressions st = []) body the_content_rules s Hst0)
        as H1 end.
    destruct (for_each _ the_content_rules _) as [st1 [e1|]].
    + apply H1. intros st' rule _ Hs'. unfold scan_content_rule.
      rewrite no_marker. repeat case_match; done.
    + assert (suppressions st1 = []) as Hst1.
      { apply H1. intros st' rule _ Hs'. unfold scan_content_rule.
        rewrite no_marker. repeat case_match; done. }
      match goal with |- context [for_each ?body ?hits st1] =>
        pose proof (for_each_inv (λ st, suppressions st = []) body hits st1 Hst1) as H2;
        destruct (for_each body hits st1) as [st2 [e2|]] end.
      all: apply H2; intros st' [c h] _ Hs'; unfold scan_entropy_hit;
        rewrite no_marker; repeat case_match; done.
  - destruct (existsb _ _); [done|]. destruct (is_ignored _ _ _); [done|].
    match goal with |- context [for_each ?body the_file_rules ?s] =>
      pose proof (for_each_inv (λ st, suppressions st = []) body the_file_rules s Hst0)
        as H1;
      destruct (for_each body the_file_rules s) as [st1 [e1|]] end.
    all: apply H1; intros st' rule _ Hs'; unfold scan_file_rule; repeat case_match; done.
Qed.

End PassMarkers.

(** (X21) No [#], no suppression. When no added line of the diff holds a
    [#] character, the result of the scan lists no suppression: a match is
    then never withheld as suppressed. *)
Theorem scan_no_hash_no_suppression diff_text config registry ignorefile r :
  (∀ dl, ItLine dl ∈ parse_items diff_text → chr "#" ∉ dl_content dl) →
  scan diff_text config registry ignorefile = Ok r →
  suppressed r = [].
Proof.
  intros Hhash Hr. apply scan_Ok_inv in Hr as (gl & items & _ & _ & Hr).
  unfold scan_finish in Hr.
  destruct (scan_pass _ config gl registry ignorefile) as [st [[]|]] eqn:Ep; simplify_eq/=.
  unfold scan_pass in Ep.
  match type of Ep with main_pass _ _ _ ?ch ?cr ?fr ?items _ = _ =>
    pose proof (main_pass_no_suppression config gl ignorefile ch cr fr) as Hs end.
  specialize (Hs ltac:(
    intros file line_no rule_id; apply build_checker_unmarked;
    apply (build_file_lines_contents (λ c, (parse_inline_suppression c).1 = false));
    intros dl Hdl; unfold parse_inline_suppression;
    by rewrite (re_find_none SUPPRESS_RE (chr "#")) by (done || by apply Hhash))
    (parse_items diff_text) scan_init eq_refl).
  by rewrite Ep in Hs.
Qed.

Lemma for_each_skip {A} (body : ScanState → A → ScanState * ctl) xs x ys :
  (∀ st, body st x = (st, Next)) →
  ∀ st, for_each body (xs ++ x :: ys) st = for_each body (xs ++ ys) st.
Proof.
  intros Hx. induction xs as [|y xs IH]; intros st; simpl.
  - by rewrite Hx.
  - destruct (body st y) as [st' []]; [apply IH|done..].
Qed.

Lemma for_each_ext {A} (body body' : ScanState → A → ScanState * ctl) xs :
  (∀ st x, body st x = body' st x) → ∀ st, for_each body xs st = for_each body' xs st.
Proof.
  intros Hb. induction xs as [|x xs IH]; intros st; [done|]. simpl.
  rewrite Hb. destruct (body' st x) as [st' []]; [apply IH|done..].
Qed.

(** (X22) Entropy rules are inert. A rule with [min_entropy] set that is
    not a file rule, such as the built-in [HIGH_ENTROPY_STRING], has no
    part in a scan, whether enabled or not and whatever its pattern:
    taking it out of the registry changes nothing in what [scan] returns
    or raises. Entropy detection is governed by the [entropy] section of
    the configuration alone. *)
Theorem entropy_rule_inert diff_text config registry1 rule registry2 ignorefile :
  is_entropy_rule rule = true → is_file_rule rule = false →
  scan diff_text config (registry1 ++ rule :: registry2) ignorefile
  = scan diff_text config (registry1 ++ registry2) ignorefile.
Proof.
  intros He Hf. unfold scan, scan_run.
  destruct (compile_all _ true) as [gl|]; [|done].
  destruct (parse diff_text) as [items|]; [|done].
  do 2 f_equal. unfold scan_pass.
  assert (file_rules (registry1 ++ rule :: registry2) = file_rules (registry1 ++ registry2))
    as ->.
  { unfold file_rules, enabled_rules. rewrite !filter_app.
    destruct (enabled rule) eqn:Een.
    - rewrite (filter_cons_True (λ r, enabled r = true)) by done.
      rewrite filter_cons_False by congruence. done.
    - rewrite (filter_cons_False (λ r, enabled r = true)) by congruence. done. }
  unfold main_pass. apply for_each_ext. intros st item.
  unfold scan_item. destruct item as [dl|df|sk]; [|done..].
  destruct (negb _); [done|]. destruct (bool_decide _); [done|].
  assert (∀ body : ScanState → Rule → ScanState * ctl,
            (∀ st, body st rule = (st, Next)) →
            ∀ st, for_each body (content_rules (registry1 ++ rule :: registry2)) st
                  = for_each body (content_rules (registry1 ++ registry2)) st) as Hskip.
  { intros body Hb st'. unfold content_rules, enabled_rules. rewrite !filter_app.
    destruct (enabled rule) eqn:Een.
    - rewrite (filter_cons_True (λ r, enabled r = true)) by done.
      rewrite filter_cons_True by done. by apply for_each_skip.
    - rewrite (filter_cons_False (λ r, enabled r = true)) by congruence. done. }
  rewrite Hskip; [done|]. intros st'. unfold scan_content_rule. by rewrite He.
Qed.

End EngineMarkers.

(** ** The rule registry *)

Section RegistryFacts.
Context `{PyRuntime}.

Lemma get_register registry rule rule_id :
  get (register registry rule) rule_id
  = if bool_decide (rule_id = id rule) then Some rule else get registry rule_id.
Proof.
  unfold get. induction registry as [|r registry IH]; simpl.
  - destruct (decide (rule_id = id rule)) as [->|Hne].
    + by rewrite !bool_decide_eq_true_2.
    + by rewrite !bool_decide_eq_false_2 by congruence.
  - destruct (decide (id r = id rule)) as [Heq|Hne].
    + rewrite (bool_decide_eq_true_2 _ Heq). simpl. rewrite Heq.
      destruct (decide (id rule = rule_id)) as [<-|Hne2].
      * by rewrite !bool_decide_eq_true_2.
      * by rewrite !bool_decide_eq_false_2 by congruence.
    + rewrite (bool_decide_eq_false_2 _ Hne). simpl.
      destruct (decide (id r = rule_id)) as [Hr|Hr].
      * rewrite (bool_decide_eq_true_2 _ Hr).
        by rewrite bool_decide_eq_false_2 by congruence.
      * rewrite (bool_decide_eq_false_2 _ Hr). exact IH.
Qed.

Lemma register_ids registry rule :
  id <$> register registry rule
  = if bool_decide (id rule ∈ id <$> registry) then id <$> registry
    else (id <$> registry) ++ [id rule].
Proof.
  induction registry as [|r registry IH].
  - by rewrite bool_decide_eq_false_2 by apply not_elem_of_nil.
  - cbn [register]. rewrite (fmap_cons id r registry).
    destruct (decide (id r = id rule)) as [Heq|Hne].
    + rewrite (bool_decide_eq_true_2 _ Heq), fmap_cons.
      rewrite bool_decide_eq_true_2; [by rewrite Heq|]. rewrite Heq. apply list_elem_of_here.
    + rewrite (bool_decide_eq_false_2 _ Hne), fmap_cons, IH.
      destruct (decide (id rule ∈ id <$> registry)) as [Hin|Hin].
      * rewrite (bool_decide_eq_true_2 _ Hin).
        rewrite bool_decide_eq_true_2; [done|]. by apply list_elem_of_further.
      * rewrite (bool_decide_eq_false_2 _ Hin).
        rewrite bool_decide_eq_false_2; [done|].
        intros Hin'. apply elem_of_cons in Hin' as [Hin'|Hin']; [congruence|done].
Qed.

Lemma register_NoDup registry rule :
  NoDup (id <$> registry) → NoDup (id <$> register registry rule).
Proof.
  intros Hnd. rewrite register_ids. case_bool_decide as Hin; [done|].
  apply NoDup_app. split; [done|]. split; [|apply NoDup_singleton].
  intros x Hx Hx'. apply list_elem_of_singleton in Hx'. by subst.
Qed.

(** Register and get. After [register(rule)] the registry returns
    [rule] for the rule's identifier and what it returned before for every
    other identifier; the identifiers stay pairwise distinct, a rule whose
    identifier is present taking the place of the old one and a new one
    going to the end. *)
Lemma register_get registry rule rule_id :
  get (register registry rule) rule_id
  = (if bool_decide (rule_id = id rule) then Some rule else get registry rule_id)
  ∧ id <$> register registry rule
    = (if bool_decide (id rule ∈ id <$> registry) then id <$> registry
       else (id <$> registry) ++ [id rule]).
Proof. split; [apply get_register|apply register_ids]. Qed.

Lemma get_register_many rules : ∀ registry rule_id,
  get (register_many registry rules) rule_id
  = match last (filter (λ r, id r = rule_id) rules) with
    | Some r => Some r
    | None => get registry rule_id
    end.
Proof.
  unfold register_many.
  induction rules as [|rule rules IH]; intros registry rule_id; [done|].
  cbn [fold_left]. rewrite IH, get_register.
  destruct (decide (id rule = rule_id)) as [Heq|Hne].
  - rewrite filter_cons_True by done. rewrite bool_decide_eq_true_2 by done.
    destruct (filter _ rules) as [|r0 l] eqn:E; [reflexivity|].
    change (last (rule :: r0 :: l)) with (last (r0 :: l)).
    destruct (last (r0 :: l)) as [x|] eqn:El; [done|]. by apply last_None in El.
  - rewrite filter_cons_False by done. by rewrite bool_decide_eq_false_2.
Qed.

(** (X23) The last registration wins. After [register_many] the registry
    returns, for an identifier, the last of the registered rules that has
    it, and what it returned before when none has it: a custom rule with
    the identifier of a built-in rule replaces the built-in rule. Starting
    from the empty registry, no two rules share an identifier. *)
Theorem register_many_last_wins registry rules rule_id :
  get (register_many registry rules) rule_id
  = match last (filter (λ r, id r = rule_id) rules) with
    | Some r => Some r
    | None => get registry rule_id
    end
  ∧ NoDup (id <$> register_many [] rules).
Proof.
  split; [apply get_register_many|].
  unfold register_many.
  assert (∀ registry0, NoDup (id <$> registry0) →
            NoDup (id <$> fold_left register rules registry0)) as Hgen.
  { induction rules as [|rule rules' IH]; intros registry0 Hnd; [done|].
    simpl. apply IH. by apply register_NoDup. }
  apply Hgen. constructor.
Qed.

Lemma apply_config_elem registry rules config rule' :
  rule' ∈ apply_config registry rules config →
  ∃ rule, rule ∈ registry ∧ id rule' = id rule
          ∧ (enabled rule' = true →
             (id rule ∉ disable rules) ∧ (id rule ∉ ig_rules (cfg_ignore config))
             ∧ match enable rules with
               | [] => enabled rule = true ∧ rule' = rule
               | _ => id rule ∈ enable rules
               end).
Proof.
  unfold apply_config. intros Hin.
  apply list_elem_of_fmap in Hin as (rule & -> & Hin).
  exists rule. split; [done|]. cbv zeta.
  case_bool_decide as Hd; simpl.
  { split; [by destruct (enable rules)|done]. }
  case_bool_decide as Hi; simpl.
  { split; [by destruct (enable rules)|done]. }
  split; [by destruct (enable rules)|]. intros Hen.
  split; [done|]. split; [done|].
  destruct (enable rules) as [|e es]; [done|].
  simpl in Hen. by apply bool_decide_eq_true in Hen.
Qed.

(** (X24) Enabling and disabling. After [apply_config] the registry holds
    the same identifiers in the same order, and a rule is enabled only if
    its identifier is neither in [rules.disable] nor in [ignore.rules];
    with a non-empty [rules.enable] it is moreover in that list; with an
    empty one the rule was enabled before and is unchanged: an empty
    enable list never enables a rule again. *)
Theorem apply_config_enabled registry rules config :
  id <$> apply_config registry rules config = id <$> registry
  ∧ ∀ rule', rule' ∈ enabled_rules (apply_config registry rules config) →
      (id rule' ∉ disable rules) ∧ (id rule' ∉ ig_rules (cfg_ignore config))
      ∧ match enable rules with
        | [] => rule' ∈ enabled_rules registry
        | _ => id rule' ∈ enable rules
        end.
Proof.
  split.
  - unfold apply_config. rewrite <- list_fmap_compose. apply list_fmap_ext.
    intros i rule _. simpl. repeat case_match; done.
  - intros rule' Hin. unfold enabled_rules in Hin.
    apply list_elem_of_filter in Hin as [Hen Hin].
    apply apply_config_elem in Hin as (rule & Hr & Hid & Hcase).
    destruct (Hcase Hen) as (H1 & H2 & H3). rewrite Hid.
    split; [done|]. split; [done|].
    destruct (enable rules); [|done]. destruct H3 as [H3 ->].
    unfold enabled_rules. by apply list_elem_of_filter.
Qed.

Lemma file_rules_patterns registry rule :
  rule ∈ file_rules registry → ∃ pats, file_patterns rule = Some pats.
Proof.
  unfold file_rules. intros Hr. apply list_elem_of_filter in Hr as [Hf _].
  unfold is_file_rule in Hf. destruct (file_patterns rule); [by eexists|done].
Qed.

(** Rules that match a file. [match_file_patterns] never fails its
    assertion: it returns the enabled file rules one of whose patterns
    matches the path or its last component, in the order of the registry,
    each once. *)
Lemma match_file_patterns_spec registry filepath :
  match_file_patterns registry filepath
  = Ok (filter (λ rule, matches_file rule filepath = true) (file_rules registry)).
Proof.
  unfold match_file_patterns.
  assert (∀ rules hits,
            (∀ rule, rule ∈ rules → ∃ pats, file_patterns rule = Some pats) →
            fold_left
              (λ acc rule,
                 match acc with
                 | Err e => Err e
                 | Ok hits =>
                     match file_patterns rule with
                     | None => Err (PyException (py "AssertionError"))
                     | Some pats =>
                         if existsb (λ pat, fnmatch (path_name filepath) pat
                                            || fnmatch filepath pat) pats
                         then Ok (hits ++ [rule]) else Ok hits
                     end
                 end) rules (Ok hits)
            = Ok (hits ++ filter (λ rule, matches_file rule filepath = true) rules)) as Hgen.
  { induction rules as [|rule rules IH]; intros hits Hpats.
    { simpl. by rewrite app_nil_r. }
    cbn [fold_left].
    destruct (Hpats rule (list_elem_of_here _ _)) as [pats Hp]. rewrite Hp.
    assert (matches_file rule filepath
            = existsb (λ pat, fnmatch (path_name filepath) pat || fnmatch filepath pat) pats)
      as Hm by (unfold matches_file; by rewrite Hp).
    destruct (existsb _ pats) eqn:E.
    - rewrite IH by (intros r Hr; apply Hpats; by apply list_elem_of_further).
      rewrite filter_cons_True by done. by rewrite <- app_assoc.
    - rewrite IH by (intros r Hr; apply Hpats; by apply list_elem_of_further).
      rewrite filter_cons_False by congruence. done. }
  rewrite Hgen; [done|]. intros rule. apply file_rules_patterns.
Qed.

Lemma scan_file_rules_loop registry filepath st :
  (∀ rule, rule ∈ file_rules registry → ∃ al, compiled_allowlist rule = Ok al) →
  for_each (scan_file_rule filepath) (file_rules registry) st
  = ({| raw_findings :=
          raw_findings st
          ++ (file_finding filepath
                <$> filter (λ rule, allowlisted rule filepath = false)
                      (filter (λ rule, matches_file rule filepath = true)
                         (file_rules registry)));
        suppressions := suppressions st; skipped := skipped st;
        scanned_files_set := scanned_files_set st;
        ignored_files_set := ignored_files_set st |}, None).
Proof.
  pose proof (file_rules_patterns registry) as Hpats.
  generalize dependent (file_rules registry). intros rules Hpats Hal. revert st.
  induction rules as [|rule rules IH]; intros st.
  { simpl. rewrite app_nil_r. by destruct st. }
  destruct (Hpats rule (list_elem_of_here _ _)) as [pats Hp].
  destruct (Hal rule (list_elem_of_here _ _)) as [al Ha].
  pose proof (IH (λ r Hr, Hpats r (list_elem_of_further _ _ _ Hr))
                 (λ r Hr, Hal r (list_elem_of_further _ _ _ Hr))) as IH'.
  cbn [for_each]. unfold scan_file_rule at 1. rewrite Hp.
  assert (matches_file rule filepath
          = existsb (λ pat, fnmatch (path_name filepath) pat || fnmatch filepath pat) pats)
    as Hm by (unfold matches_file; by rewrite Hp).
  rewrite <- Hm.
  destruct (matches_file rule filepath) eqn:Em.
  - rewrite filter_cons_True by done.
    assert (∃ b, _match_rule_allowlist (Some (path_name filepath)) rule = Ok b) as [b Hb].
    { unfold _match_rule_allowlist. rewrite Ha, search_any_Some. by eexists. }
    assert (allowlisted rule filepath = b) as Hb' by (unfold allowlisted; by rewrite Hb).
    rewrite Hb. destruct b.
    + rewrite filter_cons_False by (rewrite Hb'; done). apply IH'.
    + rewrite filter_cons_True by done. rewrite IH'. simpl.
      by rewrite <- app_assoc.
  - rewrite filter_cons_False by congruence. apply IH'.
Qed.

(** (X25) The engine and the registry agree on file rules. For a file
    that is not ignored, when the allowlists of the file rules compile,
    the loop of [scan] over the file rules records one raw finding, at
    line 0 and with the last component of the path as matched value, for
    each rule that [match_file_patterns] returns for the path and whose
    allowlist does not match that last component, in the same order; it
    records nothing else and does not raise. *)
Theorem file_rules_agree registry filepath st :
  (∀ rule, rule ∈ file_rules registry → ∃ al, compiled_allowlist rule = Ok al) →
  ∃ matched,
    match_file_patterns registry filepath = Ok matched
    ∧ for_each (scan_file_rule filepath) (file_rules registry) st
      = ({| raw_findings :=
              raw_findings st
              ++ (file_finding filepath
                    <$> filter (λ rule, allowlisted rule filepath = false) matched);
            suppressions := suppressions st; skipped := skipped st;
            scanned_files_set := scanned_files_set st;
            ignored_files_set := ignored_files_set st |}, None).
Proof.
  intros Hal. eexists. split; [apply match_file_patterns_spec|].
  by apply scan_file_rules_loop.
Qed.





End RegistryFacts.

(** ** The git adapter *)

Lemma split_max_binary name :
  split_max TAB 2 [] (numstat_binary name) !! 2%nat = Some name.
Proof. by destruct name. Qed.

Lemma startswith_take s p : startswith s p = true → s = p ++ drop (length p) s.
Proof.
  revert s. induction p as [|c p IH]; intros s H; [done|].
  destruct s as [|d s]; [done|]. cbn [startswith] in H.
  apply andb_true_iff in H as [Hc H]. apply N.eqb_eq in Hc as ->.
  cbn [length drop app]. f_equal. by apply IH.
Qed.

Lemma binary_step_fold lines : ∀ acc,
  fold_left binary_step lines (Ok acc)
  = Ok (list_to_set (drop 4 <$> filter (λ l, startswith l [45; TAB; 45; TAB]%N = true) lines)
        ∪ acc).
Proof.
  induction lines as [|l lines IH]; intros acc.
  - cbn [fold_left]. f_equal.
    by rewrite filter_nil, fmap_nil, list_to_set_nil, (left_id_L ∅ (∪)).
  - cbn [fold_left binary_step].
    destruct (startswith l [45; TAB; 45; TAB]%N) eqn:Hl.
    + rewrite filter_cons_True by done.
      pose proof (startswith_take _ _ Hl) as El. cbn [length] in El.
      change ([45; TAB; 45; TAB]%N ++ drop 4 l) with (numstat_binary (drop 4 l)) in El.
      rewrite El at 1. rewrite split_max_binary, IH. f_equal.
      rewrite fmap_cons, list_to_set_cons.
      rewrite (comm_L (∪) {[ _ ]} (list_to_set _)). by rewrite (assoc_L (∪)).
    + rewrite filter_cons_False by (by rewrite Hl). apply IH.
Qed.

(** (X27) [get_binary_files] never raises: its result is the set of the
    lines of the output that start with [-<TAB>-<TAB>], each without these
    four characters (later tabs are part of the name). *)
Theorem get_binary_files_spec output :
  get_binary_files output
  = Ok (list_to_set
          (drop 4 <$> filter (λ l, startswith l [45; TAB; 45; TAB]%N = true)
                             (splitlines output))).
Proof.
  unfold get_binary_files. rewrite binary_step_fold. f_equal.
  by rewrite (right_id_L ∅ (∪)).
Qed.

Lemma splitlines_text ls :
  Forall (λ l, no_linebreak l = true) ls → splitlines (text ls) = ls.
Proof.
  intros H. rewrite text_join_lines, splitlines_join_lines.
  - rewrite <- list_fmap_compose. clear H.
    induction ls as [|l ls IH]; [done|]. csimpl. by f_equal.
  - rewrite Forall_fmap. eapply Forall_impl; [exact H|]. by intros l Hl.
Qed.

(** (X28) Round trip of the staged files: on the lines of names that have no
    line break and are not blank, [get_staged_files] gives the names, in
    order. *)
Theorem get_staged_files_names names :
  Forall (λ n, no_linebreak n = true ∧ py_strip n ≠ []) names →
  get_staged_files (text names) = names.
Proof.
  intros H. unfold get_staged_files. rewrite splitlines_text.
  - induction H as [|n names [_ Hn] _ IH]; [done|].
    by rewrite filter_cons_True, IH.
  - eapply Forall_impl; [exact H|]. by intros n [Hn _].
Qed.

(** ** The hook installer *)

Section InstallerFacts.
Variables (repo_root hook_path : pystr) (chmod_fails : bool).

(** (X29) A pre-commit hook that does not hold the marker is never touched
    unless forced: installing without [force] and uninstalling both fail
    and leave its text as it is. *)
Theorem foreign_hook_kept fs content :
  pre_commit fs = Some content →
  contains content _HOOK_MARKER = false →
  pre_commit (install_hook repo_root hook_path chmod_fails fs false).1 = Some content
  ∧ (install_hook repo_root hook_path chmod_fails fs false).2.1 = false
  ∧ uninstall_hook hook_path fs
    = (fs, (false, py "Pre-commit hook exists but was not installed by gitsafe.")).
Proof.
  intros Hp Hc. unfold install_hook, uninstall_hook.
  rewrite Hp, Hc. by destruct (git_dir fs).
Qed.

(** (X30) After a successful install the hook file holds the marker;
    installing again changes nothing, whatever [force]; and uninstalling
    succeeds and removes the file. *)
Theorem install_then_uninstall fs force :
  (install_hook repo_root hook_path chmod_fails fs force).2.1 = true →
  let fs' := (install_hook repo_root hook_path chmod_fails fs force).1 in
  (∃ content, pre_commit fs' = Some content
              ∧ contains content _HOOK_MARKER = true)
  ∧ (∀ force', install_hook repo_root hook_path chmod_fails fs' force'
               = (fs', (true, py "gitsafe hook is already installed.")))
  ∧ (uninstall_hook hook_path fs').2.1 = true
  ∧ pre_commit (uninstall_hook hook_path fs').1 = None.
Proof.
  assert (Hm : contains _HOOK_SCRIPT _HOOK_MARKER = true) by by vm_compute.
  unfold install_hook, uninstall_hook.
  destruct fs as [g h p e]. cbn [git_dir pre_commit executable hooks_dir].
  destruct g; cbn [negb]; [|done].
  destruct p as [content|].
  - destruct (contains content _HOOK_MARKER) eqn:Hc.
    + intros _. cbn [fst snd pre_commit git_dir negb]. rewrite Hc.
      cbn [negb fst snd pre_commit]. eauto 10.
    + destruct force; cbn [negb]; [|done]. intros _.
      cbn [fst snd pre_commit git_dir negb executable]. rewrite Hm.
      cbn [negb fst snd pre_commit]. eauto 10.
  - intros _. cbn [fst snd pre_commit git_dir negb executable]. rewrite Hm.
    cbn [negb fst snd pre_commit]. eauto 10.
Qed.
End InstallerFacts.

(** ** The properties on concrete runs *)

Section RunExamples.
#[local] Existing Instance literal_runtime.

Ltac by_compute :=
  match goal with
  | |- ¬ ?P => apply (bool_decide_eq_false_1 P)
  | |- ?P => apply (bool_decide_eq_true_1 P)
  end; vm_compute; reflexivity.

Lemma parse_yields_added_lines_witness :
  let diff_text := text [py "diff --git a/f b/f"; py "@@ -0,0 +1 @@"; py "+secret"] in
  let dl := {| dl_file := py "f"; dl_line_no := 1; dl_content := py "secret";
               dl_line_type := ADDED |} in
  ItLine dl ∈ parse_items diff_text
  ∧ dl_line_type dl = ADDED
  ∧ ∃ raw_line, raw_line ∈ splitlines diff_text
                ∧ startswith raw_line (py "+") = true
                ∧ dl_content dl = _strip_bom (drop 1 raw_line).
Proof.
  intros diff_text dl.
  assert (ItLine dl ∈ parse_items diff_text) as Hin.
  { assert (parse_items diff_text
            = [ItFile {| df_path := py "f"; df_old_path := None; df_status := FS_MODIFIED |};
               ItLine dl]) as -> by (vm_compute; reflexivity).
    apply list_elem_of_further, list_elem_of_here. }
  split; [exact Hin|]. exact (parse_yields_added_lines diff_text dl Hin).
Defined.

Lemma parse_file_items_witness :
  let diff_text := text [py "diff --git a/f b/f"; py "@@ -0,0 +1 @@"; py "+secret";
                         py "diff --git a/g.png b/g.png";
                         py "Binary files /dev/null and b/g.png differ"] in
  ∃ items, parse diff_text = Some items
           ∧ length (filter (λ i, is_file_item i = true) items)
             = length (filter (λ l, matches DIFF_HEADER_RE l = true) (splitlines diff_text))
           ∧ length (filter (λ i, is_file_item i = true) items) = 2%nat.
Proof.
  intros diff_text.
  destruct (parse diff_text) as [items|] eqn:E; [|vm_compute in E; discriminate].
  exists items. split; [reflexivity|].
  split; [exact (parse_file_items diff_text items E)|].
  vm_compute in E. injection E as <-. vm_compute. reflexivity.
Defined.

Lemma parse_crlf_witness :
  let ls := [(py "diff --git a/f b/f", true); (py "@@ -0,0 +1 @@", false);
             (py "+secret", true)] in
  Forall (λ l : pystr * bool, no_linebreak l.1 = true) ls
  ∧ parse (join_lines ls) = parse (text ls.*1).
Proof.
  intros ls.
  assert (Forall (λ l : pystr * bool, no_linebreak l.1 = true) ls) as Hls
    by (repeat constructor).
  split; [exact Hls|]. exact (parse_crlf ls Hls).
Defined.

Lemma marker_suppresses_all_witness :
  parse_inline_suppression (py "key = 1 " ++ py "#" ++ py " " ++ py "nosec" ++ []) = (true, None).
Proof.
  apply (marker_suppresses_all (py "key = 1 ") (py "nosec") (py " ") []).
  - by_compute.
  - by right.
  - repeat constructor.
  - constructor.
Defined.

Lemma marker_suppresses_listed_witness :
  parse_inline_suppression
    (py "key = 1 " ++ py "#" ++ [] ++ py "gitsafe-ignore" ++ py "["
     ++ join_on (chr ",") [py "AWS_KEY"; py "R2"] ++ py "]" ++ py " ")
  = (true, Some (list_to_set [py "AWS_KEY"; py "R2"])).
Proof.
  apply (marker_suppresses_listed (py "key = 1 ") (py "gitsafe-ignore") [] (py " ")
           [py "AWS_KEY"; py "R2"]).
  - by_compute.
  - by left.
  - constructor.
  - repeat constructor.
  - discriminate.
  - repeat first [ discriminate | constructor ].
Defined.

Lemma same_line_suppression_witness :
  is_suppressed (register_lines ∅ (py "f") ([] ++ [(3, py "key = 1  # nosec")]))
    (py "f") 3 (py "R")
  = inline_record (py "f") 3 (py "R") None.
Proof.
  apply (same_line_suppression ∅ (py "f") [] 3 (py "key = 1  # nosec") [] None (py "R")).
  - vm_compute. reflexivity.
  - apply not_elem_of_nil.
Defined.

Lemma unmarked_lines_not_suppressed_witness :
  is_suppressed (register_lines ∅ (py "f") [(1, py "key = 1"); (2, py "x = 2")])
    (py "f") 1 (py "R")
  = None.
Proof.
  apply (unmarked_lines_not_suppressed ∅ (py "f") [(1, py "key = 1"); (2, py "x = 2")]
           1 (py "R")).
  repeat (constructor; [vm_compute; reflexivity|]). constructor.
Defined.

Lemma ignore_rule_scoped_line_witness :
  is_ignored (ignore_add_line ignore_empty (py "rule:" ++ py "R1" ++ py " " ++ py "*.env"))
    (py "a.env") (Some (py "R1"))
  = is_ignored ignore_empty (py "a.env") (Some (py "R1"))
    || bool_decide (Some (py "R1") = Some (py "R1")) && fnmatch (py "a.env") (py "*.env").
Proof.
  apply (ignore_rule_scoped_line ignore_empty (py "R1") (py "*.env") (py "a.env")
           (Some (py "R1"))).
  - discriminate.
  - repeat constructor.
  - discriminate.
  - intros c Hc. vm_compute in Hc. injection Hc as <-. reflexivity.
  - intros c Hc. vm_compute in Hc. injection Hc as <-. reflexivity.
Defined.

Lemma deduplicate_first_wins_witness :
  let raws := [raw_of_severity "low"; raw_of_severity "critical"] in
  ∃ f, f ∈ deduplicate raws (py "high")
       ∧ ∃ first rest,
           of_key (finding_key f) raws = first :: rest
           ∧ f_rule_name f = rf_rule_name first
           ∧ f_category f = rf_category first
           ∧ f_matched_value f = rf_matched_value first
           ∧ f_description f = rf_description first
           ∧ f_commit f = rf_commit first
           ∧ f_is_blocking f = severity_at_or_above (rf_severity first) (py "high")
           ∧ f_entropy_value f = last_entropy None (first :: rest).
Proof.
  intros raws.
  destruct (deduplicate raws (py "high")) as [|f fs] eqn:E; [vm_compute in E; discriminate|].
  assert (f ∈ deduplicate raws (py "high")) as Hin by (rewrite E; apply list_elem_of_here).
  exists f. split; [rewrite <- E; exact Hin|].
  exact (deduplicate_first_wins raws (py "high") f Hin).
Defined.

Lemma deduplicate_detection_methods_witness :
  let raws := [raw_of_severity "low"; raw_of_severity "critical"] in
  ∃ f, f ∈ deduplicate raws (py "high")
       ∧ NoDup (f_detection_methods f)
       ∧ ∀ m, m ∈ f_detection_methods f
              ↔ m ∈ rf_detection_method <$> of_key (finding_key f) raws.
Proof.
  intros raws.
  destruct (deduplicate raws (py "high")) as [|f fs] eqn:E; [vm_compute in E; discriminate|].
  assert (f ∈ deduplicate raws (py "high")) as Hin by (rewrite E; apply list_elem_of_here).
  exists f. split; [rewrite <- E; exact Hin|].
  exact (deduplicate_detection_methods raws (py "high") f Hin).
Defined.

Lemma scan_result_partition_witness :
  let diff_text := text [py "diff --git a/f b/f"; py "@@ -0,0 +1 @@"; py "+error"] in
  let registry := [literal_rule "R1" "high" "error"; literal_rule "R2" "low" "err"] in
  let config := plain_config false [] [] in
  ∃ r, scan diff_text config registry ignore_empty = Ok r
       ∧ total_findings r
         = (length (blocking_findings r) + length (informational_findings r))%nat
       ∧ (blocked r = true ↔ blocking_findings r ≠ [])
       ∧ ∀ f, ¬ (f ∈ blocking_findings r ∧ f ∈ informational_findings r).
Proof.
  intros diff_text registry config.
  destruct (scan diff_text config registry ignore_empty) as [r|e] eqn:E;
    [|vm_compute in E; discriminate].
  exists r. split; [reflexivity|].
  exact (scan_result_partition diff_text config registry ignore_empty r E).
Defined.

Lemma find_high_entropy_hits_witness :
  let line := py "key = abcdefghijklmnop" in
  (py "abcdefghijklmnop", 16) ∈ find_high_entropy line 4 16
  ∧ 16 = shannon_entropy (py "abcdefghijklmnop")
  ∧ float_ge 16 4 = true
  ∧ 16 ≤ Z.of_nat (length (py "abcdefghijklmnop"))
  ∧ Forall (λ c, token_char c = true) (py "abcdefghijklmnop")
  ∧ ∃ pre post, line = pre ++ py "abcdefghijklmnop" ++ post.
Proof.
  intros line.
  assert ((py "abcdefghijklmnop", 16) ∈ find_high_entropy line 4 16) as Hin.
  { assert (find_high_entropy line 4 16 = [(py "abcdefghijklmnop", 16)]) as ->
      by (vm_compute; reflexivity).
    apply list_elem_of_here. }
  split; [exact Hin|].
  exact (find_high_entropy_hits line 4 16 (py "abcdefghijklmnop") 16 Hin).
Defined.



Lemma scan_finding_source_witness :
  let diff_text := text [py "diff --git a/f b/f"; py "@@ -0,0 +1 @@"; py "+error"] in
  let registry := [literal_rule "R1" "high" "error"] in
  let config := plain_config false [] [] in
  ∃ r f, scan diff_text config registry ignore_empty = Ok r
         ∧ f ∈ findings r
         ∧ reported_by config registry (f_rule_id f) (f_line_no f).
Proof.
  intros diff_text registry config.
  destruct (scan diff_text config registry ignore_empty) as [r|e] eqn:E;
    [|vm_compute in E; discriminate].
  destruct (findings r) as [|f fs] eqn:Ef.
  { apply (f_equal (λ x, match x with Ok r => length (findings r) | Err _ => 1%nat end)) in E.
    rewrite Ef in E. vm_compute in E. discriminate. }
  assert (f ∈ findings r) as Hin by (rewrite Ef; apply list_elem_of_here).
  exists r, f. split; [reflexivity|]. split; [exact Hin|].
  exact (scan_finding_source diff_text config registry ignore_empty r f E Hin).
Defined.

Lemma scan_no_hash_no_suppression_witness :
  let diff_text := text [py "diff --git a/f b/f"; py "@@ -0,0 +1 @@"; py "+error"] in
  let registry := [literal_rule "R1" "high" "error"] in
  let config := plain_config false [] [] in
  ∃ r, scan diff_text config registry ignore_empty = Ok r ∧ suppressed r = [].
Proof.
  intros diff_text registry config.
  destruct (scan diff_text config registry ignore_empty) as [r|e] eqn:E;
    [|vm_compute in E; discriminate].
  exists r. split; [reflexivity|].
  apply (scan_no_hash_no_suppression diff_text config registry ignore_empty r); [|exact E].
  intros dl Hin.
  assert (parse_items diff_text
          = [ItFile {| df_path := py "f"; df_old_path := None; df_status := FS_MODIFIED |};
             ItLine {| dl_file := py "f"; dl_line_no := 1; dl_content := py "error";
                       dl_line_type := ADDED |}]) as Hitems by (vm_compute; reflexivity).
  rewrite Hitems in Hin.
  apply elem_of_cons in Hin as [Hin|Hin]; [discriminate|].
  apply list_elem_of_singleton in Hin. injection Hin as ->.
  by_compute.
Defined.

Lemma entropy_rule_inert_witness :
  let diff_text := text [py "diff --git a/f b/f"; py "@@ -0,0 +1 @@"; py "+error"] in
  let config := plain_config false [] [] in
  is_entropy_rule entropy_rule = true
  ∧ scan diff_text config ([] ++ entropy_rule :: [literal_rule "R1" "high" "err"]) ignore_empty
    = scan diff_text config ([] ++ [literal_rule "R1" "high" "err"]) ignore_empty.
Proof.
  intros diff_text config. split; [reflexivity|].
  exact (entropy_rule_inert diff_text config [] entropy_rule
           [literal_rule "R1" "high" "err"] ignore_empty eq_refl eq_refl).
Defined.

Lemma file_rules_agree_witness :
  let registry := [literal_rule "R1" "high" "error"; pem_rule] in
  let st := {| raw_findings := []; suppressions := []; skipped := [];
               scanned_files_set := ∅; ignored_files_set := ∅ |} in
  ∃ matched,
    match_file_patterns registry (py "keys/server.pem") = Ok matched
    ∧ for_each (scan_file_rule (py "keys/server.pem")) (file_rules registry) st
      = ({| raw_findings :=
              raw_findings st
              ++ (file_finding (py "keys/server.pem")
                    <$> filter (λ rule, allowlisted rule (py "keys/server.pem") = false)
                          matched);
            suppressions := suppressions st; skipped := skipped st;
            scanned_files_set := scanned_files_set st;
            ignored_files_set := ignored_files_set st |}, None).
Proof.
  intros registry st.
  apply (file_rules_agree registry (py "keys/server.pem") st).
  intros rule Hin.
  change (file_rules registry) with [pem_rule] in Hin.
  apply list_elem_of_singleton in Hin as ->.
  eexists. vm_compute. reflexivity.
Defined.

Lemma get_staged_files_names_witness :
  get_staged_files (text [py "src/a.py"; py "docs/read me.txt"])
  = [py "src/a.py"; py "docs/read me.txt"].
Proof.
  apply (get_staged_files_names [py "src/a.py"; py "docs/read me.txt"]).
  repeat (constructor; [split; [vm_compute; reflexivity|vm_compute; discriminate]|]).
  constructor.
Defined.

Lemma foreign_hook_kept_witness :
  let fs := {| git_dir := true; hooks_dir := true;
               pre_commit := Some (py "#!/bin/sh"); executable := true |} in
  pre_commit (install_hook (py "/repo") (py "/repo/.git/hooks/pre-commit") false fs false).1
  = Some (py "#!/bin/sh")
  ∧ (install_hook (py "/repo") (py "/repo/.git/hooks/pre-commit") false fs false).2.1 = false
  ∧ uninstall_hook (py "/repo/.git/hooks/pre-commit") fs
    = (fs, (false, py "Pre-commit hook exists but was not installed by gitsafe.")).
Proof.
  intros fs.
  apply (foreign_hook_kept (py "/repo") (py "/repo/.git/hooks/pre-commit") false fs
           (py "#!/bin/sh")).
  - reflexivity.
  - vm_compute. reflexivity.
Defined.

Lemma install_then_uninstall_witness :
  let fs := {| git_dir := true; hooks_dir := false; pre_commit := None;
               executable := false |} in
  let fs' := (install_hook (py "/repo") (py "/repo/.git/hooks/pre-commit") false fs false).1 in
  (∃ content, pre_commit fs' = Some content ∧ contains content _HOOK_MARKER = true)
  ∧ (∀ force', install_hook (py "/repo") (py "/repo/.git/hooks/pre-commit") false fs' force'
               = (fs', (true, py "gitsafe hook is already installed.")))
  ∧ (uninstall_hook (py "/repo/.git/hooks/pre-commit") fs').2.1 = true
  ∧ pre_commit (uninstall_hook (py "/repo/.git/hooks/pre-commit") fs').1 = None.
Proof.
  intros fs.
  apply (install_then_uninstall (py "/repo") (py "/repo/.git/hooks/pre-commit") false fs false).
  reflexivity.
Defined.

End RunExamples.
